(** * readthedocs.integrations.models: a shallow embedding

    The module is Python 2 code (it defines [__unicode__], imports
    [ugettext_lazy] and has no [__future__] imports), so the embedding
    follows Python 2: [str] is a byte string (here [string]), [unicode]
    is a sequence of code points (here [list N]), [/] on integers is
    floor division, and [dict.keys()] returns a list snapshot. *)

From Stdlib Require Import ZArith NArith String Ascii List Bool Lia.
From Stdlib Require Import Permutation Sorted.
From Stdlib Require Import DecimalString DecimalN DecimalPos DecimalFacts.
From stdpp Require Import gmap strings list fin_maps sorting.
Import ListNotations.

Set Warnings "-register-all".
Local Open Scope string_scope.
Local Open Scope Z_scope.

(** ** Python values *)

(** A [unicode] object: its code points. *)
Definition ustring := list N.

(** The [unicode] object with the same characters as an ASCII [str]
    literal of the source. *)
Definition utext (s : string) : ustring :=
  map N_of_ascii (list_ascii_of_string s).

(** The Python objects the module handles.  [PFloat] keeps a float as
    the literal it was read from; [PObject] is any other object, one
    that [json] cannot encode and that is not a container; it carries
    a name only to tell two such objects apart.  Dictionaries are keyed
    by text, in the order [items()] yields them. *)
Inductive pyval : Type :=
| PNone
| PBool (b : bool)
| PInt (z : Z)
| PFloat (lit : string)
| PUnicode (u : ustring)
| PStr (s : string)
| PList (l : list pyval)
| PDict (items : list (ustring * pyval))
| PObject (name : string).

(** The exceptions that occur in the module. *)
Inductive exn : Type :=
| TypeError
| ValueError
| AttributeError
| DoesNotExist
| MultipleObjectsReturned
| IntegrityError
| RuntimeError.

(** A computation that returns or raises. *)
Inductive result (A : Type) : Type :=
| Ok (a : A)
| Raise (e : exn).
Arguments Ok {A} a.
Arguments Raise {A} e.

#[global] Instance result_ret : MRet result := @Ok.

#[global] Instance result_bind : MBind result :=
  fun A B (k : A -> result B) (r : result A) =>
    match r with
    | Ok a => k a
    | Raise e => Raise e
    end.

Definition ustring_eqb (a b : ustring) : bool :=
  bool_decide (a = b).

(** ** HttpExchange.failed *)

Module Status.

(** [int(self.status_code / 100) != 2]; [/] is floor division and
    [int] of an integer is the integer. *)
Definition failed (status_code : Z) : bool :=
  negb (status_code / 100 =? 2).

End Status.

(** ** Integration and its proxy subclasses *)

Module Integrations.

(** The model classes: [Integration] and its two proxy subclasses. *)
Inductive model_class : Type :=
| Integration
| GitHubWebhook
| BitbucketWebhook.

Definition GITHUB_WEBHOOK : string := "github_webhook".
Definition BITBUCKET_WEBHOOK : string := "bitbucket_webhook".
Definition GITLAB_WEBHOOK : string := "gitlab_webhook".
Definition API_WEBHOOK : string := "api_webhook".

(** [cls.integration_type_id]; [None] where [hasattr] is false. *)
Definition integration_type_id (c : model_class) : option string :=
  match c with
  | Integration => None
  | GitHubWebhook => Some GITHUB_WEBHOOK
  | BitbucketWebhook => Some BITBUCKET_WEBHOOK
  end.

(** The class attribute [has_sync]. *)
Definition has_sync (c : model_class) : bool :=
  match c with
  | Integration => false
  | GitHubWebhook => true
  | BitbucketWebhook => true
  end.

(** [Integration.__subclasses__()]. *)
Definition subclasses : list model_class :=
  [GitHubWebhook; BitbucketWebhook].

(** A model instance: its class and its [__dict__]. *)
Record instance : Type := Instance {
  cls : model_class;
  dict : gmap string pyval
}.

Definition getattr (o : instance) (name : string) : option pyval :=
  dict o !! name.

(** Equality of a [str] constant of the source with a stored value:
    a [unicode] or [str] object with the same characters. *)
Definition str_eq (k : string) (v : pyval) : bool :=
  match v with
  | PUnicode u => ustring_eqb (utext k) u
  | PStr s => bool_decide (k = s)
  | _ => false
  end.

(** [class_map]: the pairs [(cls.integration_type_id, cls)] over the
    subclasses that have the attribute. *)
Definition class_map : list (string * model_class) :=
  omap (fun c => match integration_type_id c with
                 | Some t => Some (t, c)
                 | None => None
                 end) subclasses.

(** [class_map.get(key)]: with distinct keys the dictionary built from
    the pairs holds each of them. *)
Fixpoint class_map_get (m : list (string * model_class)) (key : pyval)
  : option model_class :=
  match m with
  | [] => None
  | (t, c) :: m' =>
      match class_map_get m' key with
      | Some c' => Some c'
      | None => if str_eq t key then Some c else None
      end
  end.

(** [super().get(...)] over the rows the query matches. *)
Definition queryset_get (matching : list (gmap string pyval))
  : result instance :=
  match matching with
  | [] => Raise DoesNotExist
  | [row] => Ok (Instance Integration row)
  | _ => Raise MultipleObjectsReturned
  end.

(** The loop [for k, v in old.__dict__.items(): new.__dict__[k] = v]. *)
Definition copy_dict (old_items : list (string * pyval))
    (new_dict : gmap string pyval) : gmap string pyval :=
  fold_left (fun d kv => <[kv.1 := kv.2]> d) old_items new_dict.

Section Get.

(** [cls_replace()]: the [__dict__] of a freshly constructed instance
    of a class, as Django's model constructor fills it. *)
Variable fresh_dict : model_class -> gmap string pyval.

(** [IntegrationQuerySet.get]. *)
Definition get (matching : list (gmap string pyval)) : result instance :=
  old ← queryset_get matching;
  match getattr old "integration_type" with
  | None => Ok old
  | Some t =>
      match class_map_get class_map t with
      | None => Ok old
      | Some cls_replace =>
          Ok (Instance cls_replace
                (copy_dict (map_to_list (dict old)) (fresh_dict cls_replace)))
      end
  end.

End Get.

(** [k in container] for a [str] constant [k] of the source. *)
Fixpoint is_prefix (p s : ustring) : bool :=
  match p, s with
  | [], _ => true
  | _ :: _, [] => false
  | a :: p', b :: s' => (a =? b)%N && is_prefix p' s'
  end.

Fixpoint is_infix (p s : ustring) : bool :=
  is_prefix p s ||
  match s with
  | [] => false
  | _ :: s' => is_infix p s'
  end.

Definition py_in (k : string) (container : pyval) : result bool :=
  match container with
  | PDict items => Ok (existsb (fun kv => ustring_eqb (utext k) kv.1) items)
  | PList l => Ok (existsb (str_eq k) l)
  | PUnicode u => Ok (is_infix (utext k) u)
  | PStr s => Ok (is_infix (utext k) (utext s))
  | PNone | PBool _ | PInt _ | PFloat _ | PObject _ => Raise TypeError
  end.

(** [all((k in data) for k in keys)]; [all] stops at the first false. *)
Fixpoint all_in (keys : list string) (data : pyval) : result bool :=
  match keys with
  | [] => Ok true
  | k :: keys' =>
      b ← py_in k data;
      if b : bool then all_in keys' data else Ok false
  end.

(** The body of the two [can_sync] properties, which are the same text:
    [try: return all(...) except (ValueError, TypeError): return False]. *)
Definition can_sync_body (self : instance) : result bool :=
  match getattr self "provider_data" with
  | None => Raise AttributeError
  | Some data =>
      match all_in ["id"; "url"] data with
      | Ok b => Ok b
      | Raise ValueError | Raise TypeError => Ok false
      | Raise e => Raise e
      end
  end.

(** Attribute lookup of [can_sync] on the instance's class: [None]
    where the class does not define it (an [AttributeError]). *)
Definition can_sync (self : instance) : option (result bool) :=
  match cls self with
  | Integration => None
  | GitHubWebhook => Some (can_sync_body self)
  | BitbucketWebhook => Some (can_sync_body self)
  end.

End Integrations.

(** ** Byte strings: the [str] methods the module calls *)

Module Str.

Definition is_lower (c : ascii) : bool :=
  let n := N_of_ascii c in ((97 <=? n) && (n <=? 122))%N.

Definition is_upper (c : ascii) : bool :=
  let n := N_of_ascii c in ((65 <=? n) && (n <=? 90))%N.

Definition to_upper (c : ascii) : ascii :=
  if is_lower c then ascii_of_N (N_of_ascii c - 32) else c.

Definition to_lower (c : ascii) : ascii :=
  if is_upper c then ascii_of_N (N_of_ascii c + 32) else c.

(** [s.lower()]. *)
Fixpoint lower (s : string) : string :=
  match s with
  | EmptyString => EmptyString
  | String c s' => String (to_lower c) (lower s')
  end.

(** [s.title()], as CPython 2 computes it: a cased character that
    follows an uncased one is upper-cased, one that follows a cased
    one is lower-cased. *)
Fixpoint title_from (previous_is_cased : bool) (s : string) : string :=
  match s with
  | EmptyString => EmptyString
  | String c s' =>
      if is_lower c then
        String (if previous_is_cased then c else to_upper c)
               (title_from true s')
      else if is_upper c then
        String (if previous_is_cased then to_lower c else c)
               (title_from true s')
      else String c (title_from false s')
  end.

Definition title (s : string) : string := title_from false s.

(** [s.replace(old, new)] for single characters. *)
Fixpoint replace (old new : ascii) (s : string) : string :=
  match s with
  | EmptyString => EmptyString
  | String c s' =>
      String (if Ascii.eqb c old then new else c) (replace old new s')
  end.

(** [s.startswith(p)]. *)
Definition startswith (p s : string) : bool := String.prefix p s.

(** [s[n:]]. *)
Fixpoint slice_from (n : nat) (s : string) : string :=
  match n, s with
  | O, _ => s
  | S n', String _ s' => slice_from n' s'
  | S _, EmptyString => EmptyString
  end.

(** [s.split(sep)] for a single character. *)
Fixpoint split (sep : ascii) (s : string) : list string :=
  match s with
  | EmptyString => [EmptyString]
  | String c s' =>
      if Ascii.eqb c sep then EmptyString :: split sep s'
      else match split sep s' with
           | [] => [String c EmptyString]
           | w :: ws => String c w :: ws
           end
  end.

(** [sep.join(words)]. *)
Fixpoint join (sep : string) (words : list string) : string :=
  match words with
  | [] => EmptyString
  | [w] => w
  | w :: ws => w ++ sep ++ join sep ws
  end.

End Str.

(** ** Regular expressions: the part of [re] the filter rules use *)

Module Re.

(** The pattern items that occur in [REQ_FILTER_RULES]. *)
Inductive item : Type :=
| Bol                 (* ^ *)
| Eol                 (* $ *)
| Lit (c : ascii)     (* a literal character *)
| Any                 (* . *)
| AnyStar.            (* .* *)

(** [re.compile(pattern, re.I)] for patterns made of these items. *)
Fixpoint compile (pattern : string) : list item :=
  match pattern with
  | EmptyString => []
  | String c rest =>
      if Ascii.eqb c "^" then Bol :: compile rest
      else if Ascii.eqb c "$" then Eol :: compile rest
      else if Ascii.eqb c "." then
        match rest with
        | String c' rest' =>
            if Ascii.eqb c' "*" then AnyStar :: compile rest'
            else Any :: compile rest
        | EmptyString => [Any]
        end
      else Lit c :: compile rest
  end.

Definition newline : ascii := "010".

(** With [re.I] a literal matches a character of either case. *)
Definition eq_ignore_case (a b : ascii) : bool :=
  Ascii.eqb (Str.to_lower a) (Str.to_lower b).

(** Whether the items match a prefix of [s]; [at_start] says that [s]
    is the whole subject.  [$] matches at the end and before a final
    newline, [.] matches all but a newline. *)
Fixpoint match_here (p : list item) : bool -> string -> bool :=
  match p with
  | [] => fun _ _ => true
  | Bol :: p' => fun at_start s => at_start && match_here p' at_start s
  | Eol :: p' => fun at_start s =>
      match s with
      | EmptyString => match_here p' at_start s
      | String c EmptyString =>
          Ascii.eqb c newline && match_here p' at_start s
      | _ => false
      end
  | Lit c :: p' => fun _ s =>
      match s with
      | String c' s' => eq_ignore_case c c' && match_here p' false s'
      | EmptyString => false
      end
  | Any :: p' => fun _ s =>
      match s with
      | String c' s' => negb (Ascii.eqb c' newline) && match_here p' false s'
      | EmptyString => false
      end
  | AnyStar :: p' =>
      fix star (at_start : bool) (s : string) : bool :=
        match_here p' at_start s ||
        match s with
        | String c' s' => negb (Ascii.eqb c' newline) && star false s'
        | EmptyString => false
        end
  end.

(** [rule.match(s)]: a match at the start of [s]. *)
Definition re_match (rule : list item) (s : string) : bool :=
  match_here rule true s.

End Re.

(** ** The [json] module: [dumps] *)

Module Json.

Definition dquote : ascii := "034".
Definition backslash : ascii := "\".
Definition nl : string := String "010" EmptyString.

(** [str(n)] for an integer. *)
Definition str_of_N (n : N) : string :=
  NilEmpty.string_of_uint (N.to_uint n).

Definition str_of_Z (z : Z) : string :=
  if z <? 0 then String "-" (str_of_N (Z.abs_N z)) else str_of_N (Z.to_N z).

Definition hex_digit (n : N) : ascii :=
  if (n <? 10)%N then ascii_of_N (48 + n) else ascii_of_N (87 + n).

(** ['{0:04x}'.format(n)] for [n < 0x10000]. *)
Definition hex4 (n : N) : string :=
  String (hex_digit (N.shiftr n 12 mod 16))
    (String (hex_digit (N.shiftr n 8 mod 16))
       (String (hex_digit (N.shiftr n 4 mod 16))
          (String (hex_digit (n mod 16)) EmptyString)))%N.

Definition u_escape (n : N) : string :=
  String backslash (String "u" (hex4 n)).

(** The replacement of one character by [encode_basestring_ascii]:
    the short escapes of [ESCAPE_DCT], the printable ASCII characters
    as they are, [\uXXXX] for the rest, as a surrogate pair from
    [0x10000] on. *)
Definition escape_char (c : N) : string :=
  if (c =? 34)%N then String backslash (String dquote EmptyString)
  else if (c =? 92)%N then String backslash (String backslash EmptyString)
  else if (c =? 10)%N then String backslash "n"
  else if (c =? 13)%N then String backslash "r"
  else if (c =? 9)%N then String backslash "t"
  else if (c =? 12)%N then String backslash "f"
  else if (c =? 8)%N then String backslash "b"
  else if ((32 <=? c) && (c <=? 126))%N then String (ascii_of_N c) EmptyString
  else if (c <? 65536)%N then u_escape c
  else
    let n := (c - 65536)%N in
    let s1 := N.lor 55296 (N.land (N.shiftr n 10) 1023) in
    let s2 := N.lor 56320 (N.land n 1023) in
    u_escape s1 ++ u_escape s2.

Definition encode_basestring_ascii (u : ustring) : string :=
  String dquote (fold_right (fun c acc => escape_char c ++ acc)
                   (String dquote EmptyString) u).

(** [s.decode('utf-8')] as CPython 2 does it: overlong forms and
    values above [0x10FFFF] are errors, encoded surrogates are not. *)
Definition is_cont (b : N) : bool := ((128 <=? b) && (b <=? 191))%N.

Fixpoint utf8_decode (bytes : list N) : option ustring :=
  match bytes with
  | [] => Some []
  | b0 :: r0 =>
      if (b0 <? 128)%N then cons b0 <$> utf8_decode r0
      else match r0 with
      | [] => None
      | b1 :: r1 =>
          if ((194 <=? b0) && (b0 <=? 223))%N then
            if is_cont b1
            then cons ((b0 - 192) * 64 + (b1 - 128))%N <$> utf8_decode r1
            else None
          else match r1 with
          | [] => None
          | b2 :: r2 =>
              if ((224 <=? b0) && (b0 <=? 239))%N then
                if is_cont b1 && is_cont b2
                   && negb ((b0 =? 224)%N && (b1 <? 160)%N)
                then cons ((b0 - 224) * 4096 + (b1 - 128) * 64
                           + (b2 - 128))%N <$> utf8_decode r2
                else None
              else match r2 with
              | [] => None
              | b3 :: r3 =>
                  if ((240 <=? b0) && (b0 <=? 244))%N then
                    if is_cont b1 && is_cont b2 && is_cont b3
                       && negb ((b0 =? 240)%N && (b1 <? 144)%N)
                       && negb ((b0 =? 244)%N && (143 <? b1)%N)
                    then cons ((b0 - 240) * 262144 + (b1 - 128) * 4096
                               + (b2 - 128) * 64 + (b3 - 128))%N
                           <$> utf8_decode r3
                    else None
                  else None
              end
          end
      end
  end.

(** The encoding of a [str]: it is decoded as UTF-8 when it has a byte
    above 127; a byte string that is not UTF-8 raises
    [UnicodeDecodeError], a [ValueError]. *)
Definition encode_str (s : string) : result string :=
  match utf8_decode (utext s) with
  | Some u => Ok (encode_basestring_ascii u)
  | None => Raise ValueError
  end.

(** Lexicographic order on text, the order [sorted] puts keys in. *)
Fixpoint ustring_leb (a b : ustring) : bool :=
  match a, b with
  | [], _ => true
  | _ :: _, [] => false
  | x :: a', y :: b' =>
      if (x <? y)%N then true
      else if (y <? x)%N then false
      else ustring_leb a' b'
  end.

Section Sorting.
Context {A : Type}.

Fixpoint insert_by_key (kv : ustring * A) (l : list (ustring * A))
  : list (ustring * A) :=
  match l with
  | [] => [kv]
  | kv' :: l' =>
      if ustring_leb kv.1 kv'.1 then kv :: l
      else kv' :: insert_by_key kv l'
  end.

(** [sorted(items, key=lambda kv: kv[0])]: a stable sort. *)
Definition sort_by_key (l : list (ustring * A)) : list (ustring * A) :=
  fold_right insert_by_key [] l.

End Sorting.

Fixpoint sequence {A} (l : list (result A)) : result (list A) :=
  match l with
  | [] => Ok []
  | r :: l' => a ← r; rest ← sequence l'; Ok (a :: rest)
  end.

Fixpoint spaces (n : nat) : string :=
  match n with
  | O => EmptyString
  | S n' => String " " (spaces n')
  end.

Section Dumps.

(** [repr] of the float a literal denotes. *)
Variable float_repr : string -> string.
(** The keyword arguments [sort_keys] and [indent]. *)
Variable sort_keys : bool.
Variable indent : option nat.

(** The text of a container around the texts of its items.  With an
    indent the item separator [', '] is followed by the newline and
    the indentation, as in Python 2. *)
Definition wrap (opening closing : string) (level : nat)
    (parts : list string) : string :=
  match parts with
  | [] => opening ++ closing
  | _ =>
      match indent with
      | None => opening ++ Str.join ", " parts ++ closing
      | Some i =>
          let newline_indent := nl ++ spaces (i * S level) in
          opening ++ newline_indent
          ++ Str.join (", " ++ newline_indent) parts
          ++ nl ++ spaces (i * level) ++ closing
      end
  end.

Definition member (key : ustring) (value : result string) : result string :=
  r ← value; Ok (encode_basestring_ascii key ++ ": " ++ r).

(** [_iterencode] at a nesting level. *)
Fixpoint encode (level : nat) (o : pyval) : result string :=
  match o with
  | PUnicode u => Ok (encode_basestring_ascii u)
  | PStr s => encode_str s
  | PNone => Ok "null"
  | PBool true => Ok "true"
  | PBool false => Ok "false"
  | PInt z => Ok (str_of_Z z)
  | PFloat lit => Ok (float_repr lit)
  | PList l =>
      parts ← sequence (map (encode (S level)) l);
      Ok (wrap "[" "]" level parts)
  | PDict items =>
      let encoded :=
        map (fun kv => (kv.1, encode (S level) kv.2)) items in
      let ordered := if sort_keys then sort_by_key encoded else encoded in
      parts ← sequence (map (fun kr => member kr.1 kr.2) ordered);
      Ok (wrap "{" "}" level parts)
  | PObject _ => Raise TypeError
  end.

(** [json.dumps(o, sort_keys=..., indent=...)]. *)
Definition dumps (o : pyval) : result string := encode 0 o.

End Dumps.

(** ** The [json] module: [loads] *)

Inductive token : Type :=
| TLBrace | TRBrace | TLBracket | TRBracket | TColon | TComma
| TString (u : ustring)
| TInt (z : Z)
| TFloat (lit : string)
| TTrue | TFalse | TNull.

Definition is_ws (c : ascii) : bool :=
  let n := N_of_ascii c in
  ((n =? 32) || (n =? 9) || (n =? 10) || (n =? 13))%N.

Definition is_digit (c : ascii) : bool :=
  let n := N_of_ascii c in ((48 <=? n) && (n <=? 57))%N.

Definition hex_value (c : ascii) : option N :=
  let n := N_of_ascii c in
  if ((48 <=? n) && (n <=? 57))%N then Some (n - 48)%N
  else if ((97 <=? n) && (n <=? 102))%N then Some (n - 87)%N
  else if ((65 <=? n) && (n <=? 70))%N then Some (n - 55)%N
  else None.

Definition hex4_value (h1 h2 h3 h4 : ascii) : option N :=
  a ← hex_value h1; b ← hex_value h2; c ← hex_value h3; d ← hex_value h4;
  Some (a * 4096 + b * 256 + c * 16 + d)%N.

(** An item of a string literal: a byte written as it is or the
    character of a short escape, or the number of a [\uXXXX] escape. *)
Inductive sunit : Type :=
| UChar (n : N)
| UEsc (n : N).

(** The characters that may follow a backslash, [u] apart. *)
Definition simple_escape (c : ascii) : option N :=
  if Ascii.eqb c dquote then Some 34%N
  else if Ascii.eqb c backslash then Some 92%N
  else if Ascii.eqb c "/" then Some 47%N
  else if Ascii.eqb c "b" then Some 8%N
  else if Ascii.eqb c "f" then Some 12%N
  else if Ascii.eqb c "n" then Some 10%N
  else if Ascii.eqb c "r" then Some 13%N
  else if Ascii.eqb c "t" then Some 9%N
  else None.

(** [scanstring] in strict mode, from the character after the opening
    quote: the items of the literal, not yet decoded, and the number
    of characters read, the closing quote included. *)
Fixpoint scan_string (s : string) : option (list sunit * nat) :=
  match s with
  | EmptyString => None
  | String c r =>
      if Ascii.eqb c dquote then Some ([], 1%nat)
      else if Ascii.eqb c backslash then
        match r with
        | EmptyString => None
        | String e r' =>
            if Ascii.eqb e "u" then
              match r' with
              | String h1 (String h2 (String h3 (String h4 r''))) =>
                  n ← hex4_value h1 h2 h3 h4;
                  '(us, k) ← scan_string r'';
                  Some (UEsc n :: us, (6 + k)%nat)
              | _ => None
              end
            else
              n ← simple_escape e;
              '(us, k) ← scan_string r';
              Some (UChar n :: us, (2 + k)%nat)
        end
      else if (N_of_ascii c <? 32)%N then None
      else
        '(us, k) ← scan_string r;
        Some (UChar (N_of_ascii c) :: us, S k)
  end.

Definition is_high_surrogate (n : N) : bool :=
  (N.land n 64512 =? 55296)%N.

Definition is_low_surrogate (n : N) : bool :=
  (N.land n 64512 =? 56320)%N.

(** A [\uXXXX] high surrogate followed at once by a [\uXXXX] low
    surrogate is one character. *)
Fixpoint join_surrogates (us : list sunit) : ustring :=
  match us with
  | [] => []
  | UChar n :: r => n :: join_surrogates r
  | UEsc n :: r =>
      match r with
      | UEsc n2 :: r2 =>
          if is_high_surrogate n && is_low_surrogate n2
          then (65536 + N.lor (N.shiftl (n - 55296) 10) (n2 - 56320))%N
               :: join_surrogates r2
          else n :: join_surrogates r
      | _ => n :: join_surrogates r
      end
  end.

(** The characters of a literal that are not written by a [\uXXXX]
    escape form chunks of bytes; a chunk of a [str] is decoded as
    UTF-8, and a chunk that is not UTF-8 is an error
    ([UnicodeDecodeError], a [ValueError]).  A character of a short
    escape is ASCII: it ends a sequence of bytes as the end of a chunk
    does. *)
Fixpoint decode_chunks (chunk : list N) (us : list sunit)
  : option (list sunit) :=
  match us with
  | [] => map UChar <$> utf8_decode (rev chunk)
  | UChar n :: r => decode_chunks (n :: chunk) r
  | UEsc n :: r =>
      decoded ← utf8_decode (rev chunk);
      rest ← decode_chunks [] r;
      Some (map UChar decoded ++ UEsc n :: rest)%list
  end.

(** The text of a string literal. *)
Definition text_of_units (us : list sunit) : option ustring :=
  join_surrogates <$> decode_chunks [] us.

(** The number of digits [s] starts with. *)
Fixpoint digits_len (s : string) : nat :=
  match s with
  | String c r => if is_digit c then S (digits_len r) else O
  | EmptyString => O
  end.

(** [int(digits)]. *)
Definition N_of_digits (digits : string) : N :=
  match NilEmpty.uint_of_string digits with
  | Some d => N.of_uint d
  | None => 0%N
  end.

(** A match of [NUMBER_RE], an optional sign, [0] or a digit from 1 to
    9 and digits, an optional fraction and an optional exponent, at the
    start of [s]: an integer when there is neither a fraction nor an
    exponent, else a float. *)
Definition lex_number (s : string) : option (token * nat) :=
  let '(neg, s1) :=
    match s with
    | String c r => if Ascii.eqb c "-" then (true, r) else (false, s)
    | EmptyString => (false, s)
    end in
  match s1 with
  | EmptyString => None
  | String c _ =>
      if is_digit c then
        let int_len := if Ascii.eqb c "0" then 1%nat else digits_len s1 in
        let s2 := Str.slice_from int_len s1 in
        let frac_len :=
          match s2 with
          | String c2 r2 =>
              if Ascii.eqb c2 "." then
                match digits_len r2 with
                | O => O
                | S d => S (S d)
                end
              else O
          | EmptyString => O
          end in
        let s3 := Str.slice_from frac_len s2 in
        let exp_len :=
          match s3 with
          | String c3 r3 =>
              if Ascii.eqb c3 "e" || Ascii.eqb c3 "E" then
                let '(sign_len, r4) :=
                  match r3 with
                  | String c4 r4 =>
                      if Ascii.eqb c4 "+" || Ascii.eqb c4 "-"
                      then (1%nat, r4) else (O, r3)
                  | EmptyString => (O, r3)
                  end in
                match digits_len r4 with
                | O => O
                | S d => S (sign_len + S d)
                end
              else O
          | EmptyString => O
          end in
        let sign_len := if neg then 1%nat else O in
        let total := (sign_len + int_len + frac_len + exp_len)%nat in
        match frac_len, exp_len with
        | O, O =>
            let n := Z.of_N (N_of_digits (String.substring 0 int_len s1)) in
            Some (TInt (if neg then - n else n), total)
        | _, _ => Some (TFloat (String.substring 0 total s), total)
        end
      else None
  end.

(** The token at the start of [s] and its length, in the order the
    scanner tries them. *)
Definition lex_at (s : string) : option (token * nat) :=
  match s with
  | EmptyString => None
  | String c r =>
      if Ascii.eqb c dquote then
        '(us, k) ← scan_string r;
        u ← text_of_units us;
        Some (TString u, S k)
      else if Ascii.eqb c "{" then Some (TLBrace, 1%nat)
      else if Ascii.eqb c "}" then Some (TRBrace, 1%nat)
      else if Ascii.eqb c "[" then Some (TLBracket, 1%nat)
      else if Ascii.eqb c "]" then Some (TRBracket, 1%nat)
      else if Ascii.eqb c ":" then Some (TColon, 1%nat)
      else if Ascii.eqb c "," then Some (TComma, 1%nat)
      else if String.prefix "null" s then Some (TNull, 4%nat)
      else if String.prefix "true" s then Some (TTrue, 4%nat)
      else if String.prefix "false" s then Some (TFalse, 5%nat)
      else
        match lex_number s with
        | Some t => Some t
        | None =>
            if String.prefix "NaN" s then Some (TFloat "NaN", 3%nat)
            else if String.prefix "Infinity" s
            then Some (TFloat "Infinity", 8%nat)
            else if String.prefix "-Infinity" s
            then Some (TFloat "-Infinity", 9%nat)
            else None
        end
  end.

(** The tokens of a text; whitespace between them is skipped.  [skip]
    counts the characters left of the token just read. *)
Fixpoint lex (skip : nat) (s : string) : option (list token) :=
  match s with
  | EmptyString => Some []
  | String c r =>
      match skip with
      | S k => lex k r
      | O =>
          if is_ws c then lex O r
          else
            '(t, n) ← lex_at s;
            ts ← lex (Nat.pred n) r;
            Some (t :: ts)
      end
  end.

(** [d[k] = v] on the items of a dictionary. *)
Fixpoint dict_set (k : ustring) (v : pyval) (items : list (ustring * pyval))
  : list (ustring * pyval) :=
  match items with
  | [] => [(k, v)]
  | (k', v') :: items' =>
      if ustring_eqb k k' then (k, v) :: items'
      else (k', v') :: dict_set k v items'
  end.

(** [dict(pairs)]. *)
Definition dict_of_pairs (pairs : list (ustring * pyval))
  : list (ustring * pyval) :=
  fold_left (fun d kv => dict_set kv.1 kv.2 d) pairs [].

(** The decoder reads the tokens from left to right.  Here its call
    stack is a list of frames, one per array or object that is open,
    with the items read so far. *)
Inductive frame : Type :=
| FArray (values : list pyval)
| FObject (pairs : list (ustring * pyval)) (key : option ustring).

(** What may come next. *)
Inductive expect : Type :=
| EValue          (* a value *)
| EValueOrClose   (* after [: a value or ] *)
| EKeyOrClose     (* after {: a key or } *)
| EKey            (* after , in an object: a key *)
| EColon          (* after a key *)
| ECommaOrClose   (* after a value in an array or object *)
| EEnd (v : pyval). (* after the outermost value *)

Definition pstate : Type := list frame * expect.

(** A value is complete: it goes to the innermost open container, or
    it is the result. *)
Definition deliver (v : pyval) (stack : list frame) : option pstate :=
  match stack with
  | [] => Some ([], EEnd v)
  | FArray values :: st => Some (FArray (values ++ [v]) :: st, ECommaOrClose)
  | FObject pairs (Some k) :: st =>
      Some (FObject (pairs ++ [(k, v)]) None :: st, ECommaOrClose)
  | FObject _ None :: _ => None
  end.

Definition start_value (t : token) (stack : list frame) : option pstate :=
  match t with
  | TString u => deliver (PUnicode u) stack
  | TInt z => deliver (PInt z) stack
  | TFloat lit => deliver (PFloat lit) stack
  | TTrue => deliver (PBool true) stack
  | TFalse => deliver (PBool false) stack
  | TNull => deliver PNone stack
  | TLBracket => Some (FArray [] :: stack, EValueOrClose)
  | TLBrace => Some (FObject [] None :: stack, EKeyOrClose)
  | TRBrace | TRBracket | TColon | TComma => None
  end.

Definition close_array (stack : list frame) : option pstate :=
  match stack with
  | FArray values :: st => deliver (PList values) st
  | _ => None
  end.

Definition close_object (stack : list frame) : option pstate :=
  match stack with
  | FObject pairs None :: st => deliver (PDict (dict_of_pairs pairs)) st
  | _ => None
  end.

Definition set_key (k : ustring) (stack : list frame) : option pstate :=
  match stack with
  | FObject pairs None :: st => Some (FObject pairs (Some k) :: st, EColon)
  | _ => None
  end.

Definition step (s : pstate) (t : token) : option pstate :=
  let '(stack, e) := s in
  match e, t with
  | EValue, _ => start_value t stack
  | EValueOrClose, TRBracket => close_array stack
  | EValueOrClose, _ => start_value t stack
  | EKeyOrClose, TRBrace => close_object stack
  | EKeyOrClose, TString k => set_key k stack
  | EKey, TString k => set_key k stack
  | EColon, TColon => Some (stack, EValue)
  | ECommaOrClose, TComma =>
      match stack with
      | FArray _ :: _ => Some (stack, EValue)
      | FObject _ _ :: _ => Some (stack, EKey)
      | [] => None
      end
  | ECommaOrClose, TRBracket => close_array stack
  | ECommaOrClose, TRBrace => close_object stack
  | _, _ => None
  end.

Fixpoint run (s : pstate) (ts : list token) : option pstate :=
  match ts with
  | [] => Some s
  | t :: ts' => s' ← step s t; run s' ts'
  end.

(** The value a token sequence denotes, if it is one value. *)
Definition parse (ts : list token) : option pyval :=
  match run ([], EValue) ts with
  | Some ([], EEnd v) => Some v
  | _ => None
  end.

(** [json.loads(s)] where the recursion limit of the interpreter is
    out of reach: every failure is a [ValueError].  [loads_at] below
    has the limit. *)
Definition loads (s : string) : result pyval :=
  match lex O s with
  | Some ts =>
      match parse ts with
      | Some v => Ok v
      | None => Raise ValueError
      end
  | None => Raise ValueError
  end.

(** *** The recursion limit

    The scanner reads the text from left to right and calls itself
    for every array and object it enters; the encoder does the same
    for every list and dictionary.  Each call counts against the
    recursion limit of the interpreter, and the call that passes it
    raises a [RuntimeError].  Here [limit] is the number of levels of
    nesting that can still be entered when [loads] or [dumps] is
    called. *)

(** The tokens up to the first place where no token can be read, and
    whether the whole text was read. *)
Fixpoint lex_prefix (skip : nat) (s : string) : list token * bool :=
  match s with
  | EmptyString => ([], true)
  | String c r =>
      match skip with
      | S k => lex_prefix k r
      | O =>
          if is_ws c then lex_prefix O r
          else
            match lex_at s with
            | Some (t, n) =>
                let '(ts, complete) := lex_prefix (Nat.pred n) r in
                (t :: ts, complete)
            | None => ([], false)
            end
      end
  end.

(** One token: a token that cannot come next is a [ValueError], and
    entering an array or object beyond the limit a [RuntimeError]. *)
Definition step_within (limit : nat) (s : pstate) (t : token)
  : result pstate :=
  match step s t with
  | Some s' =>
      if (limit <? length s'.1)%nat then Raise RuntimeError else Ok s'
  | None => Raise ValueError
  end.

Fixpoint run_within (limit : nat) (s : pstate) (ts : list token)
  : result pstate :=
  match ts with
  | [] => Ok s
  | t :: ts' => s' ← step_within limit s t; run_within limit s' ts'
  end.

(** [json.loads(s)] with [limit] levels of nesting left.  What is
    wrong first in the text decides the exception. *)
Definition loads_at (limit : nat) (s : string) : result pyval :=
  let '(ts, complete) := lex_prefix O s in
  s' ← run_within limit ([], EValue) ts;
  match complete, s' with
  | true, ([], EEnd v) => Ok v
  | _, _ => Raise ValueError
  end.

Section DumpsAt.

Variable float_repr : string -> string.
Variable sort_keys : bool.
Variable indent : option nat.
Variable limit : nat.

(** [_iterencode] with [limit] levels of nesting left: a list or
    dictionary at a level beyond the limit is a [RuntimeError] when
    the encoder comes to it. *)
Fixpoint encode_within (level : nat) (o : pyval) : result string :=
  match o with
  | PList l =>
      if (limit <? S level)%nat then Raise RuntimeError
      else
        parts ← sequence (map (encode_within (S level)) l);
        Ok (wrap indent "[" "]" level parts)
  | PDict items =>
      if (limit <? S level)%nat then Raise RuntimeError
      else
        let encoded :=
          map (fun kv => (kv.1, encode_within (S level) kv.2)) items in
        let ordered := if sort_keys then sort_by_key encoded else encoded in
        parts ← sequence (map (fun kr => member kr.1 kr.2) ordered);
        Ok (wrap indent "{" "}" level parts)
  | _ => encode float_repr sort_keys indent level o
  end.

(** [json.dumps(o, sort_keys=..., indent=...)] with [limit] levels of
    nesting left. *)
Definition dumps_at (o : pyval) : result string := encode_within 0 o.

End DumpsAt.

End Json.

(** ** HttpExchange and its manager *)

Module Exchange.

(** What the manager reads of a request: [req.META.items()] and
    [req.content_type]. *)
Record http_request : Type := {
  META : list (string * pyval);
  content_type : string
}.

(** What the manager reads of a response: [resp.status_code],
    [resp.items()], [resp.data] where the attribute exists, and
    [resp.content]. *)
Record http_response : Type := {
  resp_status_code : Z;
  resp_items : list (string * string);
  data : option pyval;
  content : string
}.

(** A content type: [app_label] and [model]. *)
Definition ctype : Type := string * string.

Definition INTEGRATION_CT : ctype := ("integrations", "integration").

(** The object an exchange is related to: an [Integration], or an
    instance of another model, with its primary key. *)
Inductive related : Type :=
| RelIntegration (pk : Z)
| RelOther (app_label model_name : string) (pk : Z).

Definition related_ctype (r : related) : ctype :=
  match r with
  | RelIntegration _ => INTEGRATION_CT
  | RelOther app_label model_name _ => (app_label, model_name)
  end.

Definition related_pk (r : related) : Z :=
  match r with
  | RelIntegration pk => pk
  | RelOther _ _ pk => pk
  end.

(** A row of the [HttpExchange] table. *)
Record HttpExchange : Type := {
  id : N;
  content_type_id : ctype;
  object_id : Z;
  date : Z;
  request_headers : gmap string string;
  request_body : string;
  response_headers : gmap string string;
  response_body : string;
  status_code : Z
}.

(** The table, in the order the rows were inserted. *)
Abbreviation table := (list HttpExchange).

(** *** Request headers *)

Definition REQ_FILTER_RULES : list (list Re.item) :=
  [Re.compile "^X-Forwarded-.*$"; Re.compile "^X-Real-Ip$"].

(** [key[5:].title().replace('_', '-')]. *)
Definition header_name (key : string) : string :=
  Str.replace "_" "-" (Str.title (Str.slice_from 5 key)).

(** [dict(pairs)]: a later pair replaces an earlier one of the same
    key. *)
Definition dict_of (pairs : list (string * string)) : gmap string string :=
  fold_left (fun d kv => <[kv.1 := kv.2]> d) pairs ∅.

(** [d.keys()], a list. *)
Definition keys (d : gmap string string) : list string :=
  (map_to_list d).*1.

(** The inner loop: [for key in request_headers.keys(): if
    filter_rule.match(key): del request_headers[key]]. *)
Definition remove_matching (d : gmap string string) (rule : list Re.item)
  : gmap string string :=
  fold_left (fun d' key => if Re.re_match rule key then delete key d' else d')
            (keys d) d.

Section Manager.

(** [str(o)]. *)
Variable py_str : pyval -> string.
(** [repr] of the float a literal denotes. *)
Variable float_repr : string -> string.
(** [normalize_request_payload] of [.utils]. *)
Variable normalize_request_payload : http_request -> pyval.

(** The statements of [from_exchange] that build [request_headers]. *)
Definition build_request_headers (req : http_request) : gmap string string :=
  let request_headers :=
    dict_of (map (fun kv => (header_name kv.1, py_str kv.2))
               (List.filter (fun kv => Str.startswith "HTTP_" kv.1)
                  (META req))) in
  let request_headers :=
    <["Content-Type" := content_type req]> request_headers in
  fold_left remove_matching REQ_FILTER_RULES request_headers.

(** [try: body = json.dumps(payload, sort_keys=True) except TypeError:
    body = str(payload)]. *)
Definition serialize (payload : pyval) : result string :=
  match Json.dumps float_repr true None payload with
  | Ok body => Ok body
  | Raise TypeError => Ok (py_str payload)
  | Raise e => Raise e
  end.

(** *** The table operations *)

(** [self.create] with the fields: the primary key is unique. *)
Definition create (obj : HttpExchange) (t : table) : result table :=
  if existsb (fun e => (id e =? id obj)%N) t then Raise IntegrityError
  else Ok (t ++ [obj])%list.

(** [exchange.delete()]: the row of that primary key goes. *)
Definition delete (exchange : HttpExchange) (t : table) : table :=
  filter (fun e => id e <> id exchange) t.

Fixpoint insert_by_date (e : HttpExchange) (l : list HttpExchange)
  : list HttpExchange :=
  match l with
  | [] => [e]
  | e' :: l' =>
      if date e' <=? date e then e :: l
      else e' :: insert_by_date e l'
  end.

(** [Meta.ordering = ['-date']]: newest first.  Rows of the same date
    stay in table order here; a database may return them in any
    order. *)
Definition order_by_date_desc (l : list HttpExchange) : list HttpExchange :=
  fold_right insert_by_date [] l.

(** The rows of an owner: [content_type] and [object_id] are its. *)
Definition owned_by (c : ctype) (pk : Z) (e : HttpExchange) : Prop :=
  content_type_id e = c /\ object_id e = pk.

#[global] Instance owned_by_dec c pk e : Decision (owned_by c pk e).
Proof. unfold owned_by. apply _. Defined.

(** The queryset of [delete_limit], in the model's default order. *)
Definition related_queryset (related_object : related) (t : table)
  : list HttpExchange :=
  match related_object with
  | RelIntegration pk =>
      (* self.filter(integrations=related_object) *)
      order_by_date_desc (filter (owned_by INTEGRATION_CT pk) t)
  | RelOther app_label model_name pk =>
      (* self.filter(content_type=ContentType.objects.get(...),
                     object_id=related_object.pk) *)
      order_by_date_desc (filter (owned_by (app_label, model_name) pk) t)
  end.

(** [HttpExchangeManager.delete_limit]:
    [for exchange in queryset[limit:]: exchange.delete()]. *)
Definition delete_limit (related_object : related) (limit : nat) (t : table)
  : table :=
  fold_left (fun t' exchange => delete exchange t')
            (drop limit (related_queryset related_object t)) t.

(** *** from_exchange *)

(** The row [from_exchange] builds; [uuid] is what [uuid.uuid4] returns
    and [now] what the clock shows when the row is created. *)
Definition build (uuid : N) (now : Z) (req : http_request)
    (resp : http_response) (related_object : related) (payload : pyval)
  : result HttpExchange :=
  let request_payload :=
    match payload with
    | PNone => normalize_request_payload req
    | _ => payload
    end in
  request_body ← serialize request_payload;
  let request_headers := build_request_headers req in
  let response_payload :=
    match data resp with
    | Some d => d
    | None => PStr (content resp)
    end in
  response_body ← serialize response_payload;
  let response_headers := dict_of (resp_items resp) in
  Ok {| id := uuid;
        content_type_id := related_ctype related_object;
        object_id := related_pk related_object;
        date := now;
        request_headers := request_headers;
        request_body := request_body;
        response_headers := response_headers;
        response_body := response_body;
        status_code := resp_status_code resp |}.

(** [HttpExchangeManager.from_exchange]: the new row and the table
    after the call.  When it raises the table is as it was before. *)
Definition from_exchange (uuid : N) (now : Z) (req : http_request)
    (resp : http_response) (related_object : related) (payload : pyval)
    (t : table) : result (HttpExchange * table) :=
  obj ← build uuid now req resp related_object payload;
  t1 ← create obj t;
  Ok (obj, delete_limit related_object 10 t1).

(** One call of [from_exchange] with what it reads from outside. *)
Record call : Type := {
  call_uuid : N;
  call_now : Z;
  call_req : http_request;
  call_resp : http_response;
  call_related : related;
  call_payload : pyval
}.

(** A sequence of calls: the rows created, oldest first, and the
    table after the last call. *)
Fixpoint record_all (calls : list call) (t : table)
  : result (list HttpExchange * table) :=
  match calls with
  | [] => Ok ([], t)
  | c :: calls' =>
      '(obj, t1) ← from_exchange (call_uuid c) (call_now c) (call_req c)
                     (call_resp c) (call_related c) (call_payload c) t;
      '(objs, t2) ← record_all calls' t1;
      Ok (obj :: objs, t2)
  end.

(** *** formatted_json *)

(** [pygments.highlight(code, JsonLexer(), HtmlFormatter())]. *)
Variable highlight : string -> string.

(** [HttpExchange.formatted_json] on the value of the field, where
    the recursion limit of the interpreter is out of reach. *)
Definition formatted_json (field_value : string) : result string :=
  let value := if String.eqb field_value "" then "" else field_value in
  match
    o ← Json.loads value;
    json_value ← Json.dumps float_repr true (Some 2%nat) o;
    Ok (highlight json_value)
  with
  | Ok html => Ok html
  | Raise ValueError | Raise TypeError => Ok value
  | Raise e => Raise e
  end.

(** [HttpExchange.formatted_json] on the value of the field, with the
    levels of nesting that [json.loads] and [json.dumps] can enter
    when it calls them.  The handler catches [ValueError] and
    [TypeError]; any other exception leaves the method. *)
Definition formatted_json_at (scan_limit encode_limit : nat)
    (field_value : string) : result string :=
  let value := if String.eqb field_value "" then "" else field_value in
  match
    o ← Json.loads_at scan_limit value;
    json_value ← Json.dumps_at float_repr true (Some 2%nat) encode_limit o;
    Ok (highlight json_value)
  with
  | Ok html => Ok html
  | Raise ValueError | Raise TypeError => Ok value
  | Raise e => Raise e
  end.


Definition formatted_response_body (self : HttpExchange) : result string :=
  formatted_json (response_body self).

End Manager.

End Exchange.

(** ** [transaction.atomic] around [from_exchange]

    The statements of [from_exchange] run on one database connection.
    Inside an atomic block they change the connection's own view of
    the table; the view becomes the committed table when the block is
    left, and is dropped when an exception leaves it.  Another
    connection reads the committed table. *)

Module Transaction.
Import Exchange.

Record db : Type := {
  committed : table;
  working : option table
}.

(** What a reader on another connection sees. *)
Definition visible (d : db) : table := committed d.

(** The points of control of [from_exchange] once the row is built. *)
Inductive pc : Type :=
| Enter
| Created
| Deleting (rest : list HttpExchange)
| Returned
| Raised (e : exn).

Section Steps.

Variable obj : HttpExchange.
Variable related_object : related.

(** One step of the call inside the atomic block.  A statement may
    fail in the database, which leaves the block by an exception. *)
Inductive step : db * pc -> db * pc -> Prop :=
| step_create d t1 :
    create obj (committed d) = Ok t1 ->
    step (d, Enter)
         ({| committed := committed d; working := Some t1 |}, Created)
| step_create_raise d e :
    create obj (committed d) = Raise e ->
    step (d, Enter) ({| committed := committed d; working := None |},
                     Raised e)
| step_select d t :
    working d = Some t ->
    step (d, Created)
         (d, Deleting (drop 10 (related_queryset related_object t)))
| step_delete d t exchange rest :
    working d = Some t ->
    step (d, Deleting (exchange :: rest))
         ({| committed := committed d; working := Some (delete exchange t) |},
          Deleting rest)
| step_commit d t :
    working d = Some t ->
    step (d, Deleting [])
         ({| committed := t; working := None |}, Returned)
| step_fail_created d e :
    step (d, Created)
         ({| committed := committed d; working := None |}, Raised e)
| step_fail_deleting d rest e :
    step (d, Deleting rest)
         ({| committed := committed d; working := None |}, Raised e).

(** The same statements in autocommit mode, without the decorator:
    each one changes the committed table at once. *)
Inductive step_autocommit : db * pc -> db * pc -> Prop :=
| auto_create d t1 :
    create obj (committed d) = Ok t1 ->
    step_autocommit (d, Enter)
      ({| committed := t1; working := None |}, Created)
| auto_select d :
    step_autocommit (d, Created)
      (d, Deleting (drop 10 (related_queryset related_object (committed d))))
| auto_delete d exchange rest :
    step_autocommit (d, Deleting (exchange :: rest))
      ({| committed := delete exchange (committed d); working := None |},
       Deleting rest)
| auto_return d :
    step_autocommit (d, Deleting []) (d, Returned).

End Steps.

(** The states a call reaches from a committed table. *)
Inductive reachable {S : Type} (R : S -> S -> Prop) (s0 : S) : S -> Prop :=
| reach_start : reachable R s0 s0
| reach_step s s' : reachable R s0 s -> R s s' -> reachable R s0 s'.

End Transaction.

(** ** Example data *)

Module Examples.
Import Exchange.

(** [str] on byte strings, which it returns as they are. *)
Definition str_of (v : pyval) : string :=
  match v with
  | PStr s => s
  | _ => EmptyString
  end.

Definition same_literal (lit : string) : string := lit.

Definition no_payload (req : http_request) : pyval := PDict [].

Definition no_highlight (code : string) : string := code.

Definition webhook_request : http_request :=
  {| META := [("HTTP_X_FORWARDED_FOR", PStr "10.0.0.1");
              ("REMOTE_ADDR", PStr "127.0.0.1");
              ("HTTP_X_GITHUB_EVENT", PStr "push");
              ("HTTP_X_REAL_IP", PStr "10.0.0.2")];
     content_type := "application/json" |}.

Definition underscore_request : http_request :=
  {| META := [("HTTP_CONTENT_TYPE", PStr "text/plain")];
     content_type := "application/json" |}.

Definition ok_response : http_response :=
  {| resp_status_code := 200;
     resp_items := [("Content-Type", "application/json"); ("Allow", "POST")];
     data := Some (PDict [(utext "detail", PUnicode (utext "ok"))]);
     content := EmptyString |}.

Definition push_payload : pyval :=
  PDict [(utext "ref", PUnicode (utext "master"));
         (utext "forced", PBool false)].

Definition github_row (pd : pyval) : gmap string pyval :=
  {[ "integration_type" := PUnicode (utext Integrations.GITHUB_WEBHOOK);
     "provider_data" := pd ]}.

Definition bare_request : http_request :=
  {| META := []; content_type := EmptyString |}.

Definition bare_response : http_response :=
  {| resp_status_code := 204; resp_items := [];
     data := None; content := EmptyString |}.

(** A row of the integration 7 with nothing stored in it. *)
Definition bare_row (i : nat) : HttpExchange :=
  {| id := N.of_nat i;
     content_type_id := INTEGRATION_CT;
     object_id := 7;
     date := Z.of_nat i;
     request_headers := ∅;
     request_body := EmptyString;
     response_headers := ∅;
     response_body := EmptyString;
     status_code := 204 |}.


(** The text of the object with the key a and the value 1, and its
    rendering with an indent of two. *)
Definition a_one : string :=
  "{" ++ String Json.dquote "a" ++ String Json.dquote ":1}".

Definition a_one_indented : string :=
  "{" ++ Json.nl ++ "  " ++ String Json.dquote "a" ++ String Json.dquote ": 1"
  ++ Json.nl ++ "}".

(** A byte string that is not UTF-8. *)
Definition not_utf8 : string := String (ascii_of_N 255) EmptyString.

(** Ten rows of the integration 7, dated 1 to 10. *)
Definition ten_rows : table := bare_row <$> seq 1 10.

(** A call for the integration 7 at the time [now]. *)
Definition bare_call (uuid : N) (now : Z) : call :=
  {| call_uuid := uuid;
     call_now := now;
     call_req := bare_request;
     call_resp := bare_response;
     call_related := RelIntegration 7;
     call_payload := PInt 0 |}.

(** Twelve calls for one integration on a clock that runs backwards. *)
Definition backward_calls : list call :=
  map (fun i => bare_call (N.of_nat i) (100 - Z.of_nat i)) (seq 1 12).

(** A text that opens [n] arrays and closes none. *)
Fixpoint brackets (n : nat) : string :=
  match n with
  | O => EmptyString
  | S k => String "[" (brackets k)
  end.


End Examples.

(** ** Notions the properties are stated with *)

Module Spec.

(** The row's [integration_type] is the constant [t]. *)
Definition row_type_is (row : gmap string pyval) (t : string) : Prop :=
  exists v, row !! "integration_type" = Some v /\ Integrations.str_eq t v = true.

(** A dictionary has the key. *)
Definition has_key (k : string) (items : list (ustring * pyval)) : bool :=
  existsb (fun kv => ustring_eqb (utext k) kv.1) items.

(** The values [k in value] raises a [TypeError] on. *)
Definition not_a_container (v : pyval) : bool :=
  match v with
  | PNone | PBool _ | PInt _ | PFloat _ | PObject _ => true
  | PUnicode _ | PStr _ | PList _ | PDict _ => false
  end.

(** The text has no newline character. *)
Fixpoint no_newline (s : string) : bool :=
  match s with
  | EmptyString => true
  | String c s' => negb (Ascii.eqb c Re.newline) && no_newline s'
  end.

(** The name is X-Forwarded- and anything, or X-Real-Ip, in any case
    of the letters. *)
Definition is_filtered_name (name : string) : bool :=
  String.prefix "x-forwarded-" (Str.lower name)
  || String.eqb (Str.lower name) "x-real-ip".

(** The name is matched by one of the filter rules. *)
Definition matches_filter_rule (name : string) : bool :=
  existsb (fun rule => Re.re_match rule name) Exchange.REQ_FILTER_RULES.

(** What is left of [s] after the characters of [p], compared without
    regard to case. *)
Fixpoint strip_ci (p s : string) : option string :=
  match p, s with
  | EmptyString, _ => Some s
  | String _ _, EmptyString => None
  | String a p', String c s' =>
      if Re.eq_ignore_case a c then strip_ci p' s' else None
  end.

(** The pattern items of a literal text. *)
Definition lits (p : string) : list Re.item :=
  map Re.Lit (list_ascii_of_string p).

(** The pairs [from_exchange] makes of the transport headers. *)
Definition collected (py_str : pyval -> string) (req : Exchange.http_request)
  : list (string * string) :=
  map (fun kv => (Exchange.header_name kv.1, py_str kv.2))
    (List.filter (fun kv => Str.startswith "HTTP_" kv.1) (Exchange.META req)).

(** An owner of exchanges: a content type and a primary key. *)
Definition owner : Type := Exchange.ctype * Z.

Definition related_key (r : Exchange.related) : owner :=
  (Exchange.related_ctype r, Exchange.related_pk r).

(** The rows of an owner among rows. *)
Definition owned (key : owner) (l : list Exchange.HttpExchange)
  : list Exchange.HttpExchange :=
  filter (Exchange.owned_by key.1 key.2) l.

(** The calls made for an owner. *)
Definition calls_for (key : owner) (calls : list Exchange.call)
  : list Exchange.call :=
  filter (fun c => related_key (Exchange.call_related c) = key) calls.




(** The database before a call: nothing is uncommitted. *)
Definition quiescent (t : Exchange.table) : Transaction.db :=
  {| Transaction.committed := t; Transaction.working := None |}.

(** What holds at each point of control of a call on the table [t0]. *)
Definition at_point (obj : Exchange.HttpExchange) (r : Exchange.related)
    (t0 : Exchange.table) (s : Transaction.db * Transaction.pc) : Prop :=
  let final := Exchange.delete_limit r 10 (t0 ++ [obj]) in
  match s.2 with
  | Transaction.Enter =>
      Transaction.committed s.1 = t0 /\ Transaction.working s.1 = None
  | Transaction.Created =>
      Transaction.committed s.1 = t0
      /\ Transaction.working s.1 = Some (t0 ++ [obj])%list
      /\ Exchange.create obj t0 = Ok (t0 ++ [obj])%list
  | Transaction.Deleting rest =>
      Transaction.committed s.1 = t0
      /\ Exchange.create obj t0 = Ok (t0 ++ [obj])%list
      /\ exists t, Transaction.working s.1 = Some t
           /\ fold_left (fun t' e => Exchange.delete e t') rest t = final
  | Transaction.Returned =>
      Transaction.committed s.1 = final
      /\ Transaction.working s.1 = None
      /\ Exchange.create obj t0 = Ok (t0 ++ [obj])%list
  | Transaction.Raised _ =>
      Transaction.committed s.1 = t0 /\ Transaction.working s.1 = None
  end.

(** The values [json.loads] returns: no byte string and no object
    without an encoding. *)
Fixpoint json_typed (v : pyval) : bool :=
  match v with
  | PStr _ | PObject _ => false
  | PList l => forallb json_typed l
  | PDict items => forallb (fun kv => json_typed kv.2) items
  | PNone | PBool _ | PInt _ | PFloat _ | PUnicode _ => true
  end.

Definition frame_typed (f : Json.frame) : bool :=
  match f with
  | Json.FArray values => forallb json_typed values
  | Json.FObject pairs _ => forallb (fun kv => json_typed kv.2) pairs
  end.

Definition pstate_typed (s : Json.pstate) : bool :=
  forallb frame_typed s.1
  && match s.2 with
     | Json.EEnd v => json_typed v
     | _ => true
     end.

(** A Unicode scalar value: a code point that is not a surrogate. *)
Definition scalar (c : N) : bool :=
  ((c <? 55296) || ((57344 <=? c) && (c <? 1114112)))%N.

Definition ascii_only (s : string) : bool :=
  forallb (fun c => (c <? 128)%N) (utext s).

(** The values with a JSON form that is read back as an equal value:
    None, booleans, integers, text of scalar values, ASCII byte
    strings, and lists and dictionaries of such values with text keys.
    Floats are left out: their form depends on floating point. *)
Fixpoint representable (v : pyval) : bool :=
  match v with
  | PNone | PBool _ | PInt _ => true
  | PUnicode u => forallb scalar u
  | PStr s => ascii_only s
  | PList l => forallb representable l
  | PDict items =>
      bool_decide (NoDup items.*1)
      && forallb (fun kv => forallb scalar kv.1 && representable kv.2) items
  | PFloat _ | PObject _ => false
  end.

(** The value [loads] returns for the text of a value: byte strings
    come back as text and the items of a dictionary in the order of
    their keys. *)
Fixpoint canon (v : pyval) : pyval :=
  match v with
  | PStr s => PUnicode (utext s)
  | PList l => PList (map canon l)
  | PDict items =>
      PDict (Json.sort_by_key (map (fun kv => (kv.1, canon kv.2)) items))
  | _ => v
  end.

(** Python's [==] between two values, for the cases without float
    arithmetic: lists are equal item by item, dictionaries when they
    have the same keys with equal values, in any order, and an ASCII
    byte string equals the text of the same characters. *)
Inductive deep_equal : pyval -> pyval -> Prop :=
| de_none : deep_equal PNone PNone
| de_bool b : deep_equal (PBool b) (PBool b)
| de_int z : deep_equal (PInt z) (PInt z)
| de_unicode u : deep_equal (PUnicode u) (PUnicode u)
| de_str s : ascii_only s = true -> deep_equal (PStr s) (PUnicode (utext s))
| de_list l l' : Forall2 deep_equal l l' -> deep_equal (PList l) (PList l')
| de_dict items reordered items' :
    NoDup items.*1 ->
    items ≡ₚ reordered ->
    Forall2 (fun kv kv' => kv.1 = kv'.1 /\ deep_equal kv.2 kv'.2)
      reordered items' ->
    deep_equal (PDict items) (PDict items').

(** The keys of every dictionary in the value are in order. *)
Fixpoint keys_sorted (v : pyval) : Prop :=
  match v with
  | PList l => fold_right (fun x acc => keys_sorted x /\ acc) True l
  | PDict items =>
      Sorted (fun a b => Json.ustring_leb a b = true) items.*1
      /\ fold_right (fun kv acc => keys_sorted kv.2 /\ acc) True items
  | _ => True
  end.

(** The text of a value as [dumps] writes it without an indent, the
    items of a dictionary in the order they have in the value. *)
Fixpoint render (v : pyval) : string :=
  match v with
  | PNone => "null"
  | PBool true => "true"
  | PBool false => "false"
  | PInt z => Json.str_of_Z z
  | PUnicode u => Json.encode_basestring_ascii u
  | PList l => Json.wrap None "[" "]" 0 (map render l)
  | PDict items =>
      Json.wrap None "{" "}" 0
        (map (fun kv => Json.encode_basestring_ascii kv.1 ++ ": " ++ render kv.2)
           items)
  | PFloat _ | PStr _ | PObject _ => EmptyString
  end.

(** Token sequences with a comma between them. *)
Fixpoint comma_separated (groups : list (list Json.token)) : list Json.token :=
  match groups with
  | [] => []
  | [g] => g
  | g :: rest => g ++ Json.TComma :: comma_separated rest
  end.

(** The tokens of the text of a value. *)
Fixpoint tokens (v : pyval) : list Json.token :=
  match v with
  | PNone => [Json.TNull]
  | PBool true => [Json.TTrue]
  | PBool false => [Json.TFalse]
  | PInt z => [Json.TInt z]
  | PUnicode u => [Json.TString u]
  | PList l =>
      Json.TLBracket :: comma_separated (map tokens l) ++ [Json.TRBracket]
  | PDict items =>
      Json.TLBrace
      :: comma_separated
           (map (fun kv => Json.TString kv.1 :: Json.TColon :: tokens kv.2)
              items)
      ++ [Json.TRBrace]
  | PFloat _ | PStr _ | PObject _ => []
  end.

(** The values [render] and [tokens] are meant for. *)
Fixpoint plain (v : pyval) : bool :=
  match v with
  | PNone | PBool _ | PInt _ => true
  | PUnicode u => forallb scalar u
  | PList l => forallb plain l
  | PDict items =>
      bool_decide (NoDup items.*1)
      && forallb (fun kv => forallb scalar kv.1 && plain kv.2) items
  | PFloat _ | PStr _ | PObject _ => false
  end.

(** What may follow a value in a text: nothing, a comma, or a closing
    bracket or brace. *)
Definition delimited (rest : string) : Prop :=
  match rest with
  | EmptyString => True
  | String c _ => c = ","%char \/ c = "]"%char \/ c = "}"%char
  end.

(** Tokens put before the tokens of the rest of a text. *)
Definition prepend (ts : list Json.token) (r : option (list Json.token))
  : option (list Json.token) :=
  match r with
  | Some ts' => Some (ts ++ ts')%list
  | None => None
  end.

(** The order of [Meta.ordering = ['-date']]: no row comes before a
    newer one. *)
Definition newest_first (a b : Exchange.HttpExchange) : Prop :=
  Exchange.date b <= Exchange.date a.

(** The text has the characters of the constant in a row. *)
Definition contains (k : string) (u : ustring) : Prop :=
  exists a c, u = (a ++ utext k ++ c)%list.

(** The order [sorted] puts the items of a dictionary in. *)
Definition key_leb {A} (a b : ustring * A) : Prop :=
  Json.ustring_leb a.1 b.1 = true.

(** The payloads [from_exchange] serializes: the explicit payload, or
    the normalized request when there is none; the data of the
    response, or its content. *)
Definition request_payload (normalize : Exchange.http_request -> pyval)
    (req : Exchange.http_request) (payload : pyval) : pyval :=
  match payload with
  | PNone => normalize req
  | _ => payload
  end.

Definition response_payload (resp : Exchange.http_response) : pyval :=
  match Exchange.data resp with
  | Some d => d
  | None => PStr (Exchange.content resp)
  end.

(** The characters [encode_basestring_ascii] writes by a short
    escape, and those it writes as they are. *)
Definition short_escaped (c : N) : bool :=
  ((c =? 34) || (c =? 92) || (c =? 10) || (c =? 13) || (c =? 9)
   || (c =? 12) || (c =? 8))%N.

Definition printable (c : N) : bool := ((32 <=? c) && (c <=? 126))%N.

(** What [scanstring] reads of the text of one character. *)
Definition units_of (c : N) : list Json.sunit :=
  if short_escaped c || printable c then [Json.UChar c]
  else if (c <? 65536)%N then [Json.UEsc c]
  else
    let n := (c - 65536)%N in
    [Json.UEsc (N.lor 55296 (N.land (N.shiftr n 10) 1023));
     Json.UEsc (N.lor 56320 (N.land n 1023))].

(** A character of a literal that decoding leaves as it is. *)
Definition ascii_unit (x : Json.sunit) : bool :=
  match x with
  | Json.UChar n => (n <? 128)%N
  | Json.UEsc _ => true
  end.

(** The text of a string literal after its opening quote. *)
Definition string_body (u : ustring) : string :=
  fold_right (fun c acc => Json.escape_char c ++ acc)
    (String Json.dquote EmptyString) u.

(** [P] holds of [count] numbers from [start] on. *)
Fixpoint all_from (P : N -> bool) (start : N) (count : nat) : bool :=
  match count with
  | O => true
  | S k => P start && all_from P (N.succ start) k
  end.

(** A text and the tokens it is read as, whatever follows it. *)
Definition reads_as (text : string) (ts : list Json.token) : Prop :=
  forall rest, delimited rest ->
    Json.lex 0 (text ++ rest) = prepend ts (Json.lex 0 rest).

End Spec.

(** * Properties *)

(** ** The status rule *)

Module StatusFacts.
Import Status.

(** X1. The division rule and the range of the 2xx codes select the
    same integers: [failed] is false exactly for the status codes from
    200 to 299, negative codes included in the rule. *)
Lemma failed_range (status_code : Z) :
  failed status_code = false <-> 200 <= status_code < 300.
Proof.
  unfold failed. rewrite negb_false_iff, Z.eqb_eq. split.
  - intros H.
    pose proof (Z.div_mod status_code 100 ltac:(lia)) as E.
    pose proof (Z.mod_pos_bound status_code 100 ltac:(lia)). lia.
  - intros H. symmetry. apply (Z.div_unique status_code 100 2 (status_code - 200)); lia.
Qed.

(** C5. [failed] is true exactly when the quotient of the status code
    by 100 is not 2: it is true for 404, 500, 150 and 399 and false for
    200, 204 and 299. *)
Theorem failed_quotient_rule (status_code : Z) :
  (failed status_code = true <-> status_code / 100 <> 2)
  /\ failed 404 = true /\ failed 500 = true
  /\ failed 150 = true /\ failed 399 = true
  /\ failed 200 = false /\ failed 204 = false /\ failed 299 = false.
Proof.
  split; [|repeat split; reflexivity].
  unfold failed. rewrite negb_true_iff, Z.eqb_neq. reflexivity.
Qed.

End StatusFacts.

(** ** Fetching an integration *)

Module IntegrationFacts.
Import Integrations Spec Examples.

Lemma copy_dict_lookup (l : list (string * pyval)) (f : gmap string pyval)
    (k : string) :
  NoDup l.*1 ->
  copy_dict l f !! k =
    match (list_to_map l : gmap string pyval) !! k with
    | Some v => Some v
    | None => f !! k
    end.
Proof.
  unfold copy_dict. revert f. induction l as [|[k' v'] l IH]; intros f Hnd.
  - reflexivity.
  - simpl in *. apply NoDup_cons in Hnd as [Hnotin Hnd].
    rewrite IH by exact Hnd.
    destruct (decide (k = k')) as [->|Hne].
    + rewrite lookup_insert_eq.
      rewrite (not_elem_of_list_to_map_1 (M := gmap string)) by exact Hnotin.
      rewrite lookup_insert_eq. reflexivity.
    + rewrite !lookup_insert_ne by congruence. reflexivity.
Qed.

(** The copy loop leaves every entry of the loaded row in the new
    instance. *)
Lemma copy_dict_keeps (row f : gmap string pyval) (k : string) (v : pyval) :
  row !! k = Some v -> copy_dict (map_to_list row) f !! k = Some v.
Proof.
  intros H. rewrite copy_dict_lookup by apply NoDup_fst_map_to_list.
  rewrite list_to_map_to_list, H. reflexivity.
Qed.

Lemma str_eq_constants (v : pyval) :
  str_eq GITHUB_WEBHOOK v = true -> str_eq BITBUCKET_WEBHOOK v = true -> False.
Proof.
  destruct v; simpl; try discriminate; unfold ustring_eqb;
    intros H1 H2; apply bool_decide_eq_true in H1, H2;
    rewrite <- H1 in H2; discriminate.
Qed.

(** The class [get] picks for a stored type. *)
Lemma class_map_get_spec (v : pyval) :
  class_map_get class_map v =
    if str_eq BITBUCKET_WEBHOOK v then Some BitbucketWebhook
    else if str_eq GITHUB_WEBHOOK v then Some GitHubWebhook
    else None.
Proof.
  unfold class_map. simpl.
  destruct (str_eq BITBUCKET_WEBHOOK v); reflexivity.
Qed.

Section GetFacts.

Variable fresh_dict : model_class -> gmap string pyval.

(** [get] on a single matching row returns, whatever the row. *)
Lemma get_single (row : gmap string pyval) :
  exists o, get fresh_dict [row] = Ok o
    /\ (forall k v, row !! k = Some v -> dict o !! k = Some v)
    /\ (row_type_is row GITHUB_WEBHOOK -> cls o = GitHubWebhook)
    /\ (row_type_is row BITBUCKET_WEBHOOK -> cls o = BitbucketWebhook)
    /\ (~ row_type_is row GITHUB_WEBHOOK ->
        ~ row_type_is row BITBUCKET_WEBHOOK ->
        o = Instance Integration row).
Proof.
  unfold get, queryset_get, getattr, mbind, result_bind.
  cbn [dict].
  destruct (row !! "integration_type") as [t|] eqn:Ht.
  - rewrite class_map_get_spec.
    destruct (str_eq BITBUCKET_WEBHOOK t) eqn:Hb;
      [|destruct (str_eq GITHUB_WEBHOOK t) eqn:Hg].
    + eexists; split; [reflexivity|]. simpl. repeat split.
      * intros k v. apply copy_dict_keeps.
      * intros (v & Hv & Hs). rewrite Ht in Hv. injection Hv as <-.
        exfalso. eapply str_eq_constants; eassumption.
      * intros Hng Hnb. exfalso. apply Hnb. exists t. auto.
    + eexists; split; [reflexivity|]. simpl. repeat split.
      * intros k v. apply copy_dict_keeps.
      * intros (v & Hv & Hs). rewrite Ht in Hv. injection Hv as <-.
        congruence.
      * intros Hng Hnb. exfalso. apply Hng. exists t. auto.
    + eexists; split; [reflexivity|]. simpl. repeat split.
      * auto.
      * intros (v & Hv & Hs). rewrite Ht in Hv. injection Hv as <-.
        congruence.
      * intros (v & Hv & Hs). rewrite Ht in Hv. injection Hv as <-.
        congruence.
  - eexists; split; [reflexivity|]. simpl. repeat split.
    + auto.
    + intros (v & Hv & _). congruence.
    + intros (v & Hv & _). congruence.
Qed.

End GetFacts.

Lemma can_sync_body_value (o : instance) (pd : pyval) :
  dict o !! "provider_data" = Some pd ->
  exists b, can_sync_body o = Ok b
    /\ (forall items, pd = PDict items ->
        b = has_key "id" items && has_key "url" items)
    /\ (not_a_container pd = true -> b = false).
Proof.
  intros H. unfold can_sync_body, getattr. rewrite H.
  unfold all_in, mbind, result_bind.
  destruct pd as [| | | |u|s|l|items|]; cbn [py_in not_a_container];
    try (exists false; split; [reflexivity|];
         split; [intros ? [=]|reflexivity]).
  - (* unicode *)
    destruct (is_infix (utext "id") u), (is_infix (utext "url") u); eexists;
      (split; [reflexivity|]; split; [intros ? [=]|intros [=]]).
  - (* str *)
    destruct (is_infix (utext "id") (utext s)),
      (is_infix (utext "url") (utext s)); eexists;
      (split; [reflexivity|]; split; [intros ? [=]|intros [=]]).
  - (* list *)
    destruct (existsb (str_eq "id") l), (existsb (str_eq "url") l); eexists;
      (split; [reflexivity|]; split; [intros ? [=]|intros [=]]).
  - (* dict *)
    destruct (existsb (fun kv => ustring_eqb (utext "id") kv.1) items) eqn:E1,
      (existsb (fun kv => ustring_eqb (utext "url") kv.1) items) eqn:E2;
      eexists; (split; [reflexivity|]; split; [intros ? [= <-]|intros [=]]);
      unfold has_key; rewrite E1, ?E2; reflexivity.
Qed.

(** C1, as the code has it.  [get] on the one row a query matches
    returns an instance that has every entry of the row.  When the
    row's type is that of the GitHub or of the Bitbucket webhook, the
    instance has [can_sync], which returns and never raises: on a
    dictionary it says whether both keys id and url are there, so it is
    false on the empty one, and it is false on a value the membership
    test raises on (None, a boolean, a number).  For any other type the
    instance is the generic one, the row as it was loaded, and has no
    [can_sync]. *)
Theorem fetch_variant (fresh_dict : model_class -> gmap string pyval)
    (row : gmap string pyval) (pd : pyval)
    (Hpd : row !! "provider_data" = Some pd) :
  exists o, get fresh_dict [row] = Ok o
    /\ (forall k v, row !! k = Some v -> dict o !! k = Some v)
    /\ (row_type_is row GITHUB_WEBHOOK \/ row_type_is row BITBUCKET_WEBHOOK ->
        exists b, can_sync o = Some (Ok b)
          /\ (forall items, pd = PDict items ->
              b = has_key "id" items && has_key "url" items)
          /\ (pd = PDict [] -> b = false)
          /\ (not_a_container pd = true -> b = false))
    /\ (~ row_type_is row GITHUB_WEBHOOK ->
        ~ row_type_is row BITBUCKET_WEBHOOK ->
        o = Instance Integration row /\ can_sync o = None).
Proof.
  destruct (get_single fresh_dict row) as (o & Hget & Hkeep & Hg & Hb & Hn).
  exists o. split; [exact Hget|]. split; [exact Hkeep|]. split.
  - intros Hty.
    destruct (can_sync_body_value o pd (Hkeep _ _ Hpd)) as (b & Hb1 & Hb2 & Hb3).
    exists b. repeat split; auto.
    + unfold can_sync. destruct Hty as [Hty|Hty].
      * rewrite (Hg Hty). congruence.
      * rewrite (Hb Hty). congruence.
    + intros ->. rewrite (Hb2 [] eq_refl). reflexivity.
  - intros Hng Hnb. rewrite (Hn Hng Hnb). split; reflexivity.
Qed.

Lemma fetch_variant_witness :
  let pd := PDict [(utext "id", PUnicode (utext "1"));
                   (utext "url", PUnicode (utext "http://x"))] in
  github_row pd !! "provider_data" = Some pd
  /\ exists o, get (fun _ => ∅) [github_row pd] = Ok o
       /\ can_sync o = Some (Ok true).
Proof.
  intros pd. split; [reflexivity|].
  destruct (fetch_variant (fun _ => ∅) (github_row pd) pd eq_refl)
    as (o & Hget & _ & Hsync & _).
  exists o. split; [exact Hget|].
  destruct Hsync as (b & Hb & Hitems & _).
  - left. eexists. split; reflexivity.
  - rewrite Hb, (Hitems _ eq_refl). reflexivity.
Defined.

(** C1 as stated fails where the provider data is not a mapping but
    the membership test succeeds on it: for the list of the two texts
    id and url, [can_sync] is true. *)
Lemma can_sync_list_counterexample :
  let pd := PList [PUnicode (utext "id"); PUnicode (utext "url")] in
  exists o, get (fun _ => ∅) [github_row pd] = Ok o
    /\ can_sync o = Some (Ok true).
Proof.
  eexists. split; reflexivity.
Qed.

Lemma classic_type (row : gmap string pyval) :
  (row_type_is row GITHUB_WEBHOOK \/ row_type_is row BITBUCKET_WEBHOOK)
  \/ (~ row_type_is row GITHUB_WEBHOOK /\ ~ row_type_is row BITBUCKET_WEBHOOK).
Proof.
  unfold row_type_is.
  destruct (row !! "integration_type") as [t|].
  - destruct (str_eq GITHUB_WEBHOOK t) eqn:Hg; [left; left; eauto|].
    destruct (str_eq BITBUCKET_WEBHOOK t) eqn:Hb; [left; right; eauto|].
    right. split; intros (v & [= <-] & Hs); congruence.
  - right. split; intros (v & [=] & _).
Qed.

(** C10. The instance [get] returns has [has_sync] true exactly when
    the row's type is that of the GitHub or of the Bitbucket webhook;
    for the GitLab and the generic API webhook it is false. *)
Theorem fetch_has_sync (fresh_dict : model_class -> gmap string pyval)
    (row : gmap string pyval) :
  exists o, get fresh_dict [row] = Ok o
    /\ (has_sync (cls o) = true <->
        row_type_is row GITHUB_WEBHOOK \/ row_type_is row BITBUCKET_WEBHOOK)
    /\ (row_type_is row GITLAB_WEBHOOK -> has_sync (cls o) = false)
    /\ (row_type_is row API_WEBHOOK -> has_sync (cls o) = false).
Proof.
  destruct (get_single fresh_dict row) as (o & Hget & _ & Hg & Hb & Hn).
  assert (Hiff : has_sync (cls o) = true <->
            row_type_is row GITHUB_WEBHOOK \/ row_type_is row BITBUCKET_WEBHOOK).
  { split.
    - intros Hs.
      destruct (classic_type row) as [[Hty|Hty]|[Hng Hnb]]; auto.
      rewrite (Hn Hng Hnb) in Hs. discriminate.
    - intros [Hty|Hty]; [rewrite (Hg Hty)|rewrite (Hb Hty)]; reflexivity. }
  exists o. split; [exact Hget|]. split; [exact Hiff|].
  split; intros (v & Hv & Hs);
    (destruct (has_sync (cls o)) eqn:E; [|reflexivity]);
    exfalso; destruct (proj1 Hiff eq_refl) as [(v' & Hv' & Hs')|(v' & Hv' & Hs')];
    rewrite Hv in Hv'; injection Hv' as <-;
    destruct v; simpl in Hs, Hs'; try discriminate;
    unfold ustring_eqb in *;
    apply bool_decide_eq_true in Hs, Hs'; rewrite <- Hs in Hs'; discriminate.
Qed.

End IntegrationFacts.

(** ** Header names *)

Module StrFacts.
Import Str.

Lemma to_upper_not_underscore (c : ascii) :
  is_lower c = true -> Ascii.eqb (to_upper c) "_" = false.
Proof.
  destruct c as [[] [] [] [] [] [] [] []]; vm_compute; congruence.
Qed.

Lemma to_lower_not_underscore (c : ascii) :
  is_upper c = true -> Ascii.eqb (to_lower c) "_" = false.
Proof.
  destruct c as [[] [] [] [] [] [] [] []]; vm_compute; congruence.
Qed.

Lemma underscore_uncased :
  is_lower "_" = false /\ is_upper "_" = false.
Proof. split; reflexivity. Qed.

Lemma join_cons_char (sep : string) (c : ascii) (w : string) (ws : list string) :
  join sep (String c w :: ws) = String c (join sep (w :: ws)).
Proof. destruct ws; reflexivity. Qed.

Lemma split_nonempty (sep : ascii) (s : string) : split sep s <> [].
Proof.
  destruct s as [|c s]; simpl; [discriminate|].
  destruct (Ascii.eqb c sep); [discriminate|].
  destruct (split sep s); discriminate.
Qed.

(** Title-casing the whole name and putting hyphens for underscores
    is title-casing each underscore-separated segment and joining the
    segments with hyphens. *)
Lemma title_replace_segments (b : bool) (s : string) :
  replace "_" "-" (title_from b s) =
    match split "_" s with
    | w :: ws => join "-" (title_from b w :: map title ws)
    | [] => EmptyString
    end.
Proof.
  revert b. induction s as [|c s IH]; intros b; [reflexivity|].
  cbn [split]. destruct (Ascii.eqb c "_") eqn:Ec.
  - apply Ascii.eqb_eq in Ec. subst c.
    cbn [title_from]. destruct underscore_uncased as [-> ->].
    cbn [replace]. rewrite Ascii.eqb_refl, IH.
    pose proof (split_nonempty "_" s) as Hne.
    destruct (split "_" s) as [|w ws]; [congruence|]. reflexivity.
  - pose proof (split_nonempty "_" s) as Hne.
    specialize (IH).
    destruct (split "_" s) as [|w ws] eqn:Es; [congruence|].
    cbn [title_from].
    destruct (is_lower c) eqn:El; [|destruct (is_upper c) eqn:Eu].
    + cbn [replace map]. rewrite IH, join_cons_char. f_equal.
      destruct b; [rewrite Ec; reflexivity|].
      rewrite to_upper_not_underscore by exact El. reflexivity.
    + cbn [replace map]. rewrite IH, join_cons_char. f_equal.
      destruct b; [|rewrite Ec; reflexivity].
      rewrite to_lower_not_underscore by exact Eu. reflexivity.
    + cbn [replace map]. rewrite IH, join_cons_char, Ec. reflexivity.
Qed.

End StrFacts.

(** ** The filter rules *)

Module ReFacts.
Import Re Spec.

Lemma match_lits (a : ascii) (p : string) (rest : list item) (b : bool)
    (s : string) :
  match_here (lits (String a p) ++ rest) b s =
    match strip_ci (String a p) s with
    | Some s' => match_here rest false s'
    | None => false
    end.
Proof.
  revert a b s. induction p as [|a' p IH]; intros a b s.
  - destruct s as [|c s]; [reflexivity|]. simpl.
    destruct (eq_ignore_case a c); reflexivity.
  - destruct s as [|c s]; [reflexivity|].
    change (match_here (lits (String a (String a' p)) ++ rest) b (String c s))
      with (eq_ignore_case a c
            && match_here (lits (String a' p) ++ rest) false s).
    rewrite IH. cbn [strip_ci].
    destruct (eq_ignore_case a c); reflexivity.
Qed.

Lemma strip_ci_no_newline (p s s' : string) :
  strip_ci p s = Some s' -> no_newline s = true -> no_newline s' = true.
Proof.
  revert s. induction p as [|a p IH]; intros s H Hn.
  - injection H as <-. exact Hn.
  - destruct s as [|c s]; [discriminate|]. simpl in H.
    destruct (eq_ignore_case a c); [|discriminate].
    simpl in Hn. apply andb_true_iff in Hn as [_ Hn]. eauto.
Qed.

Lemma prefix_lower_strip (p s : string) :
  String.prefix (Str.lower p) (Str.lower s) =
    match strip_ci p s with Some _ => true | None => false end.
Proof.
  revert s. induction p as [|a p IH]; intros s; [destruct s; reflexivity|].
  destruct s as [|c s]; [reflexivity|].
  cbn [Str.lower String.prefix strip_ci]. unfold eq_ignore_case.
  destruct (ascii_dec (Str.to_lower a) (Str.to_lower c)) as [E|E].
  - rewrite E, Ascii.eqb_refl. apply IH.
  - apply Ascii.eqb_neq in E. rewrite E. reflexivity.
Qed.

Lemma eqb_lower_strip (p s : string) :
  String.eqb (Str.lower s) (Str.lower p) =
    match strip_ci p s with
    | Some EmptyString => true
    | _ => false
    end.
Proof.
  revert s. induction p as [|a p IH]; intros s.
  - destruct s; reflexivity.
  - destruct s as [|c s]; [reflexivity|].
    cbn [Str.lower String.eqb strip_ci]. unfold eq_ignore_case.
    rewrite (Ascii.eqb_sym (Str.to_lower c)).
    destruct (Ascii.eqb (Str.to_lower a) (Str.to_lower c)); [apply IH|reflexivity].
Qed.

Lemma dot_star_eol (b : bool) (s : string) :
  no_newline s = true -> match_here [AnyStar; Eol] b s = true.
Proof.
  revert b. induction s as [|c s IH]; intros b Hn; [reflexivity|].
  simpl in Hn. apply andb_true_iff in Hn as [Hc Hn].
  change (match_here [AnyStar; Eol] b (String c s))
    with (match_here [Eol] b (String c s)
          || negb (Ascii.eqb c newline) && match_here [AnyStar; Eol] false s).
  rewrite Hc, (IH false Hn). apply orb_true_r.
Qed.

Lemma eol_no_newline (b : bool) (s : string) :
  no_newline s = true ->
  match_here [Eol] b s = match s with EmptyString => true | _ => false end.
Proof.
  destruct s as [|c [|c' s]]; try reflexivity.
  simpl. intros H. apply andb_true_iff in H as [H _].
  apply negb_true_iff in H. rewrite H. reflexivity.
Qed.

(** On a name without a newline the two rules match exactly the names
    X-Forwarded- and anything, and X-Real-Ip, in any case. *)
Lemma filter_rules_match (name : string) :
  no_newline name = true ->
  matches_filter_rule name = is_filtered_name name.
Proof.
  intros Hn. unfold matches_filter_rule, is_filtered_name.
  cbn [existsb Exchange.REQ_FILTER_RULES]. rewrite orb_false_r. f_equal.
  - unfold re_match.
    change (compile "^X-Forwarded-.*$")
      with (Bol :: lits "X-Forwarded-" ++ [AnyStar; Eol]).
    change (match_here (Bol :: lits "X-Forwarded-" ++ [AnyStar; Eol]) true name)
      with (true && match_here (lits "X-Forwarded-" ++ [AnyStar; Eol]) true name).
    rewrite andb_true_l, match_lits.
    change "x-forwarded-" with (Str.lower "X-Forwarded-").
    rewrite prefix_lower_strip.
    destruct (strip_ci "X-Forwarded-" name) as [s'|] eqn:E; [|reflexivity].
    apply dot_star_eol. eapply strip_ci_no_newline; eassumption.
  - unfold re_match.
    change (compile "^X-Real-Ip$") with (Bol :: lits "X-Real-Ip" ++ [Eol]).
    change (match_here (Bol :: lits "X-Real-Ip" ++ [Eol]) true name)
      with (true && match_here (lits "X-Real-Ip" ++ [Eol]) true name).
    rewrite andb_true_l, match_lits.
    change "x-real-ip" with (Str.lower "X-Real-Ip").
    rewrite eqb_lower_strip.
    destruct (strip_ci "X-Real-Ip" name) as [s'|] eqn:E; [|reflexivity].
    rewrite eol_no_newline by (eapply strip_ci_no_newline; eassumption).
    destruct s'; reflexivity.
Qed.

End ReFacts.

(** ** The headers [from_exchange] stores *)

Module HeaderFacts.
Import Exchange Spec.

Lemma fold_insert_notin (l : list (string * string)) (d : gmap string string)
    (k : string) :
  k ∉ l.*1 ->
  fold_left (fun d kv => <[kv.1 := kv.2]> d) l d !! k = d !! k.
Proof.
  revert d. induction l as [|[k' v'] l IH]; intros d Hk; [reflexivity|].
  simpl in *. apply not_elem_of_cons in Hk as [Hne Hk].
  rewrite IH by exact Hk. apply lookup_insert_ne. congruence.
Qed.

Lemma fold_insert_last (pre post : list (string * string))
    (d : gmap string string) (k v : string) :
  k ∉ post.*1 ->
  fold_left (fun d kv => <[kv.1 := kv.2]> d) (pre ++ (k, v) :: post) d !! k
  = Some v.
Proof.
  intros Hk. rewrite fold_left_app. simpl.
  rewrite fold_insert_notin by exact Hk. apply lookup_insert_eq.
Qed.

Lemma fold_insert_source (l : list (string * string)) (d : gmap string string)
    (k v : string) :
  fold_left (fun d kv => <[kv.1 := kv.2]> d) l d !! k = Some v ->
  (k, v) ∈ l \/ d !! k = Some v.
Proof.
  revert d. induction l as [|[k' v'] l IH]; intros d H; [right; exact H|].
  simpl in H. apply IH in H as [H|H].
  - left. right. exact H.
  - destruct (decide (k' = k)) as [->|Hne].
    + rewrite lookup_insert_eq in H. injection H as ->. left. left.
    + rewrite lookup_insert_ne in H by exact Hne. right. exact H.
Qed.

(** [dict(pairs)] holds, for a key, the value of its last pair. *)
Lemma dict_of_last (pre post : list (string * string)) (k v : string) :
  k ∉ post.*1 -> dict_of (pre ++ (k, v) :: post) !! k = Some v.
Proof. apply fold_insert_last. Qed.

Lemma dict_of_source (l : list (string * string)) (k v : string) :
  dict_of l !! k = Some v -> (k, v) ∈ l.
Proof.
  intros H. apply fold_insert_source in H as [H|H]; [exact H|].
  rewrite lookup_empty in H. discriminate.
Qed.

Lemma fold_delete_lookup (P : string -> bool) (ks : list string)
    (d : gmap string string) (k : string) :
  fold_left (fun d' key => if P key then base.delete key d' else d') ks d !! k
  = if P k && bool_decide (k ∈ ks) then None else d !! k.
Proof.
  revert d. induction ks as [|k' ks IH]; intros d.
  - simpl. rewrite andb_false_r. reflexivity.
  - simpl. rewrite IH.
    destruct (decide (k = k')) as [->|Hne].
    + rewrite (bool_decide_eq_true_2 (k' ∈ k' :: ks)) by left.
      rewrite andb_true_r.
      destruct (P k') eqn:HP.
      * destruct (bool_decide (k' ∈ ks)); simpl;
          [reflexivity|apply lookup_delete_eq].
      * reflexivity.
    + assert (bool_decide (k ∈ k' :: ks) = bool_decide (k ∈ ks)) as ->.
      { apply bool_decide_ext. rewrite elem_of_cons. tauto. }
      destruct (P k && bool_decide (k ∈ ks)); [reflexivity|].
      destruct (P k'); [|reflexivity].
      apply lookup_delete_ne. congruence.
Qed.

Lemma keys_lookup (d : gmap string string) (k : string) :
  k ∉ keys d -> d !! k = None.
Proof.
  intros H. unfold keys in H.
  apply (not_elem_of_list_to_map_1 (M := gmap string)) in H.
  rewrite list_to_map_to_list in H. exact H.
Qed.

(** The loop over a rule removes the keys the rule matches, and only
    those. *)
Lemma remove_matching_lookup (d : gmap string string) (rule : list Re.item)
    (k : string) :
  remove_matching d rule !! k =
    if Re.re_match rule k then None else d !! k.
Proof.
  unfold remove_matching. rewrite fold_delete_lookup.
  destruct (Re.re_match rule k); [|reflexivity].
  destruct (bool_decide (k ∈ keys d)) eqn:E; [reflexivity|].
  apply bool_decide_eq_false in E. simpl. apply keys_lookup. exact E.
Qed.

Section Headers.

Variable py_str : pyval -> string.

Lemma build_request_headers_lookup (req : http_request) (k : string) :
  build_request_headers py_str req !! k =
    if matches_filter_rule k then None
    else <["Content-Type" := content_type req]> (dict_of (collected py_str req)) !! k.
Proof.
  unfold build_request_headers, matches_filter_rule. cbn [fold_left existsb REQ_FILTER_RULES].
  rewrite !remove_matching_lookup.
  destruct (Re.re_match (Re.compile "^X-Forwarded-.*$") k),
    (Re.re_match (Re.compile "^X-Real-Ip$") k); reflexivity.
Qed.

End Headers.

Section Stored.

Variable py_str : pyval -> string.
Variable float_repr : string -> string.
Variable normalize_request_payload : http_request -> pyval.

(** What a successful call has done. *)
Lemma from_exchange_inv uuid now req resp related_object payload t obj t' :
  from_exchange py_str float_repr normalize_request_payload
    uuid now req resp related_object payload t = Ok (obj, t') ->
  build py_str float_repr normalize_request_payload
    uuid now req resp related_object payload = Ok obj
  /\ exists t1, create obj t = Ok t1 /\ t' = delete_limit related_object 10 t1.
Proof.
  unfold from_exchange, mbind, result_bind.
  destruct (build _ _ _ _ _ _ _ _ _) as [obj0|]; [|discriminate].
  destruct (create obj0 t) as [t1|] eqn:Hc; [|discriminate].
  intros [= <- <-]. eauto.
Qed.

Lemma build_inv uuid now req resp related_object payload obj :
  build py_str float_repr normalize_request_payload
    uuid now req resp related_object payload = Ok obj ->
  id obj = uuid /\ date obj = now
  /\ content_type_id obj = related_ctype related_object
  /\ object_id obj = related_pk related_object
  /\ request_headers obj = build_request_headers py_str req
  /\ response_headers obj = dict_of (resp_items resp)
  /\ status_code obj = resp_status_code resp.
Proof.
  unfold build, mbind, result_bind.
  destruct (serialize _ _ _) as [b1|]; [|discriminate].
  destruct (serialize _ _ _) as [b2|]; [|discriminate].
  intros [= <-]. repeat split.
Qed.

(** C9. The stored request headers have the entry Content-Type, and
    its value is the content type the request declares, whatever the
    transport headers are. *)
Theorem content_type_stored uuid now req resp related_object payload t obj t'
    (H : from_exchange py_str float_repr normalize_request_payload
           uuid now req resp related_object payload t = Ok (obj, t')) :
  request_headers obj !! "Content-Type" = Some (content_type req).
Proof.
  apply from_exchange_inv in H as [H _].
  apply build_inv in H as (_ & _ & _ & _ & -> & _).
  rewrite build_request_headers_lookup.
  change (matches_filter_rule "Content-Type") with false.
  apply lookup_insert_eq.
Qed.

End Stored.

Lemma content_type_stored_witness :
  match
    from_exchange Examples.str_of Examples.same_literal Examples.no_payload
      1%N 1000 Examples.underscore_request Examples.ok_response
      (RelIntegration 7) Examples.push_payload []
  with
  | Ok (obj, _) =>
      request_headers obj !! "Content-Type" = Some "application/json"
  | Raise _ => False
  end.
Proof.
  destruct (from_exchange _ _ _ _ _ _ _ _ _ _) as [[obj t']|e] eqn:H.
  - exact (content_type_stored _ _ _ _ _ _ _ _ _ _ _ _ H).
  - vm_compute in H. discriminate H.
Defined.

Lemma elem_of_collected py_str req name v :
  (name, v) ∈ collected py_str req ->
  exists key val, (key, val) ∈ META req
    /\ Str.startswith "HTTP_" key = true
    /\ name = header_name key /\ v = py_str val.
Proof.
  unfold collected. intros H.
  apply list_elem_of_fmap in H as ([key val] & [= -> ->] & H).
  apply list_elem_of_In, filter_In in H as [H Hp].
  exists key, val. repeat split; [apply list_elem_of_In, H|exact Hp].
Qed.

Lemma collected_split py_str req pre key val post :
  META req = (pre ++ (key, val) :: post)%list ->
  Str.startswith "HTTP_" key = true ->
  collected py_str req =
    (collected py_str {| META := pre; content_type := content_type req |}
     ++ (header_name key, py_str val)
     :: collected py_str {| META := post; content_type := content_type req |})%list.
Proof.
  intros HM Hp. unfold collected. cbn [META]. rewrite HM.
  rewrite List.filter_app, map_app. cbn [List.filter].
  cbn [fst] in *. rewrite Hp. reflexivity.
Qed.

Section Filtered.

Variable py_str : pyval -> string.
Variable float_repr : string -> string.
Variable normalize_request_payload : http_request -> pyval.

(** C3, as the code has it.  The stored request headers are named by
    the normalized names of the application headers (the transport
    key without its prefix, each underscore-separated segment in title
    case, the segments joined by hyphens) and by Content-Type.  No
    name that a filter rule matches is stored: none that is
    X-Forwarded- and anything, or X-Real-Ip, in any case of the
    letters.  An application header whose name no rule matches is
    stored with the string of its value, unless its name is
    Content-Type or a later header has the same normalized name.  The
    response headers are the response's pairs, unfiltered. *)
Theorem request_headers_stored uuid now req resp related_object payload t obj t'
    (H : from_exchange py_str float_repr normalize_request_payload
           uuid now req resp related_object payload t = Ok (obj, t')) :
  (forall key,
     header_name key =
       Str.join "-" (map Str.title (Str.split "_" (Str.slice_from 5 key))))
  /\ (forall name v, request_headers obj !! name = Some v ->
        (name = "Content-Type" /\ v = content_type req)
        \/ exists key val, (key, val) ∈ META req
             /\ Str.startswith "HTTP_" key = true
             /\ name = header_name key /\ v = py_str val)
  /\ (forall name, matches_filter_rule name = true ->
        request_headers obj !! name = None)
  /\ (forall name, no_newline name = true -> is_filtered_name name = true ->
        request_headers obj !! name = None)
  /\ (forall pre key val post,
        META req = (pre ++ (key, val) :: post)%list ->
        Str.startswith "HTTP_" key = true ->
        matches_filter_rule (header_name key) = false ->
        header_name key <> "Content-Type" ->
        (forall key' val', (key', val') ∈ post ->
           Str.startswith "HTTP_" key' = true ->
           header_name key' <> header_name key) ->
        request_headers obj !! header_name key = Some (py_str val))
  /\ response_headers obj = dict_of (resp_items resp)
  /\ (forall pre k v post,
        resp_items resp = (pre ++ (k, v) :: post)%list -> k ∉ post.*1 ->
        response_headers obj !! k = Some v)
  /\ (forall k v, response_headers obj !! k = Some v -> (k, v) ∈ resp_items resp).
Proof.
  apply from_exchange_inv in H as [H _].
  apply build_inv in H as (_ & _ & _ & _ & Hreq & Hresp & _).
  rewrite Hreq, Hresp. clear Hreq Hresp.
  split; [|split; [|split; [|split; [|split; [|split; [|split]]]]]].
  - intros key. unfold header_name, Str.title.
    rewrite StrFacts.title_replace_segments.
    pose proof (StrFacts.split_nonempty "_" (Str.slice_from 5 key)) as Hne.
    destruct (Str.split "_" (Str.slice_from 5 key)); [congruence|reflexivity].
  - intros name v. rewrite build_request_headers_lookup.
    destruct (matches_filter_rule name); [discriminate|].
    destruct (decide (name = "Content-Type")) as [->|Hne].
    + rewrite lookup_insert_eq. intros [= <-]. left. split; reflexivity.
    + rewrite lookup_insert_ne by congruence. intros Hl. right.
      apply dict_of_source in Hl. apply elem_of_collected in Hl. exact Hl.
  - intros name Hm. rewrite build_request_headers_lookup, Hm. reflexivity.
  - intros name Hn Hf. rewrite build_request_headers_lookup.
    rewrite ReFacts.filter_rules_match, Hf by exact Hn. reflexivity.
  - intros pre key val post HM Hp Hm Hct Hlater.
    rewrite build_request_headers_lookup, Hm.
    rewrite lookup_insert_ne by congruence.
    rewrite (collected_split py_str req pre key val post HM Hp).
    apply dict_of_last. intros Hin.
    apply list_elem_of_fmap in Hin as ([name v] & Hname & Hin).
    cbn [fst] in Hname. subst name.
    apply elem_of_collected in Hin as (key' & val' & Hin & Hp' & Hname & _).
    cbn [META] in Hin. eapply Hlater; eauto.
  - reflexivity.
  - intros pre k v post Hitems Hk. rewrite Hitems. apply dict_of_last, Hk.
  - intros k v. apply dict_of_source.
Qed.

End Filtered.

Lemma request_headers_stored_witness :
  match
    from_exchange Examples.str_of Examples.same_literal Examples.no_payload
      1%N 1000 Examples.webhook_request Examples.ok_response
      (RelIntegration 7) Examples.push_payload []
  with
  | Ok (obj, _) =>
      request_headers obj !! "X-Forwarded-For" = None
      /\ request_headers obj !! "X-Real-Ip" = None
      /\ request_headers obj !! "X-Github-Event" = Some "push"
  | Raise _ => False
  end.
Proof.
  destruct (from_exchange _ _ _ _ _ _ _ _ _ _) as [[obj t']|e] eqn:H.
  - destruct (request_headers_stored _ _ _ _ _ _ _ _ _ _ _ _ H)
      as (_ & _ & Hrule & _ & Hkeep & _).
    split; [apply Hrule; reflexivity|].
    split; [apply Hrule; reflexivity|].
    apply (Hkeep [("HTTP_X_FORWARDED_FOR", PStr "10.0.0.1");
                  ("REMOTE_ADDR", PStr "127.0.0.1")]
             "HTTP_X_GITHUB_EVENT" (PStr "push")
             [("HTTP_X_REAL_IP", PStr "10.0.0.2")]);
      [reflexivity|reflexivity|reflexivity|discriminate|].
    intros key' val' Hin _.
    apply list_elem_of_singleton in Hin. injection Hin as -> _. discriminate.
  - vm_compute in H. discriminate H.
Defined.

(** C3 as stated fails for an application header whose normalized
    name is Content-Type: the value stored under that name is the
    declared content type, not the header's. *)
Lemma header_value_counterexample :
  Str.startswith "HTTP_" "HTTP_CONTENT_TYPE" = true
  /\ header_name "HTTP_CONTENT_TYPE" = "Content-Type"
  /\ matches_filter_rule "Content-Type" = false
  /\ match
       from_exchange Examples.str_of Examples.same_literal Examples.no_payload
         1%N 1000 Examples.underscore_request Examples.ok_response
         (RelIntegration 7) Examples.push_payload []
     with
     | Ok (obj, _) =>
         request_headers obj !! "Content-Type" = Some "application/json"
         /\ request_headers obj !! "Content-Type"
            <> Some (Examples.str_of (PStr "text/plain"))
     | Raise _ => False
     end.
Proof.
  split; [reflexivity|]. split; [reflexivity|]. split; [reflexivity|].
  destruct (from_exchange _ _ _ _ _ _ _ _ _ _) as [[obj t']|e] eqn:H;
    vm_compute in H; [|discriminate H].
  injection H as <- _. split; [reflexivity|discriminate].
Qed.

End HeaderFacts.

(** ** Retention *)

Module RetentionFacts.
Import Exchange Spec.


Lemma filter_all {A} (P : A -> Prop) `{!forall x, Decision (P x)} (l : list A) :
  Forall P l -> filter P l = l.
Proof.
  induction 1 as [|x l Hx _ IH]; [reflexivity|].
  rewrite filter_cons_True by exact Hx. rewrite IH. reflexivity.
Qed.


Lemma filter_comm {A} (P Q : A -> Prop) `{!forall x, Decision (P x)}
    `{!forall x, Decision (Q x)} (l : list A) :
  filter P (filter Q l) = filter Q (filter P l).
Proof.
  rewrite !list_filter_filter. apply list_filter_iff. tauto.
Qed.



Lemma fold_delete (dels : list HttpExchange) (t : table) :
  fold_left (fun t' exchange => delete exchange t') dels t =
    filter (fun e => id e ∉ id <$> dels) t.
Proof.
  revert t. induction dels as [|d dels IH]; intros t.
  - simpl. symmetry. apply filter_all.
    apply Forall_forall. intros e _ Hin. inversion Hin.
  - cbn [fold_left]. rewrite IH. unfold delete. rewrite list_filter_filter.
    apply list_filter_iff. intros e. rewrite fmap_cons, not_elem_of_cons. tauto.
Qed.


Lemma same_id_same_row (l : list HttpExchange) (x y : HttpExchange) :
  NoDup (id <$> l) -> x ∈ l -> y ∈ l -> id x = id y -> x = y.
Proof.
  induction l as [|a l IH]; intros Hnd Hx Hy Heq; [inversion Hx|].
  rewrite fmap_cons in Hnd. apply NoDup_cons in Hnd as [Ha Hnd].
  apply elem_of_cons in Hx as [->|Hx], Hy as [->|Hy]; auto.
  - exfalso. apply Ha. rewrite Heq. apply list_elem_of_fmap. eauto.
  - exfalso. apply Ha. rewrite <- Heq. apply list_elem_of_fmap. eauto.
Qed.

Lemma related_queryset_owned (r : related) (t : table) :
  related_queryset r t = order_by_date_desc (owned (related_key r) t).
Proof. destruct r; reflexivity. Qed.

Lemma owned_spec (key : owner) (e : HttpExchange) :
  owned_by key.1 key.2 e <-> (content_type_id e, object_id e) = key.
Proof.
  destruct key as [c pk]. unfold owned_by. simpl. split.
  - intros [-> ->]. reflexivity.
  - intros [= -> ->]. split; reflexivity.
Qed.

Lemma owned_sublist (key : owner) (t : table) : owned key t `sublist_of` t.
Proof. apply sublist_filter. Qed.


Lemma delete_limit_sublist (r : related) (n : nat) (t : table) :
  delete_limit r n t `sublist_of` t.
Proof. unfold delete_limit. rewrite fold_delete. apply sublist_filter. Qed.





Lemma create_inv (obj : HttpExchange) (t t1 : table) :
  create obj t = Ok t1 -> t1 = (t ++ [obj])%list /\ id obj ∉ id <$> t.
Proof.
  unfold create. destruct (existsb _ t) eqn:E; [discriminate|].
  intros [= <-]. split; [reflexivity|].
  intros Hin. apply list_elem_of_fmap in Hin as (e & Heq & He).
  assert (existsb (fun e => (id e =? id obj)%N) t = true); [|congruence].
  apply existsb_exists. exists e. split; [apply list_elem_of_In, He|].
  apply N.eqb_eq. congruence.
Qed.

Lemma owned_singleton (key : owner) (obj : HttpExchange) :
  owned key [obj] =
    if decide (key = (content_type_id obj, object_id obj)) then [obj] else [].
Proof.
  unfold owned. destruct (decide (key = _)) as [->|Hne].
  - rewrite filter_cons_True by (split; reflexivity). reflexivity.
  - rewrite filter_cons_False; [reflexivity|].
    intros H. apply owned_spec in H. congruence.
Qed.

Section Calls.

Variable py_str : pyval -> string.
Variable float_repr : string -> string.
Variable normalize_request_payload : http_request -> pyval.

Abbreviation record c t :=
  (from_exchange py_str float_repr normalize_request_payload
     (call_uuid c) (call_now c) (call_req c) (call_resp c)
     (call_related c) (call_payload c) t).



End Calls.

Section Retention.

Variable py_str : pyval -> string.
Variable float_repr : string -> string.
Variable normalize_request_payload : http_request -> pyval.


End Retention.



End RetentionFacts.

(** ** Atomicity of a call *)

Module TransactionFacts.
Import Exchange Transaction Spec.

Lemma create_appends (obj : HttpExchange) (t t1 : table) :
  create obj t = Ok t1 -> t1 = (t ++ [obj])%list.
Proof. intros H. apply RetentionFacts.create_inv in H as [H _]. exact H. Qed.

(** Every state a call reaches is as [at_point] says. *)
Lemma reachable_at_point (obj : HttpExchange) (r : related) (t0 : table)
    (s : db * pc) :
  reachable (step obj r) (quiescent t0, Enter) s -> at_point obj r t0 s.
Proof.
  induction 1 as [|s s' Hreach IH Hstep].
  - split; reflexivity.
  - unfold at_point in *. destruct Hstep; cbn [fst snd committed working] in *.
    + destruct IH as [Hc Hw]. rewrite Hc in *.
      pose proof (create_appends _ _ _ H) as ->. auto.
    + destruct IH as [Hc Hw]. auto.
    + destruct IH as (Hc & Hw & Hcr). split; [exact Hc|]. split; [exact Hcr|].
      exists t. split; [exact H|].
      rewrite Hw in H. injection H as <-. reflexivity.
    + destruct IH as (Hc & Hcr & t1 & Hw & Hfold).
      split; [exact Hc|]. split; [exact Hcr|].
      exists (delete exchange t). split; [reflexivity|].
      rewrite Hw in H. injection H as <-. exact Hfold.
    + destruct IH as (Hc & Hcr & t1 & Hw & Hfold).
      rewrite Hw in H. injection H as <-. simpl in Hfold. auto.
    + destruct IH as (Hc & _). auto.
    + destruct IH as (Hc & _). auto.
Qed.

Section Atomic.

Variable py_str : pyval -> string.
Variable float_repr : string -> string.
Variable normalize_request_payload : http_request -> pyval.

(** C8. At every point of a call of [from_exchange] under
    [transaction.atomic], what another connection sees is the table
    as it was before the call or, once the call has returned, the
    table with the new row and the owner's rows trimmed, the one the
    call returns with: never the new row without the trim.  A call
    that raises leaves the table as it was. *)
Theorem insert_and_trim_atomic uuid now req resp related_object payload
    (t0 : table) (obj : HttpExchange) (d : db) (p : pc)
    (Hbuild : build py_str float_repr normalize_request_payload
                uuid now req resp related_object payload = Ok obj)
    (Hreach : reachable (step obj related_object) (quiescent t0, Enter) (d, p)) :
  (visible d = t0 /\ p <> Returned)
  \/ (p = Returned
      /\ from_exchange py_str float_repr normalize_request_payload
           uuid now req resp related_object payload t0 = Ok (obj, visible d)).
Proof.
  apply reachable_at_point in Hreach. unfold at_point in Hreach.
  cbn [fst snd] in Hreach. unfold visible.
  destruct p as [| |rest| |e].
  - left. destruct Hreach as [-> _]. split; [reflexivity|discriminate].
  - left. destruct Hreach as (-> & _). split; [reflexivity|discriminate].
  - left. destruct Hreach as (-> & _). split; [reflexivity|discriminate].
  - right. destruct Hreach as (-> & _ & Hcr). split; [reflexivity|].
    unfold from_exchange, mbind, result_bind. rewrite Hbuild, Hcr. reflexivity.
  - left. destruct Hreach as (-> & _). split; [reflexivity|discriminate].
Qed.

(** A call that returns has a run of steps to its result. *)
Lemma returning_run uuid now req resp related_object payload
    (t0 t' : table) (obj : HttpExchange) :
  from_exchange py_str float_repr normalize_request_payload
    uuid now req resp related_object payload t0 = Ok (obj, t') ->
  reachable (step obj related_object) (quiescent t0, Enter)
    (quiescent t', Returned).
Proof.
  intros H. apply HeaderFacts.from_exchange_inv in H as (_ & t1 & Hc & ->).
  pose proof (create_appends _ _ _ Hc) as ->.
  assert (Hdel : forall rest t,
    reachable (step obj related_object) (quiescent t0, Enter)
      ({| committed := t0; working := Some t |}, Deleting rest) ->
    reachable (step obj related_object) (quiescent t0, Enter)
      (quiescent (fold_left (fun t' e => delete e t') rest t), Returned)).
  { induction rest as [|e rest IH]; intros t Hr.
    - eapply reach_step; [exact Hr|].
      apply (step_commit obj related_object
               {| committed := t0; working := Some t |} t eq_refl).
    - simpl. apply IH. eapply reach_step; [exact Hr|].
      apply (step_delete obj related_object
               {| committed := t0; working := Some t |} t e rest eq_refl). }
  apply Hdel. eapply reach_step.
  - eapply reach_step; [apply reach_start|].
    apply (step_create obj related_object (quiescent t0) _ Hc).
  - apply (step_select obj related_object
             {| committed := t0; working := Some (t0 ++ [obj])%list |}
             (t0 ++ [obj])%list eq_refl).
Qed.

End Atomic.

(** Without the atomic block a reader can see the new row before the
    trim: here eleven rows of one owner. *)
Lemma autocommit_shows_untrimmed :
  let t0 := Examples.bare_row <$> seq 1 10 in
  let obj := Examples.bare_row 11 in
  exists d : db,
    reachable (step_autocommit obj (RelIntegration 7)) (quiescent t0, Enter)
      (d, Created)
    /\ length (owned (related_key (RelIntegration 7)) (visible d)) = 11%nat.
Proof.
  intros t0 obj. exists {| committed := t0 ++ [obj]; working := None |}.
  split; [|vm_compute; reflexivity].
  eapply reach_step; [apply reach_start|].
  apply (auto_create obj (RelIntegration 7) (quiescent t0)).
  vm_compute. reflexivity.
Qed.

Lemma insert_and_trim_atomic_witness :
  match
    build Examples.str_of Examples.same_literal Examples.no_payload
      1%N 1000 Examples.bare_request Examples.bare_response
      (RelIntegration 7) (PInt 0)
  with
  | Ok obj =>
      let d := {| committed := []; working := Some [obj] |} in
      reachable (step obj (RelIntegration 7)) (quiescent [], Enter) (d, Created)
      /\ visible d = []
  | Raise _ => False
  end.
Proof.
  destruct (build _ _ _ _ _ _ _ _ _) as [obj|e] eqn:Hb;
    [|vm_compute in Hb; discriminate Hb].
  assert (Hreach : reachable (step obj (RelIntegration 7)) (quiescent [], Enter)
                     ({| committed := []; working := Some [obj] |}, Created)).
  { eapply reach_step; [apply reach_start|].
    apply (step_create obj (RelIntegration 7) (quiescent []) [obj] eq_refl). }
  split; [exact Hreach|].
  destruct (insert_and_trim_atomic _ _ _ _ _ _ _ _ _ _ _ _ _ Hb Hreach)
    as [[Hv _]|[Hp _]]; [exact Hv|discriminate Hp].
Defined.

End TransactionFacts.

(** ** The json module *)

Module JsonFacts.
Import Json Spec.

(** Induction on a value, with the property on the items of a list
    and on the values of a dictionary. *)
Lemma pyval_nested_ind (P : pyval -> Prop) :
  P PNone ->
  (forall b, P (PBool b)) ->
  (forall z, P (PInt z)) ->
  (forall lit, P (PFloat lit)) ->
  (forall u, P (PUnicode u)) ->
  (forall s, P (PStr s)) ->
  (forall l, Forall P l -> P (PList l)) ->
  (forall items, Forall (fun kv => P kv.2) items -> P (PDict items)) ->
  (forall name, P (PObject name)) ->
  forall v, P v.
Proof.
  intros HNone HBool HInt HFloat HUni HStr HList HDict HObj.
  fix IH 1. intros [| b | z | lit | u | s | l | items | name].
  - exact HNone.
  - apply HBool.
  - apply HInt.
  - apply HFloat.
  - apply HUni.
  - apply HStr.
  - apply HList. induction l as [|x l IHl]; constructor; [apply IH|exact IHl].
  - apply HDict. induction items as [|[k x] items IHl]; constructor;
      [apply IH|exact IHl].
  - apply HObj.
Qed.

Lemma insert_by_key_perm {A} (kv : ustring * A) (l : list (ustring * A)) :
  insert_by_key kv l ≡ₚ kv :: l.
Proof.
  induction l as [|kv' l IH]; [reflexivity|].
  simpl. destruct (ustring_leb kv.1 kv'.1); [reflexivity|].
  rewrite IH. apply Permutation_swap.
Qed.

(** Sorting the items of a dictionary keeps the items. *)
Lemma sort_by_key_perm {A} (l : list (ustring * A)) : sort_by_key l ≡ₚ l.
Proof.
  induction l as [|kv l IH]; [reflexivity|].
  unfold sort_by_key in *. simpl. rewrite insert_by_key_perm, IH. reflexivity.
Qed.

Lemma sequence_ok {A} (rs : list (result A)) :
  Forall (fun r => exists a, r = Ok a) rs -> exists l, sequence rs = Ok l.
Proof.
  induction 1 as [|r rs [a ->] _ [l IH]]; [exists []; reflexivity|].
  exists (a :: l). simpl. unfold mbind, result_bind. rewrite IH. reflexivity.
Qed.

Section Typed.

Variable float_repr : string -> string.
Variable sort_keys : bool.
Variable indent : option nat.

(** [dumps] returns on every value that [loads] can return. *)
Lemma encode_typed (v : pyval) :
  json_typed v = true ->
  forall level, exists s, encode float_repr sort_keys indent level v = Ok s.
Proof.
  induction v as [| b | z | lit | u | s | l IH | items IH | name]
    using pyval_nested_ind; intros Ht level; try discriminate Ht;
    try (eexists; reflexivity).
  - destruct b; eexists; reflexivity.
  - cbn [encode]. unfold mbind, result_bind.
    destruct (sequence_ok (map (encode float_repr sort_keys indent (S level)) l))
      as [parts ->]; [|eexists; reflexivity].
    cbn [json_typed] in Ht. rewrite forallb_forall in Ht.
    apply Forall_map. rewrite Forall_forall in IH |- *.
    intros x Hx. apply IH; [exact Hx|]. apply Ht, list_elem_of_In, Hx.
  - cbn [encode]. unfold mbind, result_bind.
    set (encoded := map _ items).
    assert (He : Forall (fun kr : ustring * result string =>
                           exists s, kr.2 = Ok s) encoded).
    { subst encoded. apply Forall_map.
      cbn [json_typed] in Ht. rewrite forallb_forall in Ht.
      rewrite Forall_forall in IH |- *. intros kv Hkv. cbn [snd].
      apply IH; [exact Hkv|]. apply Ht, list_elem_of_In, Hkv. }
    set (ordered := if sort_keys then sort_by_key encoded else encoded).
    assert (Ho : Forall (fun kr : ustring * result string =>
                           exists s, kr.2 = Ok s) ordered).
    { subst ordered. destruct sort_keys; [|exact He].
      rewrite sort_by_key_perm. exact He. }
    destruct (sequence_ok (map (fun kr => member kr.1 kr.2) ordered))
      as [parts ->]; [|eexists; reflexivity].
    apply Forall_map. eapply Forall_impl; [exact Ho|].
    intros [k r] [s Hs]. cbn [fst snd] in *. subst r.
    eexists. reflexivity.
Qed.

End Typed.

Lemma dict_set_typed (k : ustring) (v : pyval) (items : list (ustring * pyval)) :
  json_typed v = true ->
  forallb (fun kv => json_typed kv.2) items = true ->
  forallb (fun kv => json_typed kv.2) (dict_set k v items) = true.
Proof.
  intros Hv. induction items as [|[k' v'] items IH]; intros H.
  - simpl. rewrite Hv. reflexivity.
  - simpl in *. apply andb_true_iff in H as [H1 H2].
    destruct (ustring_eqb k k'); simpl.
    + rewrite Hv, H2. reflexivity.
    + rewrite H1, IH by exact H2. reflexivity.
Qed.

Lemma dict_of_pairs_typed (pairs : list (ustring * pyval)) :
  forallb (fun kv => json_typed kv.2) pairs = true ->
  forallb (fun kv => json_typed kv.2) (dict_of_pairs pairs) = true.
Proof.
  unfold dict_of_pairs.
  assert (G : forall d, forallb (fun kv => json_typed kv.2) d = true ->
    forallb (fun kv => json_typed kv.2) pairs = true ->
    forallb (fun kv => json_typed kv.2)
      (fold_left (fun d kv => dict_set kv.1 kv.2 d) pairs d) = true).
  { induction pairs as [|[k v] pairs IH]; intros d Hd H; [exact Hd|].
    simpl in *. apply andb_true_iff in H as [H1 H2].
    apply IH; [apply dict_set_typed; assumption|exact H2]. }
  apply G. reflexivity.
Qed.

Lemma deliver_typed (v : pyval) (stack : list frame) (s' : pstate) :
  json_typed v = true -> forallb frame_typed stack = true ->
  deliver v stack = Some s' -> pstate_typed s' = true.
Proof.
  intros Hv Hs. unfold deliver, pstate_typed.
  destruct stack as [|[values|pairs [k|]] st]; intros [= <-]; cbn [fst snd].
  - simpl. exact Hv.
  - simpl in *. apply andb_true_iff in Hs as [H1 H2].
    rewrite forallb_app, H1, H2. simpl. rewrite Hv. reflexivity.
  - simpl in *. apply andb_true_iff in Hs as [H1 H2].
    rewrite forallb_app, H1, H2. simpl. rewrite Hv. reflexivity.
Qed.

Lemma step_typed (s s' : pstate) (t : token) :
  pstate_typed s = true -> step s t = Some s' -> pstate_typed s' = true.
Proof.
  destruct s as [stack e]. unfold pstate_typed at 1. cbn [fst snd].
  intros H. apply andb_true_iff in H as [Hs _].
  assert (Hstart : start_value t stack = Some s' -> pstate_typed s' = true).
  { destruct t; cbn [start_value]; try discriminate;
      try (apply deliver_typed; [reflexivity|exact Hs]);
      intros [= <-]; unfold pstate_typed; cbn [fst snd forallb frame_typed];
      rewrite Hs; reflexivity. }
  assert (Harr : close_array stack = Some s' -> pstate_typed s' = true).
  { unfold close_array. destruct stack as [|[values|pairs k] st];
      try discriminate. simpl in Hs. apply andb_true_iff in Hs as [H1 H2].
    apply deliver_typed; assumption. }
  assert (Hobj : close_object stack = Some s' -> pstate_typed s' = true).
  { unfold close_object. destruct stack as [|[values|pairs [k|]] st];
      try discriminate. simpl in Hs. apply andb_true_iff in Hs as [H1 H2].
    apply deliver_typed; [|exact H2]. cbn [json_typed].
    apply dict_of_pairs_typed, H1. }
  assert (Hkey : forall k, set_key k stack = Some s' -> pstate_typed s' = true).
  { intros k. unfold set_key. destruct stack as [|[values|pairs [k'|]] st];
      try discriminate. intros [= <-]. unfold pstate_typed. cbn [fst snd].
    simpl in *. rewrite Hs. reflexivity. }
  unfold step.
  destruct e; destruct t; try discriminate; auto.
  - apply Hkey.
  - apply Hkey.
  - intros [= <-]. unfold pstate_typed. cbn [fst snd]. rewrite Hs. reflexivity.
  - destruct stack as [|[values|pairs k] st]; try discriminate;
      intros [= <-]; unfold pstate_typed; cbn [fst snd]; rewrite Hs; reflexivity.
Qed.

Lemma run_typed (ts : list token) (s s' : pstate) :
  pstate_typed s = true -> run s ts = Some s' -> pstate_typed s' = true.
Proof.
  revert s. induction ts as [|t ts IH]; intros s Hs; cbn [run].
  - intros [= <-]. exact Hs.
  - unfold mbind, option_bind. destruct (step s t) as [s1|] eqn:E;
      [|discriminate]. apply IH. eapply step_typed; eassumption.
Qed.

(** [loads] returns values [dumps] can encode. *)
Lemma loads_typed (s : string) (v : pyval) :
  loads s = Ok v -> json_typed v = true.
Proof.
  unfold loads, parse. destruct (lex 0 s) as [ts|]; [|discriminate].
  destruct (run ([], EValue) ts) as [[[|f st] e]|] eqn:E; try discriminate.
  destruct e; try discriminate. intros [= <-].
  apply run_typed in E; [|reflexivity].
  unfold pstate_typed in E. cbn [fst snd forallb] in E. exact E.
Qed.

Lemma loads_raises (s : string) (e : exn) :
  loads s = Raise e -> e = ValueError.
Proof.
  unfold loads. destruct (lex 0 s) as [ts|]; [|congruence].
  destruct (parse ts); [discriminate|congruence].
Qed.

End JsonFacts.

(** ** Stored and displayed bodies *)

Module BodyFacts.
Import Exchange Spec.

Section Bodies.

Variable py_str : pyval -> string.
Variable float_repr : string -> string.
Variable normalize_request_payload : http_request -> pyval.
Variable highlight : string -> string.

Lemma or_empty (s : string) :
  (if String.eqb s "" then "" else s) = s.
Proof. destruct s; reflexivity. Qed.

(** The fallback of [serialize]: a [TypeError] of [dumps] gives the
    string of the payload. *)
Lemma serialize_fallback (payload : pyval) :
  Json.dumps float_repr true None payload = Raise TypeError ->
  serialize py_str float_repr payload = Ok (py_str payload).
Proof. unfold serialize. intros ->. reflexivity. Qed.

(** Any other exception of [dumps] leaves [serialize]. *)
Lemma serialize_raises (payload : pyval) (e : exn) :
  serialize py_str float_repr payload = Raise e ->
  Json.dumps float_repr true None payload = Raise e /\ e <> TypeError.
Proof.
  unfold serialize. destruct (Json.dumps _ _ _ payload) as [b|[]];
    try discriminate; intros [= <-]; split; (reflexivity || discriminate).
Qed.

(** C4 fails on the code: for a payload that is a byte string which
    is not UTF-8, [dumps] raises a [ValueError], which the handler for
    [TypeError] does not catch, and [from_exchange] raises. *)
Theorem not_utf8_payload_raises uuid now req resp related_object (t : table) :
  Json.dumps float_repr true None (PStr Examples.not_utf8) = Raise ValueError
  /\ from_exchange py_str float_repr normalize_request_payload
       uuid now req resp related_object (PStr Examples.not_utf8) t
     = Raise ValueError.
Proof. split; reflexivity. Qed.

End Bodies.

End BodyFacts.

(** ** Reading back what [dumps] writes *)

Module ParseFacts.
Import Json Spec.
Local Open Scope list_scope.

Lemma dict_set_fresh (k : ustring) (v : pyval) (d : list (ustring * pyval)) :
  k ∉ d.*1 -> dict_set k v d = (d ++ [(k, v)])%list.
Proof.
  induction d as [|[k' v'] d IH]; intros Hk; [reflexivity|].
  simpl in *. apply not_elem_of_cons in Hk as [Hne Hk].
  unfold ustring_eqb. rewrite bool_decide_eq_false_2 by exact Hne.
  rewrite IH by exact Hk. reflexivity.
Qed.

(** [dict(pairs)] of pairs with distinct keys is the pairs. *)
Lemma dict_of_pairs_distinct (pairs : list (ustring * pyval)) :
  NoDup pairs.*1 -> dict_of_pairs pairs = pairs.
Proof.
  unfold dict_of_pairs.
  assert (G : forall d, NoDup ((d ++ pairs)%list).*1 ->
    fold_left (fun d kv => dict_set kv.1 kv.2 d) pairs d = (d ++ pairs)%list).
  { induction pairs as [|[k v] pairs IH]; intros d Hnd.
    - rewrite app_nil_r. reflexivity.
    - cbn [fold_left fst snd]. rewrite dict_set_fresh.
      + rewrite IH; rewrite <- app_assoc; [reflexivity|exact Hnd].
      + rewrite fmap_app in Hnd. apply NoDup_app in Hnd as (_ & Hd & _).
        intros Hin. apply (Hd k Hin). left. }
  intros Hnd. apply (G []). exact Hnd.
Qed.

(** The decoder on the tokens of a value. *)
Definition reads (w : pyval) : Prop :=
  forall stack e ts, e = EValue \/ e = EValueOrClose ->
    run (stack, e) (tokens w ++ ts) = (s' ← deliver w stack; run s' ts).

Lemma reads_scalar (w : pyval) (t : token) :
  tokens w = [t] -> t <> TRBracket ->
  (forall stack, start_value t stack = deliver w stack) -> reads w.
Proof.
  intros Ht Hne Hs stack e ts He. rewrite Ht. cbn [app run].
  rewrite <- Hs. destruct He as [-> | ->]; [reflexivity|].
  destruct t; try reflexivity. congruence.
Qed.

Lemma run_open (stack : list frame) (e : expect) (t : token) (ts : list token)
    (s' : pstate) :
  e = EValue \/ e = EValueOrClose -> t <> TRBracket ->
  start_value t stack = Some s' ->
  run (stack, e) (t :: ts) = run s' ts.
Proof.
  intros He Hne Hs. cbn [run].
  assert (step (stack, e) t = Some s') as ->; [|reflexivity].
  rewrite <- Hs. destruct He as [-> | ->]; [reflexivity|].
  destruct t; try reflexivity. congruence.
Qed.

Lemma run_array_items (l : list pyval) :
  Forall reads l -> l <> [] ->
  forall stack acc e ts, e = EValue \/ e = EValueOrClose ->
    run (FArray acc :: stack, e)
        (comma_separated (map tokens l) ++ TRBracket :: ts)
    = (s' ← deliver (PList (acc ++ l)) stack; run s' ts).
Proof.
  induction 1 as [|x l Hx Hl IH]; intros Hne stack acc e ts He; [congruence|].
  destruct l as [|y l'].
  - cbn [map comma_separated]. rewrite (Hx _ _ _ He). reflexivity.
  - change (comma_separated (map tokens (x :: y :: l')))
      with (tokens x ++ TComma :: comma_separated (map tokens (y :: l'))).
    rewrite <- app_assoc. rewrite (Hx _ _ _ He).
    cbn [deliver mbind option_bind app run step].
    rewrite IH by (discriminate || auto). rewrite <- app_assoc. reflexivity.
Qed.

Lemma run_object_items (l : list (ustring * pyval)) :
  Forall (fun kv => reads kv.2) l -> l <> [] ->
  forall stack acc e ts, e = EKey \/ e = EKeyOrClose ->
    run (FObject acc None :: stack, e)
        (comma_separated
           (map (fun kv => TString kv.1 :: TColon :: tokens kv.2) l)
         ++ TRBrace :: ts)
    = (s' ← deliver (PDict (dict_of_pairs (acc ++ l))) stack; run s' ts).
Proof.
  induction 1 as [|[k x] l Hx Hl IH]; intros Hne stack acc e ts He; [congruence|].
  assert (Hkey : forall rest,
    run (FObject acc None :: stack, e) (TString k :: TColon :: rest)
    = run (FObject acc (Some k) :: stack, EValue) rest).
  { intros rest. destruct He as [-> | ->]; reflexivity. }
  cbn [fst snd] in Hx.
  destruct l as [|y l'].
  - cbn [map comma_separated fst snd app]. rewrite Hkey.
    rewrite (Hx _ _ _ (or_introl eq_refl)). reflexivity.
  - change (comma_separated
              (map (fun kv => TString kv.1 :: TColon :: tokens kv.2)
                 ((k, x) :: y :: l')))
      with ((TString k :: TColon :: tokens x) ++ TComma ::
            comma_separated
              (map (fun kv => TString kv.1 :: TColon :: tokens kv.2) (y :: l'))).
    rewrite <- app_assoc. cbn [app]. rewrite Hkey.
    rewrite (Hx _ _ _ (or_introl eq_refl)).
    cbn [deliver mbind option_bind app run step].
    rewrite IH by (discriminate || auto). rewrite <- app_assoc. reflexivity.
Qed.

(** The decoder reads the tokens of a plain value as that value. *)
Lemma plain_reads (w : pyval) : plain w = true -> reads w.
Proof.
  induction w as [| b | z | lit | u | s | l IH | items IH | name]
    using JsonFacts.pyval_nested_ind; intros Hp; try discriminate Hp.
  - apply (reads_scalar _ TNull); [reflexivity|discriminate|reflexivity].
  - destruct b;
      [apply (reads_scalar _ TTrue)|apply (reads_scalar _ TFalse)];
      (reflexivity || discriminate).
  - apply (reads_scalar _ (TInt z)); (reflexivity || discriminate).
  - apply (reads_scalar _ (TString u)); (reflexivity || discriminate).
  - assert (Hl : Forall reads l).
    { cbn [plain] in Hp. rewrite forallb_forall in Hp.
      rewrite Forall_forall in IH |- *. intros x Hx.
      apply IH; [exact Hx|]. apply Hp, list_elem_of_In, Hx. }
    intros stack e ts He. cbn [tokens].
    rewrite <- app_comm_cons, <- app_assoc. cbn [app].
    rewrite (run_open stack e TLBracket _ (FArray [] :: stack, EValueOrClose))
      by (auto || discriminate).
    destruct l as [|x l'].
    + reflexivity.
    + rewrite run_array_items by (auto || discriminate). reflexivity.
  - cbn [plain] in Hp. apply andb_true_iff in Hp as [Hnd Hp].
    apply bool_decide_eq_true in Hnd.
    assert (Hl : Forall (fun kv => reads kv.2) items).
    { rewrite forallb_forall in Hp.
      rewrite Forall_forall in IH |- *. intros kv Hkv.
      apply IH; [exact Hkv|].
      apply list_elem_of_In, Hp, andb_true_iff in Hkv as [_ Hkv]. exact Hkv. }
    intros stack e ts He. cbn [tokens].
    rewrite <- app_comm_cons, <- app_assoc. cbn [app].
    rewrite (run_open stack e TLBrace _ (FObject [] None :: stack, EKeyOrClose))
      by (auto || discriminate).
    destruct items as [|kv items'].
    + reflexivity.
    + rewrite run_object_items by (auto || discriminate).
      cbn [app]. rewrite dict_of_pairs_distinct by exact Hnd. reflexivity.
Qed.

Lemma parse_tokens (w : pyval) : plain w = true -> parse (tokens w) = Some w.
Proof.
  intros Hp. unfold parse.
  rewrite <- (app_nil_r (tokens w)).
  rewrite (plain_reads w Hp [] EValue [] (or_introl eq_refl)). reflexivity.
Qed.

End ParseFacts.

Module CanonFacts.
Import Json Spec.
Local Open Scope list_scope.

Lemma utf8_decode_ascii (bytes : list N) :
  forallb (fun c => (c <? 128)%N) bytes = true ->
  utf8_decode bytes = Some bytes.
Proof.
  induction bytes as [|b bytes IH]; intros H; [reflexivity|].
  simpl in H. apply andb_true_iff in H as [Hb H].
  cbn [utf8_decode]. rewrite Hb, IH by exact H. reflexivity.
Qed.

Lemma insert_by_key_map {A B} (f : A -> B) (kv : ustring * A)
    (l : list (ustring * A)) :
  insert_by_key (kv.1, f kv.2) (map (fun kv => (kv.1, f kv.2)) l)
  = map (fun kv => (kv.1, f kv.2)) (insert_by_key kv l).
Proof.
  induction l as [|kv' l IH]; [reflexivity|].
  cbn [map insert_by_key fst]. destruct (ustring_leb kv.1 kv'.1);
    [reflexivity|]. cbn [map]. rewrite IH. reflexivity.
Qed.

(** Sorting by key and changing the values can be done in any order. *)
Lemma sort_by_key_map {A B} (f : A -> B) (l : list (ustring * A)) :
  sort_by_key (map (fun kv => (kv.1, f kv.2)) l)
  = map (fun kv => (kv.1, f kv.2)) (sort_by_key l).
Proof.
  unfold sort_by_key. induction l as [|kv l IH]; [reflexivity|].
  cbn [map fold_right]. rewrite IH. apply insert_by_key_map.
Qed.

Lemma sequence_map {A B} (f : A -> result B) (g : A -> B) (l : list A) :
  Forall (fun x => f x = Ok (g x)) l -> sequence (map f l) = Ok (map g l).
Proof.
  induction 1 as [|x l Hx _ IH]; [reflexivity|].
  cbn [map sequence]. rewrite Hx, IH. reflexivity.
Qed.

Lemma ustring_leb_total (a b : ustring) :
  ustring_leb a b = false -> ustring_leb b a = true.
Proof.
  revert b. induction a as [|x a IH]; intros b; [discriminate|].
  destruct b as [|y b]; [reflexivity|]. cbn [ustring_leb].
  destruct (N.ltb_spec x y), (N.ltb_spec y x); try discriminate;
    try reflexivity; try lia. apply IH.
Qed.

Lemma insert_by_key_sorted {A} (kv : ustring * A) (l : list (ustring * A)) :
  Sorted (fun a b => ustring_leb a b = true) l.*1 ->
  Sorted (fun a b => ustring_leb a b = true) (insert_by_key kv l).*1.
Proof.
  induction l as [|kv' l IH]; intros Hs.
  - repeat constructor.
  - cbn [insert_by_key]. destruct (ustring_leb kv.1 kv'.1) eqn:E.
    + rewrite fmap_cons. constructor; [exact Hs|]. constructor. exact E.
    + rewrite fmap_cons in Hs |- *. apply Sorted_inv in Hs as [Hs Hhd].
      constructor; [apply IH, Hs|].
      destruct l as [|kv'' l]; cbn [insert_by_key].
      * constructor. apply ustring_leb_total. exact E.
      * destruct (ustring_leb kv.1 kv''.1).
        -- constructor. apply ustring_leb_total. exact E.
        -- constructor. inversion Hhd. assumption.
Qed.

(** The keys come out of [sort_by_key] in order. *)
Lemma sort_by_key_sorted {A} (l : list (ustring * A)) :
  Sorted (fun a b => ustring_leb a b = true) (sort_by_key l).*1.
Proof.
  unfold sort_by_key. induction l as [|kv l IH]; [constructor|].
  cbn [fold_right]. apply insert_by_key_sorted, IH.
Qed.

Lemma wrap_level (opening closing : string) (level : nat) (parts : list string) :
  wrap None opening closing level parts = wrap None opening closing 0 parts.
Proof. reflexivity. Qed.

Section Encode.

Variable float_repr : string -> string.

(** On a representable value [dumps] with sorted keys returns, and
    writes the text of the value [canon] gives. *)
Lemma encode_render (v : pyval) :
  representable v = true ->
  forall level, encode float_repr true None level v = Ok (render (canon v)).
Proof.
  induction v as [| b | z | lit | u | s | l IH | items IH | name]
    using JsonFacts.pyval_nested_ind; intros Hr level; try discriminate Hr;
    try reflexivity.
  - destruct b; reflexivity.
  - cbn [encode canon render]. unfold encode_str.
    cbn [representable] in Hr. unfold ascii_only in Hr.
    rewrite utf8_decode_ascii by exact Hr. reflexivity.
  - cbn [encode canon render]. cbn [representable] in Hr.
    rewrite forallb_forall in Hr.
    rewrite (sequence_map _ (fun x => render (canon x))).
    + cbn [mbind result_bind]. rewrite map_map. reflexivity.
    + rewrite Forall_forall in IH |- *. intros x Hx.
      apply IH; [exact Hx|]. apply Hr, list_elem_of_In, Hx.
  - cbn [encode canon render]. cbn [representable] in Hr.
    apply andb_true_iff in Hr as [_ Hr]. rewrite forallb_forall in Hr.
    assert (Hmap : map (fun kv => (kv.1, encode float_repr true None (S level) kv.2)) items
                   = map (fun kv => (kv.1, Ok (render kv.2)))
                       (map (fun kv => (kv.1, canon kv.2)) items)).
    { rewrite map_map. apply map_ext_in. intros kv Hkv. cbn [fst snd].
      f_equal. rewrite Forall_forall in IH. apply IH; [apply list_elem_of_In, Hkv|].
      apply Hr, andb_true_iff in Hkv as [_ Hkv]. exact Hkv. }
    rewrite Hmap, (sort_by_key_map (fun x => Ok (render x))), map_map.
    rewrite (sequence_map _
               (fun kv => encode_basestring_ascii kv.1 ++ ": " ++ render kv.2)%string).
    + reflexivity.
    + apply Forall_forall. intros kv _. reflexivity.
Qed.

End Encode.

Lemma forallb_perm {A} (f : A -> bool) (l l' : list A) :
  l ≡ₚ l' -> forallb f l = true -> forallb f l' = true.
Proof.
  intros Hp. rewrite !forallb_forall. intros H x Hx. apply H.
  apply list_elem_of_In. rewrite Hp. apply list_elem_of_In, Hx.
Qed.

Lemma canon_items_perm (items : list (ustring * pyval)) :
  sort_by_key (map (fun kv => (kv.1, canon kv.2)) items)
  ≡ₚ map (fun kv => (kv.1, canon kv.2)) items.
Proof. apply JsonFacts.sort_by_key_perm. Qed.

Lemma canon_items_keys (items : list (ustring * pyval)) :
  (sort_by_key (map (fun kv => (kv.1, canon kv.2)) items)).*1 ≡ₚ items.*1.
Proof.
  rewrite canon_items_perm. rewrite <- list_fmap_compose.
  reflexivity.
Qed.

(** [canon] of a representable value is plain. *)
Lemma canon_plain (v : pyval) : representable v = true -> plain (canon v) = true.
Proof.
  induction v as [| b | z | lit | u | s | l IH | items IH | name]
    using JsonFacts.pyval_nested_ind; intros Hr; try discriminate Hr;
    try exact Hr.
  - cbn [canon plain]. cbn [representable] in Hr. unfold ascii_only in Hr.
    rewrite forallb_forall in Hr |- *. intros c Hc.
    specialize (Hr c Hc). unfold scalar.
    apply N.ltb_lt in Hr. apply orb_true_iff. left. apply N.ltb_lt. lia.
  - cbn [canon plain]. cbn [representable] in Hr.
    rewrite forallb_forall in Hr |- *. intros x Hx.
    apply in_map_iff in Hx as (y & <- & Hy).
    rewrite Forall_forall in IH. apply IH; [apply list_elem_of_In, Hy|].
    apply Hr, Hy.
  - cbn [canon plain]. cbn [representable] in Hr.
    apply andb_true_iff in Hr as [Hnd Hr]. apply bool_decide_eq_true in Hnd.
    apply andb_true_iff. split.
    + apply bool_decide_eq_true. rewrite canon_items_keys. exact Hnd.
    + eapply forallb_perm; [symmetry; apply canon_items_perm|].
      rewrite forallb_forall in Hr |- *. intros kv Hkv.
      apply in_map_iff in Hkv as (kv0 & <- & Hkv0). cbv beta. cbn [fst snd].
      specialize (Hr kv0 Hkv0). apply andb_true_iff in Hr as [Hk Hv].
      apply andb_true_iff. split; [exact Hk|]. rewrite Forall_forall in IH.
      apply IH; [apply list_elem_of_In, Hkv0|exact Hv].
Qed.

Lemma fold_and_Forall {A} (P : A -> Prop) (l : list A) :
  fold_right (fun x acc => P x /\ acc) True l <-> Forall P l.
Proof.
  induction l as [|x l IH]; cbn [fold_right].
  - split; constructor.
  - rewrite IH, Forall_cons. reflexivity.
Qed.

(** The keys of every dictionary of [canon v] are in order. *)
Lemma canon_keys_sorted (v : pyval) : keys_sorted (canon v).
Proof.
  induction v as [| b | z | lit | u | s | l IH | items IH | name]
    using JsonFacts.pyval_nested_ind; try exact I.
  - cbn [canon keys_sorted]. apply fold_and_Forall, Forall_map.
    exact IH.
  - cbn [canon keys_sorted]. split; [apply sort_by_key_sorted|].
    apply (fold_and_Forall (fun kv => keys_sorted kv.2)).
    rewrite canon_items_perm. apply Forall_map. exact IH.
Qed.

(** A representable value equals what [canon] gives for it. *)
Lemma canon_deep_equal (v : pyval) :
  representable v = true -> deep_equal v (canon v).
Proof.
  induction v as [| b | z | lit | u | s | l IH | items IH | name]
    using JsonFacts.pyval_nested_ind; intros Hr; try discriminate Hr;
    try (constructor; fail).
  - apply de_str. exact Hr.
  - cbn [canon]. apply de_list. apply Forall2_fmap_r, Forall_Forall2_diag.
    cbn [representable] in Hr. rewrite forallb_forall in Hr.
    rewrite Forall_forall in IH |- *. intros x Hx.
    apply IH; [exact Hx|]. apply Hr, list_elem_of_In, Hx.
  - cbn [canon]. cbn [representable] in Hr.
    apply andb_true_iff in Hr as [Hnd Hr]. apply bool_decide_eq_true in Hnd.
    rewrite forallb_forall in Hr.
    apply (de_dict items (sort_by_key items)); [exact Hnd| |].
    + symmetry. apply JsonFacts.sort_by_key_perm.
    + rewrite sort_by_key_map.
      apply Forall2_fmap_r, Forall_Forall2_diag.
      rewrite JsonFacts.sort_by_key_perm.
      rewrite Forall_forall in IH |- *. intros kv Hkv. cbn [fst snd].
      split; [reflexivity|]. apply IH; [exact Hkv|].
      apply list_elem_of_In, Hr, andb_true_iff in Hkv as [_ Hkv]. exact Hkv.
Qed.

End CanonFacts.

(** ** Reading the text of a value *)


Module LexFacts.
Import Json Spec.

Lemma append_cons (x : ascii) (a b : string) :
  (String x a ++ b = String x (a ++ b))%string.
Proof. reflexivity. Qed.

Lemma append_assoc (a b c : string) :
  ((a ++ b) ++ c = a ++ (b ++ c))%string.
Proof.
  induction a as [|x a IH]; [reflexivity|].
  rewrite !append_cons. f_equal. exact IH.
Qed.

Lemma length_append (a b : string) :
  String.length (a ++ b) = (String.length a + String.length b)%nat.
Proof.
  induction a as [|x a IH]; [reflexivity|].
  rewrite append_cons. cbn [String.length]. rewrite IH. reflexivity.
Qed.

Lemma prepend_prepend (a b : list token) (r : option (list token)) :
  prepend a (prepend b r) = prepend (a ++ b)%list r.
Proof. destruct r; [|reflexivity]. simpl. rewrite app_assoc. reflexivity. Qed.

Lemma prepend_nil (r : option (list token)) : prepend [] r = r.
Proof. destruct r; reflexivity. Qed.

(** The characters of a token just read are passed over. *)
Lemma lex_skip (pre rest : string) :
  lex (String.length pre) (pre ++ rest) = lex 0 rest.
Proof. induction pre as [|c pre IH]; [reflexivity|]. exact IH. Qed.

(** A token at the start of a text, then the tokens of the rest. *)
Lemma lex_token (c : ascii) (pre rest : string) (t : token) :
  is_ws c = false ->
  lex_at (String c (pre ++ rest)) = Some (t, S (String.length pre)) ->
  lex 0 (String c (pre ++ rest)) = prepend [t] (lex 0 rest).
Proof.
  intros Hws Hat. cbn [lex]. rewrite Hws, Hat.
  cbn [mbind option_bind Nat.pred]. rewrite lex_skip.
  destruct (lex 0 rest); reflexivity.
Qed.

Lemma lex_whitespace (c : ascii) (rest : string) :
  is_ws c = true -> lex 0 (String c rest) = lex 0 rest.
Proof. intros H. cbn [lex]. rewrite H. reflexivity. Qed.

Lemma lex_open_bracket rest : lex 0 ("[" ++ rest) = prepend [TLBracket] (lex 0 rest).
Proof. apply (lex_token "[" "" rest); reflexivity. Qed.

Lemma lex_close_bracket rest : lex 0 ("]" ++ rest) = prepend [TRBracket] (lex 0 rest).
Proof. apply (lex_token "]" "" rest); reflexivity. Qed.

Lemma lex_open_brace rest : lex 0 ("{" ++ rest) = prepend [TLBrace] (lex 0 rest).
Proof. apply (lex_token "{" "" rest); reflexivity. Qed.

Lemma lex_close_brace rest : lex 0 ("}" ++ rest) = prepend [TRBrace] (lex 0 rest).
Proof. apply (lex_token "}" "" rest); reflexivity. Qed.

Lemma lex_item_separator rest : lex 0 (", " ++ rest) = prepend [TComma] (lex 0 rest).
Proof.
  change (", " ++ rest)%string with (String "," ("" ++ String " " rest)).
  rewrite (lex_token "," "" (String " " rest) TComma) by reflexivity.
  rewrite lex_whitespace by reflexivity. reflexivity.
Qed.

Lemma lex_key_separator rest : lex 0 (": " ++ rest) = prepend [TColon] (lex 0 rest).
Proof.
  change (": " ++ rest)%string with (String ":" ("" ++ String " " rest)).
  rewrite (lex_token ":" "" (String " " rest) TColon) by reflexivity.
  rewrite lex_whitespace by reflexivity. reflexivity.
Qed.

Lemma prefix_append (p rest : string) : String.prefix p (p ++ rest) = true.
Proof.
  induction p as [|c p IH]; [destruct rest; reflexivity|].
  rewrite append_cons. cbn [String.prefix].
  destruct (ascii_dec c c); [exact IH|congruence].
Qed.

Lemma lex_null rest : lex 0 ("null" ++ rest) = prepend [TNull] (lex 0 rest).
Proof.
  apply (lex_token "n" "ull" rest); [reflexivity|].
  unfold lex_at. simpl (Ascii.eqb _ _).
  change (String "n" ("ull" ++ rest)) with ("null" ++ rest)%string.
  rewrite prefix_append. reflexivity.
Qed.

Lemma lex_true rest : lex 0 ("true" ++ rest) = prepend [TTrue] (lex 0 rest).
Proof.
  apply (lex_token "t" "rue" rest); [reflexivity|].
  unfold lex_at. simpl (Ascii.eqb _ _).
  change (String "t" ("rue" ++ rest)) with ("true" ++ rest)%string.
  rewrite prefix_append.
  replace (String.prefix "null" ("true" ++ rest)) with false by reflexivity.
  reflexivity.
Qed.

Lemma lex_false rest : lex 0 ("false" ++ rest) = prepend [TFalse] (lex 0 rest).
Proof.
  apply (lex_token "f" "alse" rest); [reflexivity|].
  unfold lex_at. simpl (Ascii.eqb _ _).
  change (String "f" ("alse" ++ rest)) with ("false" ++ rest)%string.
  rewrite prefix_append.
  replace (String.prefix "null" ("false" ++ rest)) with false by reflexivity.
  replace (String.prefix "true" ("false" ++ rest)) with false by reflexivity.
  reflexivity.
Qed.

(** *** String literals *)

Lemma all_from_spec (P : N -> bool) (count : nat) (start n : N) :
  all_from P start count = true ->
  (start <= n < start + N.of_nat count)%N -> P n = true.
Proof.
  revert start. induction count as [|k IH]; intros start H Hn; [lia|].
  cbn [all_from] in H. apply andb_true_iff in H as [H0 H].
  destruct (N.eq_dec n start) as [->|Hne]; [exact H0|].
  apply (IH (N.succ start)); [exact H|lia].
Qed.

Lemma below_forall (P : N -> bool) (k : N) :
  all_from P 0 (N.to_nat k) = true -> forall n, (n < k)%N -> P n = true.
Proof. intros H n Hn. apply (all_from_spec P (N.to_nat k) 0 n H). lia. Qed.

Lemma hex_digit_value (d : N) :
  (d < 16)%N -> hex_value (hex_digit d) = Some d.
Proof.
  intros H.
  assert (G : (if hex_value (hex_digit d) is Some d' then (d' =? d)%N else false)
              = true).
  { revert d H. apply (below_forall _ 16). vm_compute. reflexivity. }
  destruct (hex_value (hex_digit d)) as [d'|]; [|discriminate].
  apply N.eqb_eq in G. congruence.
Qed.

Lemma hex4_digits (n : N) :
  (n < 65536)%N ->
  ((N.shiftr n 12 mod 16) * 4096 + (N.shiftr n 8 mod 16) * 256
   + (N.shiftr n 4 mod 16) * 16 + n mod 16 = n)%N.
Proof.
  intros H. rewrite !N.shiftr_div_pow2.
  change (2 ^ 12)%N with 4096%N. change (2 ^ 8)%N with 256%N.
  change (2 ^ 4)%N with 16%N.
  pose proof (N.div_mod n 16 ltac:(lia)) as E0.
  pose proof (N.div_mod (n / 16) 16 ltac:(lia)) as E1.
  pose proof (N.div_mod (n / 256) 16 ltac:(lia)) as E2.
  replace (n / 16 / 16)%N with (n / 256)%N in E1
    by (rewrite N.Div0.div_div; reflexivity).
  replace (n / 256 / 16)%N with (n / 4096)%N in E2
    by (rewrite N.Div0.div_div; reflexivity).
  assert (n / 4096 < 16)%N by (apply N.Div0.div_lt_upper_bound; lia).
  rewrite (N.mod_small (n / 4096) 16) by assumption.
  lia.
Qed.

(** A [\uXXXX] escape is read as the number it writes. *)
Lemma scan_u_escape (n : N) (tail : string) (us : list sunit) (k : nat) :
  (n < 65536)%N -> scan_string tail = Some (us, k) ->
  scan_string (u_escape n ++ tail) = Some (UEsc n :: us, (6 + k)%nat).
Proof.
  intros Hn Ht. unfold u_escape, hex4. rewrite !append_cons.
  change ("" ++ tail)%string with tail.
  cbn [scan_string]. simpl (Ascii.eqb _ _).
  unfold hex4_value.
  rewrite !hex_digit_value by (apply N.mod_lt; lia).
  cbn [mbind option_bind]. rewrite hex4_digits by exact Hn.
  rewrite Ht. reflexivity.
Qed.

Lemma testbit_small (b : N) (k i : N) :
  (b < 2 ^ k)%N -> (k <= i)%N -> N.testbit b i = false.
Proof.
  intros Hb Hk. destruct (N.eq_dec b 0%N) as [->|Hne]; [apply N.bits_0|].
  apply N.bits_above_log2. apply N.log2_lt_pow2; [lia|].
  eapply N.lt_le_trans; [exact Hb|]. apply N.pow_le_mono_r; lia.
Qed.

Lemma lor_shiftl_add (a b k : N) :
  (b < 2 ^ k)%N -> N.lor (N.shiftl a k) b = (N.shiftl a k + b)%N.
Proof.
  intros Hb.
  assert (Hland : N.land (N.shiftl a k) b = 0%N).
  { apply N.bits_inj_0. intros i. rewrite N.land_spec.
    destruct (N.lt_ge_cases i k) as [Hlt|Hge].
    - rewrite N.shiftl_spec_low by exact Hlt. reflexivity.
    - rewrite (testbit_small b k i Hb Hge). apply andb_false_r. }
  rewrite <- N.lxor_lor by exact Hland.
  symmetry. apply N.add_nocarry_lxor. exact Hland.
Qed.

Lemma high_surrogate_value (n : N) :
  (n < 1048576)%N ->
  N.lor 55296 (N.land (N.shiftr n 10) 1023) = (55296 + n / 1024)%N.
Proof.
  intros Hn. change 1023%N with (N.ones 10). rewrite N.land_ones.
  rewrite N.shiftr_div_pow2. change (2 ^ 10)%N with 1024%N.
  assert (n / 1024 < 1024)%N by (apply N.Div0.div_lt_upper_bound; lia).
  rewrite N.mod_small by assumption.
  change 55296%N with (N.shiftl 54 10). apply lor_shiftl_add. assumption.
Qed.

Lemma low_surrogate_value (n : N) :
  N.lor 56320 (N.land n 1023) = (56320 + n mod 1024)%N.
Proof.
  change 1023%N with (N.ones 10). rewrite N.land_ones.
  change (2 ^ 10)%N with 1024%N.
  change 56320%N with (N.shiftl 55 10). apply lor_shiftl_add.
  apply N.mod_lt. lia.
Qed.

Lemma is_high_surrogate_range (h : N) :
  (h < 1024)%N -> is_high_surrogate (55296 + h) = true.
Proof. revert h. apply (below_forall _ 1024). vm_compute. reflexivity. Qed.

Lemma is_low_surrogate_range (l : N) :
  (l < 1024)%N -> is_low_surrogate (56320 + l) = true.
Proof. revert l. apply (below_forall _ 1024). vm_compute. reflexivity. Qed.

Lemma scalar_not_high (c : N) :
  (c < 65536)%N -> scalar c = true -> is_high_surrogate c = false.
Proof.
  intros Hc Hs.
  assert (G : implb (scalar c) (negb (is_high_surrogate c)) = true).
  { revert c Hc Hs. intros c Hc _. revert c Hc.
    apply (below_forall _ 65536). vm_compute. reflexivity. }
  rewrite Hs in G. simpl in G. apply negb_true_iff in G. exact G.
Qed.

Lemma join_pair (n : N) :
  (n < 1048576)%N ->
  (65536 + N.lor (N.shiftl (55296 + n / 1024 - 55296) 10)
             (56320 + n mod 1024 - 56320) = 65536 + n)%N.
Proof.
  intros Hn.
  rewrite (N.add_comm 55296), (N.add_comm 56320), !N.add_sub.
  rewrite lor_shiftl_add by (apply N.mod_lt; lia).
  rewrite N.shiftl_mul_pow2. change (2 ^ 10)%N with 1024%N.
  pose proof (N.div_mod n 1024 ltac:(lia)). lia.
Qed.

Lemma scan_surrogate_pair (c : N) (tail : string) (us : list sunit) (k : nat) :
  scalar c = true -> scan_string tail = Some (us, k) -> (65536 <= c)%N ->
  scan_string
    ((u_escape (N.lor 55296 (N.land (N.shiftr (c - 65536) 10) 1023))
      ++ u_escape (N.lor 56320 (N.land (c - 65536) 1023))) ++ tail)
  = Some ((UEsc (N.lor 55296 (N.land (N.shiftr (c - 65536) 10) 1023))
           :: UEsc (N.lor 56320 (N.land (c - 65536) 1023)) :: us),
          (String.length
             (u_escape (N.lor 55296 (N.land (N.shiftr (c - 65536) 10) 1023))
              ++ u_escape (N.lor 56320 (N.land (c - 65536) 1023))) + k)%nat).
Proof.
  intros Hs Ht Hge.
  assert (Hn : (c - 65536 < 1048576)%N).
  { unfold scalar in Hs. apply orb_true_iff in Hs as [Hs|Hs].
    - apply N.ltb_lt in Hs. lia.
    - apply andb_true_iff in Hs as [_ Hs]. apply N.ltb_lt in Hs. lia. }
  assert (Hdiv : ((c - 65536) / 1024 < 1024)%N)
    by (apply N.Div0.div_lt_upper_bound; lia).
  pose proof (N.mod_lt (c - 65536) 1024 ltac:(lia)) as Hmod.
  rewrite append_assoc.
  rewrite (scan_u_escape _ _ (UEsc (N.lor 56320 (N.land (c - 65536) 1023)) :: us)
             (6 + k)).
  - reflexivity.
  - rewrite high_surrogate_value by exact Hn. lia.
  - apply scan_u_escape; [|exact Ht].
    rewrite low_surrogate_value. lia.
Qed.

(** The characters read for a scalar value join to that value. *)
Lemma join_units_of (c : N) (r : list sunit) :
  scalar c = true ->
  join_surrogates (units_of c ++ r) = c :: join_surrogates r.
Proof.
  intros Hs. unfold units_of.
  destruct (short_escaped c || printable c); [reflexivity|].
  destruct (N.ltb_spec c 65536) as [Hlt|Hge].
  - cbn [app join_surrogates].
    rewrite (scalar_not_high c Hlt Hs).
    destruct r as [|[n2|n2] r2]; reflexivity.
  - assert (Hn : (c - 65536 < 1048576)%N).
    { unfold scalar in Hs. apply orb_true_iff in Hs as [Hs|Hs].
      - apply N.ltb_lt in Hs. lia.
      - apply andb_true_iff in Hs as [_ Hs]. apply N.ltb_lt in Hs. lia. }
    cbv zeta. rewrite high_surrogate_value, low_surrogate_value by exact Hn.
    cbn [app join_surrogates].
    rewrite is_high_surrogate_range
      by (apply N.Div0.div_lt_upper_bound; lia).
    rewrite is_low_surrogate_range by (apply N.mod_lt; lia).
    cbn [andb]. rewrite join_pair by exact Hn.
    f_equal. lia.
Qed.

Lemma eqb_ascii_of_N (c : N) (a : ascii) :
  (c < 256)%N -> c <> N_of_ascii a -> Ascii.eqb (ascii_of_N c) a = false.
Proof.
  intros Hc Hne. apply Ascii.eqb_neq. intros <-.
  apply Hne. symmetry. apply N_ascii_embedding. exact Hc.
Qed.

Ltac scan_short Ht :=
  rewrite !append_cons; change (EmptyString ++ ?t)%string with t;
  cbn [scan_string]; simpl (Ascii.eqb _ _);
  unfold simple_escape; simpl (Ascii.eqb _ _);
  cbn [mbind option_bind]; rewrite Ht; reflexivity.

(** The text of a character is read as that character. *)
Lemma scan_escape_char (c : N) (tail : string) (us : list sunit) (k : nat) :
  scalar c = true -> scan_string tail = Some (us, k) ->
  scan_string (escape_char c ++ tail)
  = Some ((units_of c ++ us)%list, (String.length (escape_char c) + k)%nat).
Proof.
  intros Hs Ht. unfold escape_char, units_of, short_escaped.
  destruct (N.eqb_spec c 34) as [->|H34]; [scan_short Ht|].
  destruct (N.eqb_spec c 92) as [->|H92]; [scan_short Ht|].
  destruct (N.eqb_spec c 10) as [->|H10]; [scan_short Ht|].
  destruct (N.eqb_spec c 13) as [->|H13]; [scan_short Ht|].
  destruct (N.eqb_spec c 9) as [->|H9]; [scan_short Ht|].
  destruct (N.eqb_spec c 12) as [->|H12]; [scan_short Ht|].
  destruct (N.eqb_spec c 8) as [->|H8]; [scan_short Ht|].
  cbn [orb]. unfold printable.
  destruct (N.leb_spec 32 c) as [Hlo|Hlo]; cbn [andb].
  - destruct (N.leb_spec c 126) as [Hhi|Hhi].
    + rewrite append_cons. change ("" ++ tail)%string with tail.
      cbn [scan_string].
      rewrite (eqb_ascii_of_N c dquote), (eqb_ascii_of_N c backslash)
        by (assumption || lia).
      rewrite N_ascii_embedding by lia.
      destruct (N.ltb_spec c 32); [lia|]. rewrite Ht. reflexivity.
    + destruct (N.ltb_spec c 65536) as [Hlt|Hge].
      * rewrite (scan_u_escape c tail us k Hlt Ht). reflexivity.
      * apply scan_surrogate_pair; assumption.
  - destruct (N.ltb_spec c 65536) as [Hlt|Hge]; [|lia].
    rewrite (scan_u_escape c tail us k Hlt Ht). reflexivity.
Qed.


Lemma scan_body (u : ustring) (rest : string) :
  forallb scalar u = true ->
  scan_string (string_body u ++ rest)
  = Some (concat (map units_of u), String.length (string_body u)).
Proof.
  induction u as [|c u IH]; intros Hu.
  - reflexivity.
  - cbn [forallb] in Hu. apply andb_true_iff in Hu as [Hc Hu].
    change (string_body (c :: u)) with (escape_char c ++ string_body u)%string.
    rewrite append_assoc.
    rewrite (scan_escape_char c _ _ _ Hc (IH Hu)).
    rewrite length_append. reflexivity.
Qed.

Lemma join_units (u : ustring) :
  forallb scalar u = true -> join_surrogates (concat (map units_of u)) = u.
Proof.
  induction u as [|c u IH]; intros Hu; [reflexivity|].
  cbn [forallb] in Hu. apply andb_true_iff in Hu as [Hc Hu].
  cbn [map concat]. rewrite (join_units_of c _ Hc), (IH Hu). reflexivity.
Qed.

(** Decoding leaves ASCII characters as they are. *)
Lemma decode_chunks_ascii (chunk : list N) (us : list sunit) :
  forallb (fun c => (c <? 128)%N) chunk = true ->
  forallb ascii_unit us = true ->
  decode_chunks chunk us = Some (map UChar (rev chunk) ++ us)%list.
Proof.
  revert chunk. induction us as [|[n|n] us IH]; intros chunk Hc Hus.
  - cbn [decode_chunks]. rewrite CanonFacts.utf8_decode_ascii.
    + cbn. rewrite app_nil_r. reflexivity.
    + rewrite forallb_forall in Hc |- *. intros x Hx.
      apply Hc, in_rev, Hx.
  - cbn [forallb ascii_unit] in Hus. apply andb_true_iff in Hus as [Hn Hus].
    cbn [decode_chunks]. rewrite IH.
    + cbn [rev]. rewrite map_app, <- app_assoc. reflexivity.
    + cbn [forallb]. rewrite Hn, Hc. reflexivity.
    + exact Hus.
  - cbn [forallb ascii_unit] in Hus.
    cbn [decode_chunks]. rewrite CanonFacts.utf8_decode_ascii.
    + cbn [mbind option_bind]. rewrite (IH [] eq_refl Hus). reflexivity.
    + rewrite forallb_forall in Hc |- *. intros x Hx.
      apply Hc, in_rev, Hx.
Qed.

Lemma units_of_ascii (c : N) : forallb ascii_unit (units_of c) = true.
Proof.
  unfold units_of, short_escaped, printable.
  destruct (_ || _)%bool eqn:E; [|destruct (c <? 65536)%N; reflexivity].
  cbn [forallb ascii_unit]. rewrite andb_true_r. apply N.ltb_lt.
  repeat (apply orb_true_iff in E as [E|E]);
    try (apply N.eqb_eq in E; subst c; reflexivity).
  apply andb_true_iff in E as [_ E]. apply N.leb_le in E. lia.
Qed.

Lemma text_of_units_of (u : ustring) :
  forallb scalar u = true -> text_of_units (concat (map units_of u)) = Some u.
Proof.
  intros Hu. unfold text_of_units. rewrite decode_chunks_ascii.
  - cbn. rewrite (join_units u Hu). reflexivity.
  - reflexivity.
  - clear Hu. induction u as [|c u IH]; [reflexivity|].
    cbn [map concat]. rewrite forallb_app, units_of_ascii, IH. reflexivity.
Qed.

(** A string literal is read as its text. *)
Lemma lex_string (u : ustring) (rest : string) :
  forallb scalar u = true ->
  lex 0 (encode_basestring_ascii u ++ rest) = prepend [TString u] (lex 0 rest).
Proof.
  intros Hu.
  change (encode_basestring_ascii u) with (String dquote (string_body u)).
  rewrite append_cons.
  apply (lex_token dquote (string_body u) rest (TString u)); [reflexivity|].
  cbn [lex_at]. change (Ascii.eqb dquote dquote) with true. cbv iota.
  rewrite (scan_body u rest Hu). cbn [mbind option_bind].
  rewrite (text_of_units_of u Hu). reflexivity.
Qed.


Lemma slice_from_append (a b : string) :
  Str.slice_from (String.length a) (a ++ b) = b.
Proof. induction a as [|x a IH]; [reflexivity|exact IH]. Qed.

Lemma substring_append (a b : string) :
  String.substring 0 (String.length a) (a ++ b) = a.
Proof.
  induction a as [|x a IH]; [destruct b; reflexivity|].
  rewrite append_cons. cbn [String.length String.substring]. rewrite IH.
  reflexivity.
Qed.

Lemma digits_len_delimited (rest : string) : delimited rest -> digits_len rest = O.
Proof.
  destruct rest as [|c r]; [reflexivity|].
  intros [-> | [-> | ->] ]; reflexivity.
Qed.

Lemma digits_len_uint (d : Decimal.uint) (rest : string) :
  digits_len (NilEmpty.string_of_uint d ++ rest)
  = (String.length (NilEmpty.string_of_uint d) + digits_len rest)%nat.
Proof.
  induction d as [|d IH|d IH|d IH|d IH|d IH|d IH|d IH|d IH|d IH|d IH];
    [reflexivity|..];
    cbn [NilEmpty.string_of_uint]; rewrite append_cons;
    cbn [digits_len String.length];
    match goal with |- context [is_digit ?c] => change (is_digit c) with true end;
    cbv iota; rewrite IH; reflexivity.
Qed.

Ltac number_tail :=
  cbn [Str.slice_from];
  repeat match goal with
         | |- context [Ascii.eqb ?a ?b] =>
             let v := eval vm_compute in (Ascii.eqb a b) in
             change (Ascii.eqb a b) with v
         end;
  cbn [orb]; cbv iota; rewrite !Nat.add_0_r; reflexivity.

(** What [lex_number] does once the integer part is known to end
    where the rest of the text starts. *)
Lemma lex_number_tail (neg : bool) (c : ascii) (ds rest : string) :
  is_digit c = true -> Ascii.eqb c "-" = false ->
  (if Ascii.eqb c "0" then 1%nat else digits_len (String c (ds ++ rest)))
    = S (String.length ds) ->
  delimited rest ->
  lex_number ((if neg then "-" else "") ++ String c (ds ++ rest))
  = Some (TInt (if neg then - Z.of_N (N_of_digits (String c ds))
                else Z.of_N (N_of_digits (String c ds))),
          ((if neg then 1 else 0) + S (String.length ds))%nat).
Proof.
  intros Hd Hm Hlen Hrest. unfold lex_number.
  destruct neg.
  - change ("-" ++ String c (ds ++ rest))%string
      with (String "-" (String c (ds ++ rest))).
    cbv iota beta. change (Ascii.eqb "-" "-") with true. cbv iota beta.
    rewrite Hd, Hlen.
    change (Str.slice_from (S (String.length ds)) (String c (ds ++ rest)))
      with (Str.slice_from (String.length ds) (ds ++ rest)).
    rewrite slice_from_append.
    change (String.substring 0 (S (String.length ds)) (String c (ds ++ rest)))
      with (String c (String.substring 0 (String.length ds) (ds ++ rest))).
    rewrite substring_append.
    destruct rest as [|c' r]; [|destruct Hrest as [-> | [-> | ->] ] ];
      number_tail.
  - change ("" ++ String c (ds ++ rest))%string with (String c (ds ++ rest)).
    cbv iota beta. rewrite Hm. cbv iota beta.
    rewrite Hd, Hlen.
    change (Str.slice_from (S (String.length ds)) (String c (ds ++ rest)))
      with (Str.slice_from (String.length ds) (ds ++ rest)).
    rewrite slice_from_append.
    change (String.substring 0 (S (String.length ds)) (String c (ds ++ rest)))
      with (String c (String.substring 0 (String.length ds) (ds ++ rest))).
    rewrite substring_append.
    destruct rest as [|c' r]; [|destruct Hrest as [-> | [-> | ->] ] ];
      number_tail.
Qed.


Lemma nzhead_not_zero (u v : Decimal.uint) : Decimal.nzhead u <> Decimal.D0 v.
Proof.
  induction u; cbn [Decimal.nzhead]; try discriminate. exact IHu.
Qed.

Lemma to_uint_normal (n : N) : Decimal.unorm (N.to_uint n) = N.to_uint n.
Proof.
  rewrite <- (DecimalN.Unsigned.of_to n) at 2.
  symmetry. apply DecimalN.Unsigned.to_of.
Qed.

Lemma normal_zero (u : Decimal.uint) :
  Decimal.unorm (Decimal.D0 u) = Decimal.D0 u -> u = Decimal.Nil.
Proof.
  rewrite unorm_D0. unfold Decimal.unorm.
  destruct (Decimal.nzhead u) eqn:E; try discriminate.
  - intros [= <-]. reflexivity.
  - exfalso. exact (nzhead_not_zero _ _ E).
Qed.

(** The digits of a number: there is one, the first is 0 only when it
    is the only one, and they are read as the number. *)
Lemma str_of_N_shape (n : N) :
  exists c ds, str_of_N n = String c ds
    /\ is_digit c = true
    /\ N_of_digits (String c ds) = n
    /\ forall rest, delimited rest ->
         (if Ascii.eqb c "0" then 1%nat else digits_len (String c (ds ++ rest)))
         = S (String.length ds).
Proof.
  unfold str_of_N.
  assert (Hval : N_of_digits (NilEmpty.string_of_uint (N.to_uint n)) = n).
  { unfold N_of_digits. rewrite NilEmpty.usu. apply DecimalN.Unsigned.of_to. }
  pose proof (to_uint_normal n) as Hn.
  assert (Hlen : forall (c : ascii) (u : Decimal.uint) rest,
            is_digit c = true -> Ascii.eqb c "0" = false -> delimited rest ->
            (if Ascii.eqb c "0" then 1%nat
             else digits_len (String c (NilEmpty.string_of_uint u ++ rest)))
            = S (String.length (NilEmpty.string_of_uint u))).
  { intros c u rest Hc H0 Hrest. rewrite H0. cbn [digits_len]. rewrite Hc.
    rewrite digits_len_uint, (digits_len_delimited rest Hrest), Nat.add_0_r.
    reflexivity. }
  destruct (N.to_uint n) as [|u|u|u|u|u|u|u|u|u|u] eqn:E.
  - exfalso. exact (unorm_nonnil _ Hn).
  - apply normal_zero in Hn. subst u.
    exists "0"%char, EmptyString. split; [reflexivity|]. split; [reflexivity|].
    split; [exact Hval|]. intros rest _. reflexivity.
  - eexists _, _. split; [reflexivity|]. split; [reflexivity|].
    split; [exact Hval|]. intros rest Hrest. apply Hlen; [reflexivity..|exact Hrest].
  - eexists _, _. split; [reflexivity|]. split; [reflexivity|].
    split; [exact Hval|]. intros rest Hrest. apply Hlen; [reflexivity..|exact Hrest].
  - eexists _, _. split; [reflexivity|]. split; [reflexivity|].
    split; [exact Hval|]. intros rest Hrest. apply Hlen; [reflexivity..|exact Hrest].
  - eexists _, _. split; [reflexivity|]. split; [reflexivity|].
    split; [exact Hval|]. intros rest Hrest. apply Hlen; [reflexivity..|exact Hrest].
  - eexists _, _. split; [reflexivity|]. split; [reflexivity|].
    split; [exact Hval|]. intros rest Hrest. apply Hlen; [reflexivity..|exact Hrest].
  - eexists _, _. split; [reflexivity|]. split; [reflexivity|].
    split; [exact Hval|]. intros rest Hrest. apply Hlen; [reflexivity..|exact Hrest].
  - eexists _, _. split; [reflexivity|]. split; [reflexivity|].
    split; [exact Hval|]. intros rest Hrest. apply Hlen; [reflexivity..|exact Hrest].
  - eexists _, _. split; [reflexivity|]. split; [reflexivity|].
    split; [exact Hval|]. intros rest Hrest. apply Hlen; [reflexivity..|exact Hrest].
  - eexists _, _. split; [reflexivity|]. split; [reflexivity|].
    split; [exact Hval|]. intros rest Hrest. apply Hlen; [reflexivity..|exact Hrest].
Qed.

Lemma digit_facts (c : ascii) :
  is_digit c = true ->
  Ascii.eqb c "-" = false /\ is_ws c = false
  /\ forall r t, lex_number (String c r) = Some t -> lex_at (String c r) = Some t.
Proof.
  destruct c as [[] [] [] [] [] [] [] []]; intros H;
    try (vm_compute in H; discriminate H);
    (split; [reflexivity|]; split; [reflexivity|]);
    intros r t Ht; cbn [lex_at];
    repeat match goal with
           | |- context [Ascii.eqb ?a ?b] =>
               let v := eval vm_compute in (Ascii.eqb a b) in
               change (Ascii.eqb a b) with v
           end;
    cbv iota; cbn [String.prefix];
    repeat match goal with
           | |- context [ascii_dec ?a ?b] =>
               let v := eval vm_compute in (if ascii_dec a b then true else false) in
               destruct (ascii_dec a b); [discriminate|]
           end;
    rewrite Ht; reflexivity.
Qed.

Lemma minus_facts (r : string) (t : token * nat) :
  lex_number (String "-" r) = Some t -> lex_at (String "-" r) = Some t.
Proof.
  intros Ht. cbn [lex_at].
  repeat match goal with
         | |- context [Ascii.eqb ?a ?b] =>
             let v := eval vm_compute in (Ascii.eqb a b) in
             change (Ascii.eqb a b) with v
         end.
  cbv iota. cbn [String.prefix].
  repeat match goal with
         | |- context [ascii_dec ?a ?b] =>
             destruct (ascii_dec a b); [discriminate|]
         end.
  rewrite Ht. reflexivity.
Qed.

(** An integer is read as its value. *)
Lemma lex_int (z : Z) (rest : string) :
  delimited rest ->
  lex 0 (str_of_Z z ++ rest) = prepend [TInt z] (lex 0 rest).
Proof.
  intros Hrest. unfold str_of_Z.
  destruct (Z.ltb_spec z 0) as [Hneg|Hpos].
  - destruct (str_of_N_shape (Z.abs_N z)) as (c & ds & -> & Hc & Hval & Hlen).
    destruct (digit_facts c Hc) as (Hm & _ & _).
    pose proof (lex_number_tail true c ds rest Hc Hm (Hlen rest Hrest) Hrest) as Hn.
    rewrite Hval in Hn.
    replace (- Z.of_N (Z.abs_N z)) with z in Hn by lia.
    change ("-" ++ String c (ds ++ rest))%string
      with (String "-" (String c ds ++ rest)) in Hn.
    rewrite append_cons.
    apply (lex_token "-" (String c ds) rest (TInt z)); [reflexivity|].
    apply minus_facts. exact Hn.
  - destruct (str_of_N_shape (Z.to_N z)) as (c & ds & -> & Hc & Hval & Hlen).
    destruct (digit_facts c Hc) as (Hm & Hws & Hat).
    pose proof (lex_number_tail false c ds rest Hc Hm (Hlen rest Hrest) Hrest) as Hn.
    rewrite Hval in Hn.
    replace (Z.of_N (Z.to_N z)) with z in Hn by lia.
    rewrite append_cons.
    apply (lex_token c ds rest (TInt z)); [exact Hws|].
    apply Hat. exact Hn.
Qed.


Lemma lex_join (texts : list string) (groups : list (list token))
    (rest : string) :
  Forall2 reads_as texts groups -> delimited rest ->
  lex 0 (Str.join ", " texts ++ rest)
  = prepend (comma_separated groups) (lex 0 rest).
Proof.
  induction 1 as [|text g texts groups Hr Hrest IH]; intros Hd.
  - cbn. rewrite prepend_nil. reflexivity.
  - destruct Hrest as [|text' g' texts' groups' Hr' Hrest'].
    + cbn [Str.join comma_separated]. apply Hr, Hd.
    + change (Str.join ", " (text :: text' :: texts'))
        with (text ++ ", " ++ Str.join ", " (text' :: texts'))%string.
      change (comma_separated (g :: g' :: groups'))
        with (g ++ TComma :: comma_separated (g' :: groups'))%list.
      rewrite !append_assoc.
      rewrite Hr by (left; reflexivity).
      rewrite lex_item_separator, (IH Hd), !prepend_prepend.
      rewrite <- app_assoc. reflexivity.
Qed.

Lemma lex_wrap (opening closing : string) (t_open t_close : token)
    (texts : list string) (groups : list (list token)) :
  (forall rest, lex 0 (opening ++ rest) = prepend [t_open] (lex 0 rest)) ->
  (forall rest, lex 0 (closing ++ rest) = prepend [t_close] (lex 0 rest)) ->
  delimited closing ->
  Forall2 reads_as texts groups ->
  reads_as (wrap None opening closing 0 texts)
    (t_open :: comma_separated groups ++ [t_close])%list.
Proof.
  intros Hopen Hclose Hdc Hall rest Hd. unfold wrap.
  destruct Hall as [|text g texts groups Hr Hall].
  - rewrite append_assoc, Hopen, Hclose, prepend_prepend. reflexivity.
  - rewrite !append_assoc, Hopen.
    rewrite (lex_join (text :: texts) (g :: groups)).
    + rewrite Hclose, !prepend_prepend. reflexivity.
    + constructor; assumption.
    + destruct closing as [|c closing]; [exact Hd|exact Hdc].
Qed.

(** The text of a value is read as its tokens. *)
Lemma lex_render (w : pyval) : plain w = true -> reads_as (render w) (tokens w).
Proof.
  induction w as [|b|z|lit|u|s|l IH|items IH|name]
    using JsonFacts.pyval_nested_ind; intros Hp; try discriminate Hp.
  - intros rest _. apply lex_null.
  - intros rest _. destruct b; [apply lex_true|apply lex_false].
  - intros rest Hd. apply lex_int, Hd.
  - intros rest _. apply lex_string, Hp.
  - cbn [render tokens]. cbn [plain] in Hp.
    apply (lex_wrap "[" "]" TLBracket TRBracket);
      [apply lex_open_bracket|apply lex_close_bracket|right; left; reflexivity|].
    apply Forall2_fmap, Forall_Forall2_diag.
    rewrite forallb_forall in Hp. rewrite Forall_forall in IH |- *.
    intros x Hx. apply IH; [exact Hx|]. apply Hp, list_elem_of_In, Hx.
  - cbn [render tokens]. cbn [plain] in Hp.
    apply andb_true_iff in Hp as [_ Hp].
    apply (lex_wrap "{" "}" TLBrace TRBrace);
      [apply lex_open_brace|apply lex_close_brace|right; right; reflexivity|].
    apply Forall2_fmap, Forall_Forall2_diag.
    rewrite forallb_forall in Hp. rewrite Forall_forall in IH |- *.
    intros [k v] Hx. specialize (Hp _ (proj1 (list_elem_of_In _ _) Hx)).
    apply andb_true_iff in Hp as [Hk Hv]. cbn [fst snd] in *.
    intros rest Hd. cbv beta. cbn [fst snd].
    pose proof (IH _ Hx Hv rest Hd) as Hv'. cbn [snd] in Hv'.
    rewrite !append_assoc, (lex_string k _ Hk), lex_key_separator.
    rewrite Hv', !prepend_prepend. reflexivity.
Qed.

(** What [dumps] writes for a value is read back by [loads]. *)
Lemma loads_render (w : pyval) : plain w = true -> loads (render w) = Ok w.
Proof.
  intros Hp. unfold loads.
  pose proof (lex_render w Hp "" I) as Hl.
  replace (render w ++ "")%string with (render w) in Hl.
  - rewrite Hl. cbn [lex prepend]. rewrite app_nil_r.
    rewrite (ParseFacts.parse_tokens w Hp). reflexivity.
  - clear. induction (render w) as [|c s IH]; [reflexivity|].
    rewrite append_cons, <- IH. reflexivity.
Qed.

End LexFacts.

(** ** The stored bodies *)

Module RoundTripFacts.
Import Json Exchange Spec Examples.

Section Stored.

Variable py_str : pyval -> string.
Variable float_repr : string -> string.
Variable normalize_request_payload : http_request -> pyval.
Variable highlight : string -> string.

Lemma serialize_representable (v : pyval) :
  representable v = true ->
  serialize py_str float_repr v = Ok (render (canon v)).
Proof.
  intros Hr. unfold serialize, dumps.
  rewrite (CanonFacts.encode_render float_repr v Hr). reflexivity.
Qed.

Lemma build_bodies uuid now req resp related_object payload obj :
  build py_str float_repr normalize_request_payload
    uuid now req resp related_object payload = Ok obj ->
  serialize py_str float_repr
    (request_payload normalize_request_payload req payload)
    = Ok (request_body obj)
  /\ serialize py_str float_repr (response_payload resp)
     = Ok (response_body obj).
Proof.
  unfold build, mbind, result_bind.
  fold (request_payload normalize_request_payload req payload).
  fold (response_payload resp).
  destruct (serialize _ _ (request_payload _ req payload)) as [rb|e];
    [|discriminate].
  destruct (serialize _ _ (response_payload resp)) as [sb|e]; [|discriminate].
  intros [= <-]. split; reflexivity.
Qed.

(** X16. When the payload [from_exchange] serializes has a JSON form
    (no float, no object without an encoding, text of scalar values,
    ASCII byte strings, distinct keys), [json.loads] of the stored
    body returns a value that is equal to the payload, with the keys
    of every dictionary in order.  This holds of the request body and
    of the response body. *)
Theorem stored_bodies_round_trip uuid now req resp related_object payload
    t obj t'
    (H : from_exchange py_str float_repr normalize_request_payload
           uuid now req resp related_object payload t = Ok (obj, t')) :
  let sent := request_payload normalize_request_payload req payload in
  let answered := response_payload resp in
  (representable sent = true ->
     loads (request_body obj) = Ok (canon sent)
     /\ deep_equal sent (canon sent) /\ keys_sorted (canon sent))
  /\ (representable answered = true ->
        loads (response_body obj) = Ok (canon answered)
        /\ deep_equal answered (canon answered)
        /\ keys_sorted (canon answered)).
Proof.
  intros sent answered.
  apply HeaderFacts.from_exchange_inv in H as (Hb & _).
  apply build_bodies in Hb as [Hreq Hresp].
  fold sent in Hreq. fold answered in Hresp.
  split; intros Hr.
  - rewrite (serialize_representable _ Hr) in Hreq. injection Hreq as <-.
    split; [apply LexFacts.loads_render, CanonFacts.canon_plain, Hr|].
    split; [apply CanonFacts.canon_deep_equal, Hr|apply CanonFacts.canon_keys_sorted].
  - rewrite (serialize_representable _ Hr) in Hresp. injection Hresp as <-.
    split; [apply LexFacts.loads_render, CanonFacts.canon_plain, Hr|].
    split; [apply CanonFacts.canon_deep_equal, Hr|apply CanonFacts.canon_keys_sorted].
Qed.


End Stored.

Lemma stored_bodies_round_trip_witness :
  match
    from_exchange str_of same_literal no_payload
      1%N 1000 bare_request ok_response (RelIntegration 7) push_payload []
  with
  | Ok (obj, _) =>
      representable push_payload = true
      /\ loads (request_body obj) = Ok (canon push_payload)
  | Raise _ => False
  end.
Proof.
  destruct (from_exchange _ _ _ _ _ _ _ _ _ _) as [[obj t']|e] eqn:H;
    [|vm_compute in H; discriminate H].
  assert (Hr : representable push_payload = true) by (vm_compute; reflexivity).
  split; [exact Hr|].
  exact (proj1 (proj1 (stored_bodies_round_trip _ _ _ _ _ _ _ _ _ _ _ _ H)
                  Hr)).
Defined.


End RoundTripFacts.

(** ** The round trip of the request body *)

Module RequestBodyFacts.
Import Json Exchange Spec Examples.
Local Open Scope list_scope.

Section Stored.

Variable py_str : pyval -> string.
Variable float_repr : string -> string.
Variable normalize_request_payload : http_request -> pyval.


End Stored.



End RequestBodyFacts.

(** ** The limit on stored exchanges *)

Module TrimFacts.
Import Exchange Spec Examples RetentionFacts.
Local Open Scope list_scope.

Lemma insert_by_date_perm (e : HttpExchange) (l : list HttpExchange) :
  insert_by_date e l ≡ₚ e :: l.
Proof.
  induction l as [|a l IH]; [reflexivity|].
  simpl. destruct (date a <=? date e); [reflexivity|].
  rewrite IH. apply Permutation_swap.
Qed.

Lemma order_by_date_desc_perm (l : list HttpExchange) :
  order_by_date_desc l ≡ₚ l.
Proof.
  induction l as [|a l IH]; [reflexivity|].
  cbn [order_by_date_desc fold_right].
  rewrite insert_by_date_perm. constructor. exact IH.
Qed.

Lemma insert_by_date_sorted (e : HttpExchange) (l : list HttpExchange) :
  StronglySorted newest_first l -> StronglySorted newest_first (insert_by_date e l).
Proof.
  induction 1 as [|a l Hs IH Ha]; [repeat constructor|].
  simpl. destruct (Z.leb_spec (date a) (date e)) as [Hle|Hlt].
  - constructor; [constructor; assumption|].
    constructor; [exact Hle|].
    eapply Forall_impl; [exact Ha|]. unfold newest_first. intros; lia.
  - constructor; [exact IH|].
    rewrite insert_by_date_perm. constructor; [unfold newest_first; lia|exact Ha].
Qed.

Lemma order_by_date_desc_sorted (l : list HttpExchange) :
  StronglySorted newest_first (order_by_date_desc l).
Proof.
  induction l as [|a l IH]; [constructor|].
  cbn [order_by_date_desc fold_right]. apply insert_by_date_sorted, IH.
Qed.

Lemma delete_limit_as_filter (r : related) (n : nat) (t : table) :
  delete_limit r n t =
    filter (fun e => id e ∉ id <$> drop n (related_queryset r t)) t.
Proof. unfold delete_limit. apply fold_delete. Qed.

Lemma owned_delete_limit (r : related) (n : nat) (t : table) (key : owner) :
  owned key (delete_limit r n t) =
    filter (fun e => id e ∉ id <$> drop n (related_queryset r t)) (owned key t).
Proof.
  rewrite delete_limit_as_filter. unfold owned. apply filter_comm.
Qed.

Lemma filter_none {A} (P : A -> Prop) `{!forall x, Decision (P x)} (l : list A) :
  Forall (fun x => ~ P x) l -> filter P l = [].
Proof.
  induction 1 as [|x l Hx _ IH]; [reflexivity|].
  rewrite filter_cons_False by exact Hx. exact IH.
Qed.

Lemma queryset_perm (r : related) (t : table) :
  related_queryset r t ≡ₚ owned (related_key r) t.
Proof. rewrite related_queryset_owned. apply order_by_date_desc_perm. Qed.

Lemma filter_notin_app (kept gone : list HttpExchange) :
  filter (fun e => id e ∉ id <$> gone) (kept ++ gone)
  = filter (fun e => id e ∉ id <$> gone) kept.
Proof.
  rewrite filter_app, (filter_none _ gone); [apply app_nil_r|].
  apply Forall_forall. intros e He Hn. apply Hn.
  apply list_elem_of_fmap. eauto.
Qed.

Lemma owned_delete_limit_take (r : related) (n : nat) (t : table) :
  let q := related_queryset r t in
  owned (related_key r) (delete_limit r n t)
  ≡ₚ filter (fun e => id e ∉ id <$> drop n q) (take n q).
Proof.
  intros q. rewrite owned_delete_limit. fold q.
  rewrite <- (filter_notin_app (take n q) (drop n q)), take_drop.
  f_equiv. symmetry. apply queryset_perm.
Qed.

Lemma delete_limit_bound (r : related) (n : nat) (t : table) :
  (length (owned (related_key r) (delete_limit r n t)) <= n)%nat.
Proof.
  rewrite (Permutation_length (owned_delete_limit_take r n t)).
  etransitivity; [apply length_filter|].
  rewrite length_take. lia.
Qed.

Lemma delete_limit_within (r : related) (n : nat) (t : table) :
  (length (owned (related_key r) t) <= n)%nat -> delete_limit r n t = t.
Proof.
  intros Hle. unfold delete_limit.
  rewrite drop_ge; [reflexivity|].
  rewrite (Permutation_length (queryset_perm r t)). exact Hle.
Qed.


Lemma in_drop {A} (x : A) (n : nat) (l : list A) : x ∈ drop n l -> x ∈ l.
Proof. intros H. eapply elem_of_sublist; [exact H|apply sublist_drop]. Qed.

Lemma in_take {A} (x : A) (n : nat) (l : list A) : x ∈ take n l -> x ∈ l.
Proof. intros H. eapply elem_of_sublist; [exact H|apply sublist_take]. Qed.

(** X2. After [delete_limit] the related object has at most [limit]
    exchanges, whatever the dates and the primary keys are, and the
    table holds rows it held before, in their order. *)
Theorem delete_limit_at_most (r : related) (n : nat) (t : table) :
  (length (owned (related_key r) (delete_limit r n t)) <= n)%nat
  /\ delete_limit r n t `sublist_of` t.
Proof. split; [apply delete_limit_bound|apply delete_limit_sublist]. Qed.

(** X3. [delete_limit] deletes nothing when the related object has no
    more than [limit] exchanges. *)
Theorem delete_limit_under_limit (r : related) (n : nat) (t : table)
    (Hle : (length (owned (related_key r) t) <= n)%nat) :
  delete_limit r n t = t.
Proof. apply delete_limit_within, Hle. Qed.

Lemma delete_limit_under_limit_witness :
  (length (owned (related_key (RelIntegration 7)) ten_rows) <= 10)%nat
  /\ delete_limit (RelIntegration 7) 10 ten_rows = ten_rows.
Proof.
  assert (H : (length (owned (related_key (RelIntegration 7)) ten_rows) <= 10)%nat)
    by (vm_compute; lia).
  split; [exact H|].
  exact (delete_limit_under_limit (RelIntegration 7) 10 ten_rows H).
Defined.

(** X4. [delete_limit] is idempotent: a second call with the same
    arguments deletes nothing more. *)
Theorem delete_limit_idempotent (r : related) (n : nat) (t : table) :
  delete_limit r n (delete_limit r n t) = delete_limit r n t.
Proof. apply delete_limit_within, delete_limit_bound. Qed.

Lemma queryset_ids (r : related) (t : table) :
  NoDup (id <$> t) -> NoDup (id <$> related_queryset r t).
Proof.
  intros Hnd. rewrite (queryset_perm r t).
  eapply sublist_NoDup; [exact Hnd|]. apply fmap_sublist, owned_sublist.
Qed.

Lemma queryset_elem (r : related) (t : table) (e : HttpExchange) :
  e ∈ related_queryset r t <->
  e ∈ t /\ (content_type_id e, object_id e) = related_key r.
Proof.
  rewrite (queryset_perm r t). unfold owned.
  rewrite list_elem_of_filter, owned_spec. tauto.
Qed.

(** With distinct primary keys a row goes exactly when it is past
    the limit in the queryset. *)
Lemma delete_limit_elem (r : related) (n : nat) (t : table) (e : HttpExchange) :
  NoDup (id <$> t) -> e ∈ t ->
  (e ∈ delete_limit r n t <-> e ∉ drop n (related_queryset r t)).
Proof.
  intros Hnd He. rewrite delete_limit_as_filter, list_elem_of_filter.
  split.
  - intros [Hid _] Hin. apply Hid. apply list_elem_of_fmap. eauto.
  - intros Hnot. split; [|exact He].
    intros Hin. apply list_elem_of_fmap in Hin as (d & Heq & Hd).
    assert (d ∈ t).
    { apply (queryset_elem r t). eapply in_drop, Hd. }
    assert (e = d) as -> by (apply (same_id_same_row t); assumption).
    exact (Hnot Hd).
Qed.

Lemma delete_limit_gone (r : related) (n : nat) (t : table) (e : HttpExchange) :
  NoDup (id <$> t) -> e ∈ t -> e ∉ delete_limit r n t ->
  e ∈ drop n (related_queryset r t).
Proof.
  intros Hnd He Hgone.
  destruct (decide (id e ∈ id <$> drop n (related_queryset r t))) as [Hin|Hout].
  - apply list_elem_of_fmap in Hin as (d & Heq & Hd).
    assert (d ∈ t).
    { apply (queryset_elem r t). eapply in_drop, Hd. }
    assert (e = d) as -> by (apply (same_id_same_row t); assumption).
    exact Hd.
  - exfalso. apply Hgone. rewrite delete_limit_as_filter.
    apply list_elem_of_filter. split; assumption.
Qed.

Lemma owned_delete_limit_exact (r : related) (n : nat) (t : table) :
  NoDup (id <$> t) ->
  owned (related_key r) (delete_limit r n t) ≡ₚ take n (related_queryset r t).
Proof.
  intros Hnd. rewrite owned_delete_limit_take. cbv zeta.
  rewrite filter_all; [reflexivity|].
  pose proof (queryset_ids r t Hnd) as Hq.
  rewrite <- (take_drop n (related_queryset r t)), fmap_app in Hq.
  apply NoDup_app in Hq as (_ & Hdis & _).
  apply Forall_forall. intros e He. apply Hdis.
  apply list_elem_of_fmap. eauto.
Qed.

(** X5. With distinct primary keys [delete_limit] leaves the related
    object the smaller of [limit] and the number of exchanges it had;
    every row that goes belongs to the related object and is no newer
    than any of its rows that stay. *)
Theorem delete_limit_keeps_newest (r : related) (n : nat) (t : table)
    (Hids : NoDup (id <$> t)) :
  length (owned (related_key r) (delete_limit r n t))
    = Nat.min n (length (owned (related_key r) t))
  /\ forall e, e ∈ t -> e ∉ delete_limit r n t ->
       (content_type_id e, object_id e) = related_key r
       /\ forall e', e' ∈ owned (related_key r) (delete_limit r n t) ->
            date e <= date e'.
Proof.
  split.
  - rewrite (Permutation_length (owned_delete_limit_exact r n t Hids)).
    rewrite length_take, (Permutation_length (queryset_perm r t)). reflexivity.
  - intros e He Hgone.
    pose proof (delete_limit_gone r n t e Hids He Hgone) as Hd.
    split; [eapply queryset_elem, in_drop, Hd|].
    intros e' He'.
    rewrite (owned_delete_limit_exact r n t Hids) in He'.
    pose proof (order_by_date_desc_sorted (owned (related_key r) t)) as Hs.
    rewrite <- related_queryset_owned in Hs.
    rewrite <- (take_drop n (related_queryset r t)) in Hs.
    exact (StronglySorted_app_1_elem_of _ _ _ _ _ Hs He' Hd).
Qed.

Lemma ten_rows_ids : NoDup (id <$> ten_rows).
Proof. apply (bool_decide_unpack (NoDup _)). vm_compute. exact I. Defined.

Lemma delete_limit_keeps_newest_witness :
  NoDup (id <$> ten_rows)
  /\ length (owned (related_key (RelIntegration 7))
               (delete_limit (RelIntegration 7) 3 ten_rows)) = 3%nat.
Proof.
  split; [exact ten_rows_ids|].
  exact (proj1 (delete_limit_keeps_newest (RelIntegration 7) 3 ten_rows
                  ten_rows_ids)).
Defined.

Lemma delete_limit_other_owners_gen (r : related) (n : nat) (t : table)
    (key : owner) :
  NoDup (id <$> t) -> key <> related_key r ->
  owned key (delete_limit r n t) = owned key t.
Proof.
  intros Hids Hne.
  rewrite owned_delete_limit. apply filter_all.
  apply Forall_forall. intros e He Hin.
  apply list_elem_of_filter in He as [Hk He].
  apply list_elem_of_fmap in Hin as (d & Heq & Hd).
  apply in_drop, queryset_elem in Hd as [Hd Hrk].
  assert (e = d) as -> by (apply (same_id_same_row t); assumption).
  apply Hne. apply owned_spec in Hk. congruence.
Qed.

(** X6. With distinct primary keys [delete_limit] leaves the
    exchanges of every other object as they are. *)
Theorem delete_limit_other_owners (r : related) (n : nat) (t : table)
    (key : owner) (Hids : NoDup (id <$> t)) (Hne : key <> related_key r) :
  owned key (delete_limit r n t) = owned key t.
Proof. exact (delete_limit_other_owners_gen r n t key Hids Hne). Qed.

Lemma delete_limit_other_owners_witness :
  let key := related_key (RelIntegration 8) in
  NoDup (id <$> ten_rows)
  /\ key <> related_key (RelIntegration 7)
  /\ owned key (delete_limit (RelIntegration 7) 3 ten_rows) = owned key ten_rows.
Proof.
  intros key.
  assert (Hne : key <> related_key (RelIntegration 7)) by (vm_compute; congruence).
  split; [exact ten_rows_ids|]. split; [exact Hne|].
  exact (delete_limit_other_owners (RelIntegration 7) 3 ten_rows key
           ten_rows_ids Hne).
Defined.

Lemma owned_app (key : owner) (a b : table) :
  owned key (a ++ b) = owned key a ++ owned key b.
Proof. apply filter_app. Qed.

Section Recorded.

Variable py_str : pyval -> string.
Variable float_repr : string -> string.
Variable normalize_request_payload : http_request -> pyval.

Abbreviation record_one uuid now req resp r payload t :=
  (from_exchange py_str float_repr normalize_request_payload
     uuid now req resp r payload t).

Lemma recorded_inv uuid now req resp r payload t obj t' :
  record_one uuid now req resp r payload t = Ok (obj, t') ->
  t' = delete_limit r 10 (t ++ [obj])
  /\ (id obj ∉ id <$> t)
  /\ date obj = now
  /\ (content_type_id obj, object_id obj) = related_key r.
Proof.
  intros H. apply HeaderFacts.from_exchange_inv in H as (Hb & t1 & Hc & ->).
  apply create_inv in Hc as [-> Hid].
  apply HeaderFacts.build_inv in Hb as (_ & Hdate & Hct & Hoid & _).
  repeat split; try assumption. unfold related_key. congruence.
Qed.

Lemma recorded_ids uuid now req resp r payload t obj t' :
  NoDup (id <$> t) ->
  record_one uuid now req resp r payload t = Ok (obj, t') ->
  NoDup (id <$> (t ++ [obj])) /\ NoDup (id <$> t').
Proof.
  intros Hnd H. apply recorded_inv in H as (-> & Hid & _).
  assert (Hnd1 : NoDup (id <$> (t ++ [obj]))).
  { rewrite fmap_app. apply NoDup_app. split; [exact Hnd|]. split.
    - intros x Hx Hin. apply list_elem_of_singleton in Hin. subst x. exact (Hid Hx).
    - apply NoDup_singleton. }
  split; [exact Hnd1|].
  eapply sublist_NoDup; [exact Hnd1|]. apply fmap_sublist, delete_limit_sublist.
Qed.

Lemma recorded_bound uuid now req resp r payload t obj t' :
  record_one uuid now req resp r payload t = Ok (obj, t') ->
  (length (owned (related_key r) t') <= 10)%nat.
Proof.
  intros H. apply recorded_inv in H as (-> & _). apply delete_limit_bound.
Qed.

Lemma recorded_others uuid now req resp r payload t obj t' (key : owner) :
  record_one uuid now req resp r payload t = Ok (obj, t') ->
  NoDup (id <$> t) -> key <> related_key r ->
  owned key t' = owned key t.
Proof.
  intros H Hids Hne.
  destruct (recorded_ids _ _ _ _ _ _ _ _ _ Hids H) as [Hnd1 _].
  apply recorded_inv in H as (-> & _ & _ & Hkey).
  rewrite delete_limit_other_owners_gen by assumption.
  rewrite owned_app, owned_singleton.
  rewrite decide_False by congruence. apply app_nil_r.
Qed.

(** X7. After [from_exchange] has returned, the related object has at
    most ten exchanges, whatever the dates of the rows are; the table
    holds rows it held before and the new row, in that order; and
    nothing is deleted when the related object had fewer than ten. *)
Theorem from_exchange_bound uuid now req resp r payload t obj t'
    (H : record_one uuid now req resp r payload t = Ok (obj, t')) :
  (length (owned (related_key r) t') <= 10)%nat
  /\ t' `sublist_of` (t ++ [obj])
  /\ (length (owned (related_key r) t) < 10 -> t' = t ++ [obj])%nat.
Proof.
  split; [exact (recorded_bound _ _ _ _ _ _ _ _ _ H)|].
  apply recorded_inv in H as (-> & _ & _ & Hkey).
  split; [apply delete_limit_sublist|].
  intros Hlt. apply delete_limit_within.
  rewrite owned_app, length_app, owned_singleton.
  rewrite decide_True by (symmetry; exact Hkey). simpl. lia.
Qed.

(** X8. With distinct primary keys [from_exchange] leaves the
    exchanges of every object but the related one as they are. *)
Theorem from_exchange_other_owners uuid now req resp r payload t obj t'
    (key : owner)
    (H : record_one uuid now req resp r payload t = Ok (obj, t'))
    (Hids : NoDup (id <$> t)) (Hne : key <> related_key r) :
  owned key t' = owned key t.
Proof. exact (recorded_others _ _ _ _ _ _ _ _ _ key H Hids Hne). Qed.

Lemma recorded_position uuid now req resp r payload t obj t' :
  NoDup (id <$> t) ->
  record_one uuid now req resp r payload t = Ok (obj, t') ->
  let q := related_queryset r (t ++ [obj]) in
  NoDup q
  /\ obj ∈ q
  /\ (forall e, e ∈ q -> e = obj \/ e ∈ owned (related_key r) t)
  /\ (forall e, e ∈ owned (related_key r) t -> e ∈ q)
  /\ (obj ∉ owned (related_key r) t)
  /\ (obj ∈ t' <-> obj ∉ drop 10 q).
Proof.
  intros Hnd H q.
  destruct (recorded_ids _ _ _ _ _ _ _ _ _ Hnd H) as [Hnd1 _].
  apply recorded_inv in H as (-> & Hid & _ & Hkey).
  assert (Hperm : q ≡ₚ owned (related_key r) t ++ [obj]).
  { unfold q. rewrite queryset_perm, owned_app, owned_singleton.
    rewrite decide_True by (symmetry; exact Hkey). reflexivity. }
  split; [eapply NoDup_fmap_1, queryset_ids, Hnd1|].
  split; [rewrite Hperm; apply elem_of_app; right; apply list_elem_of_singleton; reflexivity|].
  split.
  { intros e He. rewrite Hperm in He. apply elem_of_app in He as [He|He].
    - right. exact He.
    - left. apply list_elem_of_singleton in He. exact He. }
  split; [intros e He; rewrite Hperm; apply elem_of_app; left; exact He|].
  split.
  { intros Hin. apply list_elem_of_filter in Hin as [_ Hin].
    apply Hid. apply list_elem_of_fmap. eauto. }
  apply delete_limit_elem; [exact Hnd1|].
  apply elem_of_app. right. apply list_elem_of_singleton. reflexivity.
Qed.

(** X9. With distinct primary keys the exchange [from_exchange]
    returns is in the table after the call when fewer than ten
    exchanges of the related object are as new as it or newer. *)
Theorem returned_row_kept uuid now req resp r payload t obj t'
    (H : record_one uuid now req resp r payload t = Ok (obj, t'))
    (Hids : NoDup (id <$> t))
    (Hnew : (length (filter (fun e => (now <= date e)%Z)
                       (owned (related_key r) t)) < 10)%nat) :
  obj ∈ t'.
Proof.
  destruct (recorded_position _ _ _ _ _ _ _ _ _ Hids H)
    as (Hq & Hobj & Hfrom & _ & _ & Hiff).
  apply recorded_inv in H as (_ & _ & Hdate & _).
  set (q := related_queryset r (t ++ [obj])) in *.
  apply Hiff. intros Hdrop.
  pose proof (order_by_date_desc_sorted (owned (related_key r) (t ++ [obj]))) as Hs.
  rewrite <- related_queryset_owned in Hs. fold q in Hs.
  rewrite <- (take_drop 10 q) in Hs, Hq.
  assert (Hsub : take 10 q ⊆+ filter (fun e => (now <= date e)%Z)
                                 (owned (related_key r) t)).
  { apply NoDup_submseteq; [apply NoDup_app in Hq; tauto|].
    intros e He. apply list_elem_of_filter. split.
    - pose proof (StronglySorted_app_1_elem_of _ _ _ _ _ Hs He Hdrop) as Hle.
      unfold newest_first in Hle. lia.
    - destruct (Hfrom e (in_take _ _ _ He)) as [->|Hin]; [|exact Hin].
      apply NoDup_app in Hq as (_ & Hdis & _). destruct (Hdis _ He Hdrop). }
  apply submseteq_length in Hsub. rewrite length_take in Hsub.
  assert (length q > 10)%nat; [|lia].
  destruct (decide (length q <= 10)%nat) as [Hle|]; [|lia].
  rewrite drop_ge in Hdrop by exact Hle. inversion Hdrop.
Qed.

(** X10. With distinct primary keys the exchange [from_exchange]
    returns is not in the table after the call when ten exchanges of
    the related object are newer than it: the call deletes the row it
    has just created. *)
Theorem returned_row_dropped uuid now req resp r payload t obj t'
    (H : record_one uuid now req resp r payload t = Ok (obj, t'))
    (Hids : NoDup (id <$> t))
    (Hold : (10 <= length (filter (fun e => (now < date e)%Z)
                             (owned (related_key r) t)))%nat) :
  obj ∉ t'.
Proof.
  destruct (recorded_position _ _ _ _ _ _ _ _ _ Hids H)
    as (Hq & Hobj & _ & Hto & Hnot & Hiff).
  apply recorded_inv in H as (_ & _ & Hdate & _).
  set (q := related_queryset r (t ++ [obj])) in *.
  intros Hin. apply Hiff in Hin.
  pose proof (order_by_date_desc_sorted (owned (related_key r) (t ++ [obj]))) as Hs.
  rewrite <- related_queryset_owned in Hs. fold q in Hs.
  rewrite <- (take_drop 10 q) in Hs, Hobj.
  apply elem_of_app in Hobj as [Htake|Hdrop]; [|exact (Hin Hdrop)].
  set (newer := filter (fun e => (now < date e)%Z) (owned (related_key r) t)) in *.
  assert (Hsub : (obj :: newer) ⊆+ take 10 q).
  { apply NoDup_submseteq.
    - apply NoDup_cons. split.
      + intros Hn. apply list_elem_of_filter in Hn as [_ Hn]. exact (Hnot Hn).
      + apply NoDup_filter, NoDup_filter. eapply NoDup_fmap_1, Hids.
    - intros e He. apply elem_of_cons in He as [->|He]; [exact Htake|].
      apply list_elem_of_filter in He as [Hlt He].
      apply Hto in He. rewrite <- (take_drop 10 q) in He.
      apply elem_of_app in He as [He|He]; [exact He|].
      pose proof (StronglySorted_app_1_elem_of _ _ _ _ _ Hs Htake He) as Hle.
      unfold newest_first in Hle. lia. }
  apply submseteq_length in Hsub. rewrite length_take, length_cons in Hsub. lia.
Qed.

(** X11. After any number of calls of [from_exchange] on a table with
    distinct primary keys, on any clock, the primary keys are
    distinct, an object no call was made for has the exchanges it had,
    and an object a call was made for has at most ten. *)
Theorem record_all_bound (calls : list call) (t0 t : table)
    (objs : list HttpExchange) (key : owner)
    (Hids : NoDup (id <$> t0))
    (Hrun : record_all py_str float_repr normalize_request_payload calls t0
            = Ok (objs, t)) :
  NoDup (id <$> t)
  /\ (calls_for key calls = [] -> owned key t = owned key t0)
  /\ (calls_for key calls <> [] -> (length (owned key t) <= 10)%nat).
Proof.
  revert t0 objs Hids Hrun.
  induction calls as [|c calls IH]; intros t0 objs Hids Hrun.
  - injection Hrun as <- <-. repeat split; [exact Hids|]. intros Hn. destruct (Hn eq_refl).
  - cbn [record_all] in Hrun. unfold mbind, result_bind in Hrun.
    destruct (from_exchange _ _ _ _ _ _ _ _ _ t0) as [[obj t1]|e] eqn:Hc;
      [|discriminate Hrun].
    destruct (record_all _ _ _ calls t1) as [[objs' t2]|e] eqn:Hr;
      [|discriminate Hrun].
    injection Hrun as <- <-.
    destruct (recorded_ids _ _ _ _ _ _ _ _ _ Hids Hc) as [_ Hnd1].
    destruct (IH t1 objs' Hnd1 Hr) as (Hnd & Hsame & Hle).
    split; [exact Hnd|].
    unfold calls_for in *.
    destruct (decide (related_key (call_related c) = key)) as [Hk|Hk].
    + rewrite filter_cons_True by exact Hk. split; [discriminate|]. intros _.
      destruct (filter _ calls) as [|c' l] eqn:Hf.
      * rewrite Hsame by reflexivity. subst key.
        apply (recorded_bound _ _ _ _ _ _ _ _ _ Hc).
      * apply Hle. discriminate.
    + rewrite filter_cons_False by exact Hk.
      split; [|exact Hle].
      intros Hnil. rewrite (Hsame Hnil).
      apply (recorded_others _ _ _ _ _ _ _ _ _ key Hc Hids).
      congruence.
Qed.

End Recorded.

Abbreviation example_record uuid now t :=
  (from_exchange str_of same_literal no_payload uuid now
     bare_request bare_response (RelIntegration 7) (PInt 0) t).

Lemma from_exchange_bound_witness :
  match example_record 11%N 11 ten_rows with
  | Ok (obj, t') =>
      (length (owned (related_key (RelIntegration 7)) t') <= 10)%nat
  | Raise _ => False
  end.
Proof.
  destruct (example_record 11%N 11 ten_rows) as [[obj t']|e] eqn:H;
    [|vm_compute in H; discriminate H].
  exact (proj1 (from_exchange_bound _ _ _ _ _ _ _ _ _ _ _ _ H)).
Defined.

Lemma from_exchange_other_owners_witness :
  let key := related_key (RelIntegration 8) in
  NoDup (id <$> ten_rows)
  /\ key <> related_key (RelIntegration 7)
  /\ match example_record 11%N 11 ten_rows with
     | Ok (obj, t') => owned key t' = owned key ten_rows
     | Raise _ => False
     end.
Proof.
  intros key.
  assert (Hne : key <> related_key (RelIntegration 7)) by (vm_compute; congruence).
  split; [exact ten_rows_ids|]. split; [exact Hne|].
  destruct (example_record 11%N 11 ten_rows) as [[obj t']|e] eqn:H;
    [|vm_compute in H; discriminate H].
  exact (from_exchange_other_owners _ _ _ _ _ _ _ _ _ _ _ _ key H
           ten_rows_ids Hne).
Defined.

Lemma returned_row_kept_witness :
  NoDup (id <$> ten_rows)
  /\ (length (filter (fun e => (11 <= date e)%Z)
                (owned (related_key (RelIntegration 7)) ten_rows)) < 10)%nat
  /\ match example_record 11%N 11 ten_rows with
     | Ok (obj, t') => obj ∈ t'
     | Raise _ => False
     end.
Proof.
  assert (Hnew : (length (filter (fun e => (11 <= date e)%Z)
                   (owned (related_key (RelIntegration 7)) ten_rows)) < 10)%nat)
    by (vm_compute; lia).
  split; [exact ten_rows_ids|]. split; [exact Hnew|].
  destruct (example_record 11%N 11 ten_rows) as [[obj t']|e] eqn:H;
    [|vm_compute in H; discriminate H].
  exact (returned_row_kept _ _ _ _ _ _ _ _ _ _ _ _ H ten_rows_ids Hnew).
Defined.

Lemma returned_row_dropped_witness :
  NoDup (id <$> ten_rows)
  /\ (10 <= length (filter (fun e => (0 < date e)%Z)
                      (owned (related_key (RelIntegration 7)) ten_rows)))%nat
  /\ match example_record 11%N 0 ten_rows with
     | Ok (obj, t') => obj ∉ t'
     | Raise _ => False
     end.
Proof.
  assert (Hold : (10 <= length (filter (fun e => (0 < date e)%Z)
                    (owned (related_key (RelIntegration 7)) ten_rows)))%nat)
    by (vm_compute; lia).
  split; [exact ten_rows_ids|]. split; [exact Hold|].
  destruct (example_record 11%N 0 ten_rows) as [[obj t']|e] eqn:H;
    [|vm_compute in H; discriminate H].
  exact (returned_row_dropped _ _ _ _ _ _ _ _ _ _ _ _ H ten_rows_ids Hold).
Defined.

Lemma record_all_bound_witness :
  let key := related_key (RelIntegration 7) in
  match record_all str_of same_literal no_payload backward_calls [] with
  | Ok (objs, t) => NoDup (id <$> t) /\ (length (owned key t) <= 10)%nat
  | Raise _ => False
  end.
Proof.
  intros key.
  destruct (record_all str_of same_literal no_payload backward_calls [])
    as [[objs t]|e] eqn:H; [|vm_compute in H; discriminate H].
  destruct (record_all_bound _ _ _ backward_calls [] t objs key (NoDup_nil_2) H)
    as (Hnd & _ & Hle).
  split; [exact Hnd|]. apply Hle. vm_compute. discriminate.
Defined.

End TrimFacts.

(** ** Names of request headers *)

Module NameFacts.
Import Str Exchange Spec Examples.

Lemma upper_of_lower (c : ascii) :
  is_lower c = true ->
  is_lower (to_upper c) = false /\ is_upper (to_upper c) = true.
Proof.
  destruct c as [[] [] [] [] [] [] [] []]; vm_compute; intros; split; congruence.
Qed.

Lemma lower_of_upper (c : ascii) :
  is_upper c = true -> is_lower (to_lower c) = true.
Proof.
  destruct c as [[] [] [] [] [] [] [] []]; vm_compute; congruence.
Qed.

Lemma lower_not_upper (c : ascii) :
  is_lower c = true -> is_upper c = false.
Proof.
  destruct c as [[] [] [] [] [] [] [] []]; vm_compute; congruence.
Qed.

Lemma title_from_idempotent (b : bool) (s : string) :
  title_from b (title_from b s) = title_from b s.
Proof.
  revert b. induction s as [|c s IH]; intros b; [reflexivity|].
  cbn [title_from].
  destruct (is_lower c) eqn:Hl; [|destruct (is_upper c) eqn:Hu].
  - destruct b; cbn [title_from].
    + rewrite Hl, IH. reflexivity.
    + destruct (upper_of_lower c Hl) as [-> ->]. rewrite IH. reflexivity.
  - destruct b; cbn [title_from].
    + rewrite (lower_of_upper c Hu), IH. reflexivity.
    + rewrite Hl, Hu, IH. reflexivity.
  - cbn [title_from]. rewrite Hl, Hu, IH. reflexivity.
Qed.

Lemma hyphen_uncased : is_lower "-" = false /\ is_upper "-" = false.
Proof. split; reflexivity. Qed.

Lemma title_from_replace (b : bool) (s : string) :
  title_from b (replace "_" "-" s) = replace "_" "-" (title_from b s).
Proof.
  revert b. induction s as [|c s IH]; intros b; [reflexivity|].
  cbn [replace title_from].
  destruct (Ascii.eqb_spec c "_") as [->|Hne].
  - change (is_lower "-") with false. change (is_upper "-") with false.
    change (is_lower "_") with false. change (is_upper "_") with false.
    cbv iota. cbn [replace]. change (Ascii.eqb "_" "_") with true.
    cbv iota. rewrite IH. reflexivity.
  - destruct (is_lower c) eqn:Hl; [|destruct (is_upper c) eqn:Hu];
      cbn [replace]; rewrite IH; f_equal.
    + destruct b.
      * destruct (Ascii.eqb_spec c "_"); congruence.
      * rewrite (StrFacts.to_upper_not_underscore c Hl). reflexivity.
    + destruct b.
      * rewrite (StrFacts.to_lower_not_underscore c Hu). reflexivity.
      * destruct (Ascii.eqb_spec c "_"); congruence.
    + destruct (Ascii.eqb_spec c "_"); congruence.
Qed.

Lemma replace_no_old (s : string) :
  ~ In "_"%char (list_ascii_of_string (replace "_" "-" s)).
Proof.
  induction s as [|c s IH]; [intros []|].
  cbn [replace list_ascii_of_string]. intros [H|H]; [|exact (IH H)].
  destruct (Ascii.eqb_spec c "_") as [->|Hne]; [discriminate H|congruence].
Qed.

Lemma to_lower_idem_case (c : ascii) :
  is_lower (to_lower c) = is_lower c || is_upper c
  /\ is_upper (to_lower c) = false
  /\ to_upper (to_lower c) = (if is_upper c then c else to_upper c)
  /\ to_lower (to_lower c) = to_lower c.
Proof.
  destruct c as [[] [] [] [] [] [] [] []]; vm_compute; repeat split.
Qed.

Lemma title_from_lower (b : bool) (s : string) :
  title_from b (lower s) = title_from b s.
Proof.
  revert b. induction s as [|c s IH]; intros b; [reflexivity|].
  cbn [lower title_from].
  destruct (to_lower_idem_case c) as (Hl & Hu & Hup & Hlo).
  rewrite Hl, Hu.
  destruct (is_lower c) eqn:El; cbn [orb].
  - rewrite IH. f_equal. destruct b.
    + unfold to_lower. rewrite (lower_not_upper c El). reflexivity.
    + rewrite Hup. rewrite (lower_not_upper c El). reflexivity.
  - destruct (is_upper c) eqn:Eu.
    + rewrite IH. f_equal. destruct b; [reflexivity|].
      rewrite Hup. reflexivity.
    + rewrite IH. f_equal. unfold to_lower. rewrite Eu. reflexivity.
Qed.

(** X12. The name [from_exchange] gives a transport header has no
    underscore and is in title case: normalizing it again changes
    nothing.  Keys with the same letters in another case get the same
    name. *)
Theorem header_name_normal_form (key : string) :
  ~ In "_"%char (list_ascii_of_string (header_name key))
  /\ replace "_" "-" (title (header_name key)) = header_name key
  /\ forall key', lower (slice_from 5 key') = lower (slice_from 5 key) ->
       header_name key' = header_name key.
Proof.
  unfold header_name, title. split; [apply replace_no_old|]. split.
  - rewrite title_from_replace, title_from_idempotent.
    set (s := title_from false (slice_from 5 key)).
    induction s as [|c s IH]; [reflexivity|].
    cbn [replace]. rewrite IH. f_equal.
    destruct (Ascii.eqb_spec c "_") as [->|Hne]; [reflexivity|].
    destruct (Ascii.eqb_spec c "_"); congruence.
  - intros key' Heq.
    rewrite <- (title_from_lower false (slice_from 5 key')), Heq.
    rewrite title_from_lower. reflexivity.
Qed.

End NameFacts.

(** ** Proxy instances and their provider data *)

Module ProxyFacts.
Import Integrations Spec Examples.

Lemma copy_dict_union (row f : gmap string pyval) :
  copy_dict (map_to_list row) f = row ∪ f.
Proof.
  apply map_eq. intros k.
  rewrite IntegrationFacts.copy_dict_lookup by apply NoDup_fst_map_to_list.
  rewrite list_to_map_to_list, lookup_union.
  destruct (row !! k), (f !! k); reflexivity.
Qed.

(** X13. [IntegrationQuerySet.get] raises [DoesNotExist] when no row
    matches and [MultipleObjectsReturned] when several do.  On one row
    it returns; the result is the loaded instance itself, or an
    instance of a proxy class whose [__dict__] is that of a fresh
    instance of the class overwritten with every entry of the loaded
    one. *)
Theorem get_result (fresh_dict : model_class -> gmap string pyval) :
  get fresh_dict [] = Raise DoesNotExist
  /\ (forall row row' rest,
        get fresh_dict (row :: row' :: rest) = Raise MultipleObjectsReturned)
  /\ forall row, exists o, get fresh_dict [row] = Ok o
       /\ (o = Instance Integration row
           \/ (has_sync (cls o) = true
               /\ integration_type_id (cls o) <> None
               /\ dict o = row ∪ fresh_dict (cls o))).
Proof.
  split; [reflexivity|]. split; [reflexivity|].
  intros row. unfold get, queryset_get, getattr, mbind, result_bind. cbn [dict].
  destruct (row !! "integration_type") as [t|]; [|eauto].
  rewrite IntegrationFacts.class_map_get_spec.
  destruct (str_eq BITBUCKET_WEBHOOK t); [|destruct (str_eq GITHUB_WEBHOOK t)];
    [| |eauto];
    (eexists; split; [reflexivity|]; right; cbn [cls dict has_sync];
     split; [reflexivity|]; split; [discriminate|apply copy_dict_union]).
Qed.

End ProxyFacts.

Module SyncFacts.
Import Integrations Spec Examples.
Local Open Scope list_scope.

Lemma is_prefix_spec (p s : ustring) :
  is_prefix p s = true <-> exists c, s = p ++ c.
Proof.
  revert s. induction p as [|a p IH]; intros s.
  - split; [eexists; reflexivity|reflexivity].
  - destruct s as [|b s]; cbn [is_prefix].
    + split; [discriminate|]. intros [c Hc]. discriminate Hc.
    + rewrite andb_true_iff, N.eqb_eq, IH. split.
      * intros [-> [c ->]]. eexists; reflexivity.
      * intros [c Hc]. injection Hc as -> ->. eauto.
Qed.

Lemma is_infix_spec (p s : ustring) :
  is_infix p s = true <-> exists a c, s = a ++ p ++ c.
Proof.
  induction s as [|b s IH].
  - cbn [is_infix]. rewrite orb_false_r, is_prefix_spec. split.
    + intros [c Hc]. exists [], c. exact Hc.
    + intros (a & c & H). destruct a as [|x a]; [|discriminate H].
      exists c. exact H.
  - cbn [is_infix]. rewrite orb_true_iff, is_prefix_spec, IH. split.
    + intros [[c Hc]|(a & c & Hc)].
      * exists [], c. exact Hc.
      * exists (b :: a), c. rewrite Hc. reflexivity.
    + intros (a & c & H). destruct a as [|x a].
      * left. exists c. exact H.
      * right. injection H as -> ->. eauto.
Qed.

Lemma all_in_two (k1 k2 : string) (pd : pyval) (b1 b2 : bool) :
  py_in k1 pd = Ok b1 -> py_in k2 pd = Ok b2 ->
  all_in [k1; k2] pd = Ok (b1 && b2).
Proof.
  intros H1 H2. cbn [all_in]. unfold mbind, result_bind.
  rewrite H1. destruct b1; [|reflexivity]. rewrite H2.
  destruct b2; reflexivity.
Qed.

(** X14. On an instance of a proxy class [can_sync] does not raise
    for provider data that is text or a list.  For a text it is true
    exactly when the text contains both id and url as substrings, and
    for a list exactly when id and url are among its items. *)
Theorem can_sync_on_sequences (o : instance) (pd : pyval)
    (Hcls : has_sync (cls o) = true)
    (Hpd : dict o !! "provider_data" = Some pd) :
  exists b, can_sync o = Some (Ok b)
    /\ (forall u, pd = PUnicode u ->
          (b = true <-> contains "id" u /\ contains "url" u))
    /\ (forall s, pd = PStr s ->
          (b = true <-> contains "id" (utext s) /\ contains "url" (utext s)))
    /\ (forall l, pd = PList l ->
          (b = true <-> (exists v, v ∈ l /\ str_eq "id" v = true)
                        /\ (exists v, v ∈ l /\ str_eq "url" v = true))).
Proof.
  assert (Hbody : can_sync o = Some (can_sync_body o)).
  { unfold can_sync. destruct (cls o); [discriminate Hcls|reflexivity..]. }
  rewrite Hbody. unfold can_sync_body, getattr. rewrite Hpd.
  assert (Hex : forall l k, existsb (str_eq k) l = true <->
                  exists v, v ∈ l /\ str_eq k v = true).
  { intros l k. rewrite existsb_exists. split; intros (v & Hv & Hs);
      exists v; (split; [apply list_elem_of_In, Hv|exact Hs]). }
  destruct pd as [| | | |u|s|l|items|];
    try (eexists; split; [reflexivity|]; repeat split; discriminate).
  - rewrite (all_in_two "id" "url" (PUnicode u) _ _ eq_refl eq_refl).
    eexists; split; [reflexivity|]. split; [|split; discriminate].
    intros u' [= <-]. unfold contains.
    rewrite andb_true_iff, !is_infix_spec. reflexivity.
  - rewrite (all_in_two "id" "url" (PStr s) _ _ eq_refl eq_refl).
    eexists; split; [reflexivity|]. split; [discriminate|].
    split; [|discriminate].
    intros s' [= <-]. unfold contains.
    rewrite andb_true_iff, !is_infix_spec. reflexivity.
  - rewrite (all_in_two "id" "url" (PList l) _ _ eq_refl eq_refl).
    eexists; split; [reflexivity|]. split; [discriminate|].
    split; [discriminate|].
    intros l' [= <-]. rewrite andb_true_iff, !Hex. reflexivity.
  - rewrite (all_in_two "id" "url" (PDict items) _ _ eq_refl eq_refl).
    eexists; split; [reflexivity|]. repeat split; discriminate.
Qed.

Lemma can_sync_on_sequences_witness :
  let pd := PUnicode (utext "a valid url") in
  let o := Instance GitHubWebhook (github_row pd) in
  has_sync (cls o) = true
  /\ dict o !! "provider_data" = Some pd
  /\ can_sync o = Some (Ok true).
Proof.
  intros pd o.
  assert (Hcls : has_sync (cls o) = true) by reflexivity.
  assert (Hpd : dict o !! "provider_data" = Some pd) by reflexivity.
  split; [exact Hcls|]. split; [exact Hpd|].
  destruct (can_sync_on_sequences o pd Hcls Hpd) as (b & Hb & Htext & _).
  rewrite Hb. do 2 f_equal. apply (Htext _ eq_refl). split.
  - exists (utext "a val"), (utext " url"). reflexivity.
  - exists (utext "a valid "), []. reflexivity.
Defined.

End SyncFacts.

(** ** Sorted keys *)

Module OrderFacts.
Import Json Exchange Spec.
Local Open Scope list_scope.

Lemma ustring_leb_antisym (a b : ustring) :
  ustring_leb a b = true -> ustring_leb b a = true -> a = b.
Proof.
  revert b. induction a as [|x a IH]; intros [|y b]; cbn [ustring_leb];
    try discriminate; [reflexivity|].
  destruct (N.ltb_spec x y), (N.ltb_spec y x); try discriminate; try lia.
  intros H1 H2. assert (x = y) as -> by lia. f_equal. apply IH; assumption.
Qed.

Lemma ustring_leb_trans (a b c : ustring) :
  ustring_leb a b = true -> ustring_leb b c = true -> ustring_leb a c = true.
Proof.
  revert b c. induction a as [|x a IH]; intros [|y b] [|z c];
    cbn [ustring_leb]; try discriminate; try reflexivity.
  destruct (N.ltb_spec x y), (N.ltb_spec y x), (N.ltb_spec y z),
    (N.ltb_spec z y), (N.ltb_spec x z), (N.ltb_spec z x);
    try discriminate; try reflexivity; try lia.
  apply IH.
Qed.

Lemma insert_by_key_strongly {A} (kv : ustring * A) (l : list (ustring * A)) :
  StronglySorted key_leb l -> StronglySorted key_leb (insert_by_key kv l).
Proof.
  induction 1 as [|a l Hs IH Ha]; [repeat constructor|].
  cbn [insert_by_key]. destruct (ustring_leb kv.1 a.1) eqn:E.
  - constructor; [constructor; assumption|].
    constructor; [exact E|].
    eapply Forall_impl; [exact Ha|]. intros b Hb.
    eapply ustring_leb_trans; [exact E|exact Hb].
  - constructor; [exact IH|].
    rewrite (JsonFacts.insert_by_key_perm kv l).
    constructor; [apply CanonFacts.ustring_leb_total, E|exact Ha].
Qed.

Lemma sort_by_key_strongly {A} (l : list (ustring * A)) :
  StronglySorted key_leb (sort_by_key l).
Proof.
  unfold sort_by_key. induction l as [|kv l IH]; [constructor|].
  cbn [fold_right]. apply insert_by_key_strongly, IH.
Qed.

Lemma same_key_same_item {A} (l : list (ustring * A)) (x y : ustring * A) :
  NoDup l.*1 -> x ∈ l -> y ∈ l -> x.1 = y.1 -> x = y.
Proof.
  induction l as [|a l IH]; intros Hnd Hx Hy Heq; [inversion Hx|].
  rewrite fmap_cons in Hnd. apply NoDup_cons in Hnd as [Ha Hnd].
  apply elem_of_cons in Hx as [->|Hx], Hy as [->|Hy]; auto.
  - exfalso. apply Ha. rewrite Heq. apply list_elem_of_fmap. eauto.
  - exfalso. apply Ha. rewrite <- Heq. apply list_elem_of_fmap. eauto.
Qed.

(** Two sorted lists with the same items, whose keys are distinct,
    are the same list. *)
Lemma sorted_unique {A} (l1 l2 : list (ustring * A)) :
  NoDup l1.*1 -> l1 ≡ₚ l2 ->
  StronglySorted key_leb l1 -> StronglySorted key_leb l2 -> l1 = l2.
Proof.
  revert l2. induction l1 as [|x l1 IH]; intros l2 Hnd Hp H1 H2.
  - apply Permutation_nil_l in Hp. congruence.
  - destruct l2 as [|y l2]; [apply Permutation_nil_r in Hp; discriminate|].
    assert (Hxy : x = y).
    { assert (Hy : y ∈ x :: l1) by (rewrite Hp; left).
      assert (Hx : x ∈ y :: l2) by (rewrite <- Hp; left).
      apply elem_of_cons in Hy as [->|Hy]; [reflexivity|].
      apply elem_of_cons in Hx as [->|Hx]; [reflexivity|].
      apply StronglySorted_inv in H1 as [_ F1], H2 as [_ F2].
      rewrite Forall_forall in F1, F2.
      apply (same_key_same_item (x :: l1)); [exact Hnd|left|right; exact Hy|].
      apply ustring_leb_antisym; [apply F1, Hy|apply F2, Hx]. }
    subst y. f_equal.
    apply StronglySorted_inv in H1 as [H1 _], H2 as [H2 _].
    rewrite fmap_cons in Hnd. apply NoDup_cons in Hnd as [_ Hnd].
    apply IH; [exact Hnd|eapply Permutation_cons_inv, Hp|exact H1|exact H2].
Qed.

Lemma sort_by_key_permutation {A} (l l' : list (ustring * A)) :
  NoDup l.*1 -> l ≡ₚ l' -> sort_by_key l = sort_by_key l'.
Proof.
  intros Hnd Hp. apply sorted_unique.
  - rewrite (JsonFacts.sort_by_key_perm l). exact Hnd.
  - rewrite !JsonFacts.sort_by_key_perm. exact Hp.
  - apply sort_by_key_strongly.
  - apply sort_by_key_strongly.
Qed.

Section Sorted.

Variable py_str : pyval -> string.
Variable float_repr : string -> string.

(** X15. With [sort_keys=True] the text [json.dumps] writes for a
    dictionary does not depend on the order of its items, with or
    without an indent, and neither does the exception it raises; so
    the body [from_exchange] stores for a dictionary that [dumps]
    encodes is the same for every order of its items. *)
Theorem dumps_sorted_order (items items' : list (ustring * pyval))
    (indent : option nat)
    (Hkeys : NoDup items.*1) (Hperm : items ≡ₚ items') :
  dumps float_repr true indent (PDict items)
  = dumps float_repr true indent (PDict items')
  /\ forall body,
       dumps float_repr true None (PDict items) = Ok body ->
       serialize py_str float_repr (PDict items') = Ok body.
Proof.
  assert (Heq : forall indent, dumps float_repr true indent (PDict items)
                = dumps float_repr true indent (PDict items')).
  { intros i. unfold dumps. cbn [encode].
    rewrite (sort_by_key_permutation
               (map (fun kv => (kv.1, encode float_repr true i 1 kv.2)) items)
               (map (fun kv => (kv.1, encode float_repr true i 1 kv.2)) items')).
    - reflexivity.
    - rewrite <- list_fmap_compose. exact Hkeys.
    - apply Permutation_map, Hperm. }
  split; [apply Heq|].
  intros body Hb. unfold serialize. rewrite <- Heq, Hb. reflexivity.
Qed.

End Sorted.

Lemma dumps_sorted_order_witness :
  let items := [(utext "b", PInt 1); (utext "a", PInt 2)] in
  let items' := [(utext "a", PInt 2); (utext "b", PInt 1)] in
  NoDup items.*1 /\ items ≡ₚ items'
  /\ dumps Examples.same_literal true None (PDict items)
     = dumps Examples.same_literal true None (PDict items').
Proof.
  intros items items'.
  assert (Hkeys : NoDup items.*1)
    by (apply (bool_decide_unpack (NoDup _)); vm_compute; exact I).
  assert (Hperm : items ≡ₚ items') by apply Permutation_swap.
  split; [exact Hkeys|]. split; [exact Hperm|].
  exact (proj1 (dumps_sorted_order Examples.str_of Examples.same_literal
                  items items' None Hkeys Hperm)).
Defined.

End OrderFacts.

(** ** The recursion limit and formatted_json *)

Module LimitFacts.
Import Json Exchange Spec Examples.
Local Open Scope list_scope.

(** [lex] gives the tokens when the whole text can be read. *)
Lemma lex_prefix_lex (s : string) (skip : nat) :
  lex skip s =
    (let '(ts, complete) := lex_prefix skip s in
     if complete : bool then Some ts else None).
Proof.
  revert skip. induction s as [|c r IH]; intros skip; [reflexivity|].
  cbn [lex lex_prefix]. destruct skip as [|k]; [|apply IH].
  destruct (is_ws c); [apply IH|].
  destruct (lex_at (String c r)) as [[t n]|]; [|reflexivity].
  cbn [mbind option_bind]. rewrite IH.
  destruct (lex_prefix (Nat.pred n) r) as [ts [|]]; reflexivity.
Qed.

(** Within the limit [run_within] is [run]. *)
Lemma run_within_run (limit : nat) (ts : list token) (s : pstate) :
  match run_within limit s ts with
  | Ok s' => run s ts = Some s'
  | Raise e => e = RuntimeError \/ (e = ValueError /\ run s ts = None)
  end.
Proof.
  revert s. induction ts as [|t ts IH]; intros s; [reflexivity|].
  cbn [run_within run]. unfold step_within, mbind, result_bind.
  destruct (step s t) as [s'|]; cbn [option_bind]; [|right; auto].
  destruct (limit <? length s'.1)%nat; [left; reflexivity|].
  apply IH.
Qed.

(** [loads_at] raises the [RuntimeError] of the limit or does what
    [loads] does. *)
Lemma loads_at_loads (limit : nat) (s : string) :
  loads_at limit s = Raise RuntimeError \/ loads_at limit s = loads s.
Proof.
  unfold loads_at, loads, parse. rewrite lex_prefix_lex.
  destruct (lex_prefix 0 s) as [ts complete].
  pose proof (run_within_run limit ts ([], EValue)) as Hrun.
  unfold mbind, result_bind.
  destruct (run_within limit ([], EValue) ts) as [s'|e].
  - right. destruct complete.
    + rewrite Hrun. destruct s' as [[|f st] []]; reflexivity.
    + destruct s' as [[|f st] []]; reflexivity.
  - destruct Hrun as [->|[-> Hrun]]; [left; reflexivity|].
    right. destruct complete; [rewrite Hrun|]; reflexivity.
Qed.

Lemma sequence_agree {A} (rs rs' : list (result A)) :
  Forall2 (fun r r' => r = Raise RuntimeError \/ r = r') rs rs' ->
  sequence rs = Raise RuntimeError \/ sequence rs = sequence rs'.
Proof.
  induction 1 as [|r r' rs rs' Hr _ IH]; [right; reflexivity|].
  cbn [sequence]. unfold mbind, result_bind.
  destruct Hr as [->| ->]; [left; reflexivity|].
  destruct r' as [a|e]; [|right; reflexivity].
  destruct IH as [->| ->]; [left|right]; reflexivity.
Qed.

Section Encoder.

Variable float_repr : string -> string.
Variable sort_keys : bool.
Variable indent : option nat.
Variable limit : nat.

(** [encode_within] raises the [RuntimeError] of the limit or does
    what [encode] does. *)
Lemma encode_within_encode (o : pyval) (level : nat) :
  encode_within float_repr sort_keys indent limit level o = Raise RuntimeError
  \/ encode_within float_repr sort_keys indent limit level o
     = encode float_repr sort_keys indent level o.
Proof.
  revert level.
  induction o as [|b|z|lit|u|s|l IH|items IH|name]
    using JsonFacts.pyval_nested_ind; intros level;
    try (right; reflexivity).
  - cbn [encode_within encode].
    destruct (limit <? S level)%nat; [left; reflexivity|].
    unfold mbind, result_bind.
    destruct (sequence_agree
                (map (encode_within float_repr sort_keys indent limit (S level)) l)
                (map (encode float_repr sort_keys indent (S level)) l))
      as [->| ->]; [|left; reflexivity|right; reflexivity].
    apply Forall2_fmap, Forall_Forall2_diag.
    eapply Forall_impl; [exact IH|]. intros x Hx. apply Hx.
  - cbn [encode_within encode].
    destruct (limit <? S level)%nat; [left; reflexivity|].
    unfold mbind, result_bind. cbv zeta.
    match goal with
    | |- context [sequence (map ?f ?a)] =>
        match goal with
        | |- context [_ = match sequence (map f ?b) with _ => _ end] =>
            destruct (sequence_agree (map f a) (map f b)) as [->| ->];
              [|left; reflexivity|right; reflexivity]
        end
    end.
    apply Forall2_fmap.
    destruct sort_keys.
    + rewrite !(CanonFacts.sort_by_key_map _ items).
      apply Forall2_fmap, Forall_Forall2_diag.
      rewrite (JsonFacts.sort_by_key_perm items).
      eapply Forall_impl; [exact IH|]. intros kv Hkv. cbn [fst snd].
      unfold member, mbind, result_bind.
      destruct (Hkv (S level)) as [->| ->]; [left|right]; reflexivity.
    + apply Forall2_fmap, Forall_Forall2_diag.
      eapply Forall_impl; [exact IH|]. intros kv Hkv. cbn [fst snd].
      unfold member, mbind, result_bind.
      destruct (Hkv (S level)) as [->| ->]; [left|right]; reflexivity.
Qed.

End Encoder.

Lemma lex_prefix_brackets (n : nat) :
  lex_prefix 0 (brackets n) = (repeat TLBracket n, true).
Proof.
  induction n as [|n IH]; [reflexivity|].
  cbn [brackets lex_prefix]. change (is_ws "[") with false. cbv iota.
  change (lex_at (String "[" (brackets n))) with (Some (TLBracket, 1%nat)).
  cbn [Nat.pred]. rewrite IH. reflexivity.
Qed.

Lemma run_within_brackets (limit m : nat) (stack : list frame) (e : expect) :
  e = EValue \/ e = EValueOrClose ->
  (length stack <= limit)%nat -> (limit < length stack + m)%nat ->
  run_within limit (stack, e) (repeat TLBracket m) = Raise RuntimeError.
Proof.
  revert stack e. induction m as [|m IH]; intros stack e He Hle Hlt; [lia|].
  cbn [repeat run_within]. unfold step_within, mbind, result_bind.
  assert (Hstep : step (stack, e) TLBracket
                  = Some (FArray [] :: stack, EValueOrClose))
    by (destruct He as [->| ->]; reflexivity).
  rewrite Hstep. cbn [fst length].
  destruct (Nat.ltb_spec limit (S (length stack))) as [_|Hge]; [reflexivity|].
  apply IH; [right; reflexivity|exact Hge|cbn [length]; lia].
Qed.

(** A text that opens one array more than the limit allows. *)
Lemma loads_at_brackets (limit : nat) :
  loads_at limit (brackets (S limit)) = Raise RuntimeError.
Proof.
  unfold loads_at. rewrite lex_prefix_brackets.
  rewrite run_within_brackets; [reflexivity|left; reflexivity|cbn; lia..].
Qed.

Section Formatted.

Variable float_repr : string -> string.
Variable highlight : string -> string.

(** Out of reach of the limit nothing is raised. *)
Lemma formatted_json_returns (value : string) :
  exists out, formatted_json float_repr highlight value = Ok out.
Proof.
  unfold formatted_json. rewrite BodyFacts.or_empty. unfold mbind, result_bind.
  destruct (loads value) as [o|e] eqn:Hl.
  - apply JsonFacts.loads_typed in Hl.
    destruct (JsonFacts.encode_typed float_repr true (Some 2%nat) o Hl 0%nat)
      as [json_value Hd].
    unfold dumps. rewrite Hd. eauto.
  - apply JsonFacts.loads_raises in Hl. subst e. eauto.
Qed.

(** [formatted_json_at] raises the [RuntimeError] of a limit or does
    what [formatted_json] does. *)
Lemma formatted_json_at_limit (scan_limit encode_limit : nat) (value : string) :
  formatted_json_at float_repr highlight scan_limit encode_limit value
    = Raise RuntimeError
  \/ formatted_json_at float_repr highlight scan_limit encode_limit value
     = formatted_json float_repr highlight value.
Proof.
  unfold formatted_json_at, formatted_json. rewrite BodyFacts.or_empty.
  unfold mbind, result_bind.
  destruct (loads_at_loads scan_limit value) as [->| ->];
    [left; reflexivity|].
  destruct (loads value) as [o|e]; [|right; reflexivity].
  unfold dumps_at, dumps.
  destruct (encode_within_encode float_repr true (Some 2%nat) encode_limit o 0)
    as [->| ->]; [left|right]; reflexivity.
Qed.

(** C7. [formatted_json] returns the stored text when [json.loads]
    raises a [ValueError], and the highlighted rendering with sorted
    keys and an indent of two of the parsed value when [json.loads]
    and [json.dumps] return.  The only exception that leaves it is the
    [RuntimeError] of the recursion limit.  The text not json is
    returned as it is, and the text of the object with a key a is
    rendered on three lines when one level of nesting can be
    entered. *)
Theorem formatted_json_within_limits (scan_limit encode_limit : nat)
    (value : string) :
  let formatted :=
    formatted_json_at float_repr highlight scan_limit encode_limit in
  (loads_at scan_limit value = Raise ValueError -> formatted value = Ok value)
  /\ (forall o json_value,
        loads_at scan_limit value = Ok o ->
        dumps_at float_repr true (Some 2%nat) encode_limit o = Ok json_value ->
        formatted value = Ok (highlight json_value))
  /\ (forall e, formatted value = Raise e -> e = RuntimeError)
  /\ formatted "not json" = Ok "not json"
  /\ formatted_json_at float_repr highlight (S scan_limit) (S encode_limit) a_one
     = Ok (highlight a_one_indented).
Proof.
  intros formatted. unfold formatted. split; [|split; [|split; [|split]]].
  - intros Hl. unfold formatted_json_at. rewrite BodyFacts.or_empty, Hl.
    reflexivity.
  - intros o json_value Hl Hd. unfold formatted_json_at.
    rewrite BodyFacts.or_empty, Hl. unfold mbind, result_bind.
    rewrite Hd. reflexivity.
  - intros e He.
    destruct (formatted_json_at_limit scan_limit encode_limit value) as [H|H];
      rewrite H in He.
    + congruence.
    + destruct (formatted_json_returns value) as [out Hout]. congruence.
  - reflexivity.
  - reflexivity.
Qed.

End Formatted.

Lemma formatted_json_within_limits_witness :
  loads_at 1000 a_one = Ok (PDict [(utext "a", PInt 1)])
  /\ formatted_json_at same_literal no_highlight 1000 1000 a_one
     = Ok (no_highlight a_one_indented).
Proof.
  assert (Hl : loads_at 1000 a_one = Ok (PDict [(utext "a", PInt 1)]))
    by (vm_compute; reflexivity).
  assert (Hd : dumps_at same_literal true (Some 2%nat) 1000
                 (PDict [(utext "a", PInt 1)]) = Ok a_one_indented)
    by (vm_compute; reflexivity).
  split; [exact Hl|].
  exact (proj1 (proj2 (formatted_json_within_limits same_literal no_highlight
                         1000 1000 a_one)) _ _ Hl Hd).
Defined.

(** A text that opens 1001 arrays, with 1000 levels left: the
    [RuntimeError] of [json.loads] leaves [formatted_json]. *)
Lemma deep_text_counterexample :
  loads_at 1000 (brackets 1001) = Raise RuntimeError
  /\ formatted_json_at same_literal no_highlight 1000 1000 (brackets 1001)
     = Raise RuntimeError.
Proof.
  pose proof (loads_at_brackets 1000) as Hl.
  split; [exact Hl|].
  unfold formatted_json_at. rewrite BodyFacts.or_empty, Hl. reflexivity.
Qed.

End LimitFacts.
